(** * Synthetic training-sample generator of the kanji recognizer

    A shallow embedding of [recognizer/data/training_dataset.py]: the
    background synthesizer, the compositing effects, the nine staged sample
    generators and the curriculum scheduler, together with the properties
    the specification states about them.

    Conventions of the embedding.
    - Python floats are read as rationals ([Q]) and Python ints as [Z].
      [random.random()] returns a double [k * 2^-53], and the product
      [random() * n] inside [random.choices], whose floor or bisection
      selects a branch, is rounded to a double ([double]); the other float
      operations are exact.
    - A Python [str] is the list of its code points ([PyStr]).
    - The two ambient random generators (the [random] module and
      [numpy.random]) are explicit streams of raw draws threaded through a
      state-and-exception monad [M]; [print] appends to an explicit
      standard output.
    - A PIL image is represented by the sequence of PIL operations that
      built it; [pixel] reads a pixel of that construction. *)

From Stdlib Require Import ZArith QArith Qround Qabs Qminmax Qpower String Ascii Bool Lia Lqa
  List.
Import ListNotations.

Local Open Scope Z_scope.

(** ** Python numbers *)

Definition Qgtb (a b : Q) : bool := negb (Qle_bool a b).

(** [math.floor]. *)
Definition math_floor (x : Q) : Z := Qfloor x.

(** [int(x)] on a float: truncation towards zero. *)
Definition py_int (x : Q) : Z :=
  if Qle_bool 0 x then Qfloor x else Qceiling x.

(** [round(x)] on a float: nearest integer, ties to the even one. *)
Definition py_round (x : Q) : Z :=
  let f := Qfloor x in
  match (x - inject_Z f ?= 1 # 2)%Q with
  | Lt => f
  | Gt => f + 1
  | Eq => if Z.even f then f else f + 1
  end.

(** [floor(log2(x))] of a positive number. *)
Definition ilog2 (x : Q) : Z :=
  let l := Z.log2 (Qnum x) - Z.log2 (Zpos (Qden x)) in
  if Qle_bool (2 ^ l) x then l else l - 1.

(** The double nearest to a number, ties to the even significand: the
    number is rounded to 53 significant bits (overflow and subnormal
    numbers aside). *)
Definition double (x : Q) : Q :=
  if Qeq_bool x 0 then 0%Q
  else
    let ulp := (2 ^ (ilog2 (Qabs x) - 52))%Q in
    (inject_Z (py_round (x / ulp)) * ulp)%Q.

(** [x // 2] on a float, then the C cast to [int] PIL applies to a
    coordinate. *)
Definition floordiv2 (x : Q) : Z := py_int (inject_Z (Qfloor (x / 2))).

(** [range(a, b)]. *)
Definition py_range (a b : Z) : list Z :=
  map (fun i => a + Z.of_nat i) (seq 0 (Z.to_nat (b - a))).

(** ** Python strings *)

Definition PyStr := list N.

Definition str (s : string) : PyStr :=
  map N_of_ascii (list_ascii_of_string s).

Definition str_eqb (a b : PyStr) : bool :=
  if list_eq_dec N.eq_dec a b then true else false.

(** [x in collection]. *)
Definition str_in (x : PyStr) (l : list PyStr) : bool := existsb (str_eqb x) l.

(** [''.join(parts)]. *)
Definition join (parts : list PyStr) : PyStr := concat parts.

(** [list(text)]: the one-character strings of [text]. *)
Definition chars_of (text : PyStr) : list PyStr := map (fun c => [c]) text.

(** [os.path.basename]: what follows the last slash. *)
Fixpoint basename (p : PyStr) : PyStr :=
  match p with
  | [] => []
  | c :: rest =>
      if existsb (N.eqb 47) rest then basename rest
      else if N.eqb c 47 then rest else c :: rest
  end.

(** ** Effects: random sources, standard output, exceptions *)

Record RandomSource := {
  draws : nat -> Q;
  position : nat
}.

Definition next_draw (r : RandomSource) : Q * RandomSource :=
  (draws r (position r), {| draws := draws r; position := S (position r) |}).

Definition skip_draws (n : nat) (r : RandomSource) : RandomSource :=
  {| draws := draws r; position := (n + position r)%nat |}.

Record World := {
  py_random : RandomSource;   (* the [random] module's generator *)
  np_random : RandomSource;   (* [numpy.random]'s generator *)
  stdout : list PyStr         (* one entry per [print] call *)
}.

Inductive Exn :=
| ValueError
| IndexError
| TypeError
| OSError
| SystemExit (code : Z).

Inductive Result (A : Type) :=
| Ok (a : A)
| Raise (e : Exn).
Arguments Ok {A} a.
Arguments Raise {A} e.

Definition M (A : Type) : Type := World -> Result A * World.

Definition ret {A} (a : A) : M A := fun w => (Ok a, w).

Definition bind {A B} (m : M A) (f : A -> M B) : M B :=
  fun w =>
    match m w with
    | (Ok a, w') => f a w'
    | (Raise e, w') => (Raise e, w')
    end.

Definition raise {A} (e : Exn) : M A := fun w => (Raise e, w).

Declare Scope py_scope.
Delimit Scope py_scope with py.
Notation "x <- m ;; k" := (bind m (fun x => k))
  (at level 100, m at next level, right associativity) : py_scope.
Notation "' pat <- m ;; k" := (bind m (fun x => match x with pat => k end))
  (at level 100, pat pattern, m at next level, right associativity) : py_scope.
Notation "m ;;; k" := (bind m (fun _ => k))
  (at level 100, right associativity) : py_scope.
Local Open Scope py_scope.

(** A computation that returns, in every world, a value satisfying [P]. *)
Definition returns_with {A} (P : A -> Prop) (m : M A) : Prop :=
  forall w, exists a w', m w = (Ok a, w') /\ P a.

(** [for x in xs: body(x)], threading an accumulator. *)
Fixpoint for_each {A S} (xs : list A) (body : A -> S -> M S) (s : S) : M S :=
  match xs with
  | [] => ret s
  | x :: rest => s' <- body x s ;; for_each rest body s'
  end.

(** [[f() for _ in range(n)]]. *)
Fixpoint repeat_m {A} (n : nat) (f : M A) : M (list A) :=
  match n with
  | O => ret []
  | S n' => x <- f ;; xs <- repeat_m n' f ;; ret (x :: xs)
  end.

(** [seq[i]] on a list, with Python's negative indices. *)
Definition getitem {A} (l : list A) (i : Z) : M A :=
  let n := Z.of_nat (length l) in
  let j := if i <? 0 then i + n else i in
  if (0 <=? j) && (j <? n) then
    match nth_error l (Z.to_nat j) with
    | Some a => ret a
    | None => raise IndexError
    end
  else raise IndexError.

(** [print(message)]. *)
Definition print (message : PyStr) : M unit :=
  fun w => (Ok tt, {| py_random := py_random w; np_random := np_random w;
                      stdout := stdout w ++ [message] |}).

(** [exit(code)]. *)
Definition exit {A} (code : Z) : M A := raise (SystemExit code).

(** *** The [random] module

    [random.random()] returns a double [k * 2^-53] with [0 <= k < 2^53].
    A raw draw is read as such a variate through the first 53 bits of its
    fractional part, so every one of these doubles is a possible outcome. *)

Definition frac (q : Q) : Q := (q - inject_Z (Qfloor q))%Q.

Definition uniform (q : Q) : Q :=
  (Qfloor (frac q * 9007199254740992) # 9007199254740992)%Q.

Definition random : M Q :=
  fun w =>
    let (q, r) := next_draw (py_random w) in
    (Ok (uniform q), {| py_random := r; np_random := np_random w; stdout := stdout w |}).

(** The uniform variate [random.random()] returns in a world, and the
    world it leaves. *)
Definition uniform_draw (w : World) : Q :=
  uniform (draws (py_random w) (position (py_random w))).

Definition after_random (w : World) : World :=
  {| py_random := snd (next_draw (py_random w));
     np_random := np_random w;
     stdout := stdout w |}.

(** [Random._randbelow(n)], behind [randrange], [randint] and [choice]: it
    takes one outcome in [[0, n)] from the generator.  The outcome is read
    off the next draw of the source as [floor(r * n)]; every outcome is
    possible, and which draw stands for which outcome is a convention of
    the source, not CPython's bit-level sampling. *)
Definition randbelow (n : Z) : M Z :=
  r <- random ;; ret (Qfloor (r * inject_Z n)).

Definition randrange (start stop : Z) : M Z :=
  if 0 <? stop - start then
    k <- randbelow (stop - start) ;; ret (start + k)
  else raise ValueError.

Definition randint (a b : Z) : M Z := randrange a (b + 1).

Definition choice {A} (seq : list A) : M A :=
  match seq with
  | [] => raise IndexError
  | _ => i <- randbelow (Z.of_nat (length seq)) ;; getitem seq i
  end.

(** [itertools.accumulate]. *)
Fixpoint accumulate (acc : Q) (ws : list Q) : list Q :=
  match ws with
  | [] => []
  | w :: rest => (acc + w)%Q :: accumulate (acc + w)%Q rest
  end.

(** [bisect.bisect(a, x, 0, hi)]: how many of the first [hi] entries of the
    sorted list are at most [x]. *)
Fixpoint bisect (a : list Q) (x : Q) (hi : nat) : nat :=
  match hi, a with
  | S hi', c :: rest => if Qle_bool c x then S (bisect rest x hi') else O
  | _, _ => O
  end.

(** The index [random.choices(population, weights)] selects, as a function
    of the uniform draw [r]: without weights [floor(random() * n)] with [n]
    the length as a float, with weights
    [bisect(cum_weights, random() * total, 0, n - 1)]; both products are
    doubles. *)
Definition choices_index (n : nat) (weights : option (list Q)) (r : Q) : Z :=
  match weights with
  | None => Qfloor (double (r * inject_Z (Z.of_nat n)))
  | Some ws =>
      let cum := accumulate 0 ws in
      let total := last cum 0%Q in
      Z.of_nat (bisect cum (double (r * total)) (n - 1))
  end.

(** [random.choices(population, weights)[0]]. *)
Definition choices {A} (population : list A) (weights : option (list Q)) : M A :=
  match weights with
  | Some ws =>
      if negb (Nat.eqb (length ws) (length population)) then raise ValueError
      else if Qle_bool (last (accumulate 0 ws) 0%Q) 0 then raise ValueError
      else r <- random ;; getitem population (choices_index (length population) weights r)
  | None =>
      r <- random ;; getitem population (choices_index (length population) weights r)
  end.

(** *** [numpy.random]

    A raw draw is read as the standard normal deviate. *)

Definition np_normal (loc scale : Q) : M Q :=
  fun w =>
    let (z, r) := next_draw (np_random w) in
    (Ok (loc + scale * z)%Q,
     {| py_random := py_random w; np_random := r; stdout := stdout w |}).

(** [random_color()]. *)
Definition Color := list Z.

Definition random_color : M Color :=
  r <- randint 0 255 ;; g <- randint 0 255 ;; b <- randint 0 255 ;; ret [r; g; b].

Definition WHITE_COLOR : Color := [255; 255; 255].
Definition BLACK_COLOR : Color := [0; 0; 0].

(** ** Fonts

    The generator reads a [FontInfo] of [recognizer/data/fonts.py] through
    [path], [supported_glyphs] and [get(size)] only. *)

Inductive Anchor := lt | mm | lm.
Inductive Language := ja.

(** Modelled from the spec: FontInfo (declared in the missing [fonts.py]) —
    it "owns a font file path, the set of characters it can render, and a
    cache mapping pixel-size to renderable font handle".  The set is listed
    in the order [tuple(supported_glyphs)] yields.  The font file also fixes
    what PIL measures for a text at a pixel size ([FreeTypeFont.getbbox]),
    kept here as the field [metrics]. *)
Record FontInfo := {
  path : PyStr;
  supported_glyphs : list PyStr;
  metrics : Z -> PyStr -> Anchor -> Language -> Z * Z * Z * Z
}.

(** A rendered font handle: the font file at one pixel size. *)
Record Font := {
  font_info_of : FontInfo;
  size : Z
}.

(** Modelled from the spec: FontInfo.get (from the missing [fonts.py]) —
    "memoized per (font, size) pair; repeated calls with the same arguments
    return the same cached handle". *)
Definition FontInfo_get (font_info : FontInfo) (font_size : Z) : Font :=
  {| font_info_of := font_info; size := font_size |}.

(** Modelled from the spec: subscripting a FontInfo ([font_info['path']]).
    The spec gives FontInfo as an object owning its fields, and every other
    access in the source is by attribute; such an object has no
    [__getitem__], so the subscript raises [TypeError]. *)
Definition FontInfo_subscript (font_info : FontInfo) (key : PyStr) : M PyStr :=
  raise TypeError.

(** [font.getbbox(text, anchor=..., language=...)]. *)
Definition getbbox (font : Font) (text : PyStr) (anchor : Anchor) (language : Language)
  : Z * Z * Z * Z :=
  metrics (font_info_of font) (size font) text anchor language.

(** ** Images

    An image is the history of PIL calls that produced it. *)

Inductive Mode := L | RGB | RGBA.

Definition Mode_eqb (a b : Mode) : bool :=
  match a, b with
  | L, L | RGB, RGB | RGBA, RGBA => true
  | _, _ => false
  end.

Inductive Image :=
| Image_new (mode : Mode) (width height : Z) (color : Color)
| Image_open (name : PyStr) (mode : Mode) (width height : Z) (data : Z -> Z -> Color)
| Image_fromarray (rows cols : Z) (data : Z -> Z -> Color)
| Image_blend (im1 im2 : Image) (alpha : Q)
| Image_resize (im : Image) (width height : Z) (box : Z * Z * Z * Z)
| Draw_text (im : Image) (xy : Q * Q) (text : PyStr) (font : Font)
            (fill : Color) (anchor : Anchor) (language : Language)
| Draw_line (im : Image) (xy0 xy1 : Q * Q) (fill : Color) (line_width : Z)
| Draw_rectangle (im : Image) (xy0 xy1 : Z * Z) (fill : Color).

Fixpoint Image_width (im : Image) : Z :=
  match im with
  | Image_new _ w _ _ => w
  | Image_open _ _ w _ _ => w
  | Image_fromarray _ cols _ => cols
  | Image_blend im1 _ _ => Image_width im1
  | Image_resize _ w _ _ => w
  | Draw_text im' _ _ _ _ _ _ => Image_width im'
  | Draw_line im' _ _ _ _ => Image_width im'
  | Draw_rectangle im' _ _ _ => Image_width im'
  end.

Fixpoint Image_height (im : Image) : Z :=
  match im with
  | Image_new _ _ h _ => h
  | Image_open _ _ _ h _ => h
  | Image_fromarray rows _ _ => rows
  | Image_blend im1 _ _ => Image_height im1
  | Image_resize _ _ h _ => h
  | Draw_text im' _ _ _ _ _ _ => Image_height im'
  | Draw_line im' _ _ _ _ => Image_height im'
  | Draw_rectangle im' _ _ _ => Image_height im'
  end.

Fixpoint Image_mode (im : Image) : Mode :=
  match im with
  | Image_new m _ _ _ => m
  | Image_open _ m _ _ _ => m
  | Image_fromarray _ _ _ => RGB
  | Image_blend im1 _ _ => Image_mode im1
  | Image_resize im' _ _ _ => Image_mode im'
  | Draw_text im' _ _ _ _ _ _ => Image_mode im'
  | Draw_line im' _ _ _ _ => Image_mode im'
  | Draw_rectangle im' _ _ _ => Image_mode im'
  end.

(** [Image.blend(im1, im2, alpha)]: both images must agree in mode and
    size. *)
Definition blend (im1 im2 : Image) (alpha : Q) : M Image :=
  if Mode_eqb (Image_mode im1) (Image_mode im2)
     && (Image_width im1 =? Image_width im2)
     && (Image_height im1 =? Image_height im2)
  then ret (Image_blend im1 im2 alpha)
  else raise ValueError.

Definition degenerate (im : Image) : Prop :=
  Image_width im <= 1 \/ Image_height im <= 1.

(** [ImageDraw.rectangle] fills every pixel of the canvas between the two
    corners, both included.  The corners are taken in either order, as
    Pillow does up to 9.4; from 9.5 on a call whose second corner lies
    before the first raises [ValueError] and draws nothing.

    A drawing call is recorded in the image as a call that returned.  The
    errors PIL itself raises on its arguments (a fill that does not fit the
    mode of the canvas, corners in reverse order from 9.5 on) are no part
    of the history: what is said of a canvas that [eat_sides],
    [draw_outlined_text] or [draw_underlined_text] drew on is said of the
    calls that returned. *)
Definition in_rectangle (xy0 xy1 : Z * Z) (x y : Z) : bool :=
  (Z.min (fst xy0) (fst xy1) <=? x) && (x <=? Z.max (fst xy0) (fst xy1))
  && (Z.min (snd xy0) (snd xy1) <=? y) && (y <=? Z.max (snd xy0) (snd xy1)).

(** What PIL's rasterisers do to one pixel: text and line drawing, blending
    and resampling are taken as given. *)
Record Rasterizer := {
  text_pixel : Font -> PyStr -> Anchor -> Language -> Q * Q -> Color ->
               Z -> Z -> Color -> Color;
  line_pixel : Q * Q -> Q * Q -> Color -> Z -> Z -> Z -> Color -> Color;
  blend_pixel : Color -> Color -> Q -> Color;
  resize_pixel : (Z -> Z -> Color) -> Z * Z -> Z * Z * Z * Z -> Z -> Z -> Color
}.

Fixpoint pixel (R : Rasterizer) (im : Image) (x y : Z) : Color :=
  match im with
  | Image_new _ _ _ color => color
  | Image_open _ _ _ _ data => data x y
  | Image_fromarray _ _ data => data x y
  | Image_blend im1 im2 alpha => blend_pixel R (pixel R im1 x y) (pixel R im2 x y) alpha
  | Image_resize im' w h box => resize_pixel R (pixel R im') (w, h) box x y
  | Draw_text im' xy text font fill anchor language =>
      text_pixel R font text anchor language xy fill x y (pixel R im' x y)
  | Draw_line im' xy0 xy1 fill w => line_pixel R xy0 xy1 fill w x y (pixel R im' x y)
  | Draw_rectangle im' xy0 xy1 fill =>
      if in_rectangle xy0 xy1 x y then fill else pixel R im' x y
  end.

(** The text drawing calls recorded in an image, most recent first. *)
Fixpoint drawn_texts (im : Image) : list (PyStr * Font) :=
  match im with
  | Draw_text im' _ text font _ _ _ => (text, font) :: drawn_texts im'
  | Draw_line im' _ _ _ _ => drawn_texts im'
  | Draw_rectangle im' _ _ _ => drawn_texts im'
  | _ => []
  end.


(** One image records at least the text drawing calls of another. *)
Definition extends (im im' : Image) : Prop :=
  forall p, In p (drawn_texts im) -> In p (drawn_texts im').

(** [random_noise(width, height)]: a [(width, height, 3)] array of draws
    from [numpy.random.randint(0, 255)], turned into an image. *)
Definition random_noise (width height : Z) : M Image :=
  fun w =>
    let src := np_random w in
    let value (i : Z) : Z :=
      Qfloor (frac (draws src (position src + Z.to_nat i)%nat) * 255) in
    let data (x y : Z) : Color :=
      let base := (y * height + x) * 3 in
      [value base; value (base + 1); value (base + 2)] in
    (Ok (Image_fromarray width height data),
     {| py_random := py_random w;
        np_random := skip_draws (Z.to_nat (width * height * 3)) src;
        stdout := stdout w |}).

(** ** Compositing effects

    The three effects draw on the canvas they are handed; each of their
    drawing calls is recorded as a call that returned. *)

(** [draw_outlined_text] with its default outline colour and thickness. *)
Definition draw_outlined_text (drawing : Image) (xy : Q * Q) (text : PyStr)
    (font : Font) (fill : Color) (anchor : Anchor) (language : Language) : M Image :=
  outline_fill <- random_color ;;
  z <- np_normal 1 1 ;;
  let outline_thickness := 1 + py_round (Qabs z) in
  let '(x, y) := xy in
  let offsets := py_range (- outline_thickness) (1 + outline_thickness) in
  let drawing :=
    fold_left (fun im dx =>
      fold_left (fun im dy =>
        Draw_text im ((x + inject_Z dx)%Q, (y + inject_Z dy)%Q) text font
                  outline_fill anchor language) offsets im) offsets drawing in
  ret (Draw_text drawing xy text font fill anchor language).

Definition draw_underlined_text (drawing : Image) (xy : Q * Q) (text : PyStr)
    (font : Font) (fill : Color) (anchor : Anchor) (language : Language) : M Image :=
  let '(bb_left, bb_top, bb_right, bb_bottom) := getbbox font text anchor language in
  z1 <- np_normal 1 (1 # 10) ;;
  let width := py_round (Qabs z1) in
  z2 <- np_normal 1 (1 # 10) ;;
  let jitter := (z2 * (inject_Z (size font) / 20))%Q in
  let drawing := Draw_text drawing xy text font fill anchor language in
  let '(x, y) := xy in
  ret (Draw_line drawing
         ((x + inject_Z bb_left)%Q, (y + inject_Z bb_bottom + jitter)%Q)
         ((x + inject_Z bb_right)%Q, (y + inject_Z bb_bottom + jitter)%Q)
         fill width).

Definition eat_sides (image : Image) (left right top bottom : Q) : M Image :=
  let left := py_round left in
  let right := py_round right in
  let top := py_round top in
  let bottom := py_round bottom in
  color <- random_color ;;
  a <- randint 0 left ;;
  let image1 := Draw_rectangle image (0, 0) (a, Image_height image) color in
  b <- randint right (Image_width image1) ;;
  let image2 :=
    Draw_rectangle image1 (Image_width image1, 0) (b, Image_height image1) color in
  c <- randint 0 top ;;
  let image3 := Draw_rectangle image2 (0, 0) (Image_width image2, c) color in
  d <- randint bottom (Image_height image3) ;;
  ret (Draw_rectangle image3 (0, Image_height image3) (Image_width image3, d) color).

(** What [eat_sides] returns when its four draws are [a], [b], [c], [d]. *)
Definition eaten (image : Image) (color : Color) (a b c d : Z) : Image :=
  Draw_rectangle
    (Draw_rectangle
       (Draw_rectangle
          (Draw_rectangle image (0, 0) (a, Image_height image) color)
          (Image_width image, 0) (b, Image_height image) color)
       (0, 0) (Image_width image, c) color)
    (0, Image_height image) (Image_width image, d) color.

(** ** The dataset *)

(** An entry of the backgrounds folder, as [os.listdir], [os.path.isfile]
    and [Image.open] see it; [entry_image] is [None] when the file cannot be
    opened as an image. *)
Record DirEntry := {
  entry_name : PyStr;
  entry_isfile : bool;
  entry_image : option Image
}.

Definition Image_open_entry (e : DirEntry) : M Image :=
  match entry_image e with
  | Some im => ret im
  | None => raise OSError
  end.

(** [[f(x) for x in xs]] with an effectful [f]. *)
Fixpoint map_m {A B} (f : A -> M B) (xs : list A) : M (list B) :=
  match xs with
  | [] => ret []
  | x :: rest => y <- f x ;; ys <- map_m f rest ;; ret (y :: ys)
  end.

(** The curriculum scheduler's choice in [generate], as a function of the
    curriculum value and of the uniform draw. *)
Definition select_stage (self_stage r : Q) : Z :=
  let low := math_floor self_stage in
  let high := low + 1 in
  let stage :=
    if Qgtb r (self_stage - inject_Z (math_floor self_stage)) then low else high in
  Z.min stage 8.

Section RecognizerTrainingDataset.

(** What an externally supplied transform produces. *)
Context {Tensor : Type}.

Record Dataset := {
  font_infos : list FontInfo;
  transform : option (Image -> Tensor);
  characters : list PyStr;
  background_images : list Image;
  stage : Q
}.

(** A sample: (image, label, region score); an image is a PIL image, or
    the transform's output when a transform is supplied. *)
Definition Sample : Type := (Image + Tensor) * Z * (Image + Tensor).

(** [RecognizerTrainingDataset.__init__]; [loaded_fonts] is what
    [fonts.font_infos_in_folder] returned for the fonts folder. *)
Definition __init__ (loaded_fonts : list FontInfo) (backgrounds_folder : list DirEntry)
    (character_set : list PyStr) (transform : option (Image -> Tensor)) : M Dataset :=
  images <- map_m Image_open_entry (filter entry_isfile backgrounds_folder) ;;
  ret {| font_infos := loaded_fonts;
         transform := transform;
         characters := character_set;
         background_images := images;
         stage := 0 |}.

Variable self : Dataset.

Definition len {A} (l : list A) : Z := Z.of_nat (length l).

Definition fonts_supporting_glyph (glyph : PyStr) : list FontInfo :=
  filter (fun font => str_in glyph (supported_glyphs font)) (font_infos self).

Definition random_background_image (width height : Z) : M Image :=
  background <- choice (background_images self) ;;
  bg_left <- randint 0 (Image_width background - 2) ;;
  bg_right <- randint (bg_left + 1) (Image_width background) ;;
  bg_top <- randint 0 (Image_height background - 2) ;;
  bg_bottom <- randint (bg_top + 1) (Image_height background) ;;
  ret (Image_resize background width height (bg_left, bg_top, bg_right, bg_bottom)).

Inductive BackgroundMode := noise | img | plain.

Definition generate_background (width height : Z) : M Image :=
  choice <- choices [noise; img; plain] None ;;
  match choice with
  | noise =>
      r <- random ;;
      image <- (if Qgtb r (1 # 2) then random_background_image width height
                else color <- random_color ;; ret (Image_new RGB width height color)) ;;
      noise_image <- random_noise width height ;;
      z <- np_normal 0 (3 # 10) ;;
      blend image noise_image (Qmin (Qabs z) 1)
  | img => random_background_image width height
  | plain => color <- random_color ;; ret (Image_new RGB width height color)
  end.

Definition generate_region_score (width height : Z) (top_left bottom_right : Q * Q)
  : Image :=
  let region_score := Image_new L (width / 2) (height / 2) [0] in
  Draw_rectangle region_score
    (floordiv2 (fst top_left), floordiv2 (snd top_left))
    (floordiv2 (fst bottom_right), floordiv2 (snd bottom_right))
    [255].

Definition generate_only_char (xy : Q * Q) (text : PyStr) (font : Font)
    (fill : Color) (anchor : Anchor) (language : Language) : Image :=
  let region_score := Image_new L 128 128 [0] in
  let fill := [255] in
  Draw_text region_score xy text font fill anchor language.

Definition random_font_size : M Z :=
  n15 <- np_normal 15 3 ;;
  n20 <- np_normal 20 3 ;;
  n35 <- np_normal 35 3 ;;
  n50 <- np_normal 50 3 ;;
  chosen <- choices [n15; n20; n35; n50] (Some [10; 3; 1; 1]%Q) ;;
  ret (py_int chosen).

(** The last statement of every stage generator. *)
Definition return_sample (sample : Image) (label : Z) (region_score : Image) : M Sample :=
  match transform self with
  | None => ret (inl sample, label, inl region_score)
  | Some t => ret (inr (t sample), label, inr (t region_score))
  end.

Definition half (n : Z) : Q := (inject_Z n / 2)%Q.

Definition generate_stage_0 : M Sample :=
  label <- randrange 0 (len (characters self)) ;;
  character <- getitem (characters self) label ;;
  font_info <- getitem (fonts_supporting_glyph character) 0 ;;
  let font_size := 32 in
  let font := FontInfo_get font_info font_size in
  let '(_, _, width, height) := getbbox font character lt ja in
  let sample := Image_new RGB 128 128 WHITE_COLOR in
  let sample := Draw_text sample (64, 64)%Q character font BLACK_COLOR mm ja in
  let region_score :=
    generate_region_score 128 128
      (64 - half width, 64 - half height)%Q
      (64 + half width, 64 + half height)%Q in
  let region_score := generate_only_char (64, 64)%Q character font BLACK_COLOR mm ja in
  return_sample sample label region_score.

Definition generate_stage_1 : M Sample :=
  label <- randrange 0 (len (characters self)) ;;
  character <- getitem (characters self) label ;;
  font_info <- getitem (fonts_supporting_glyph character) 0 ;;
  let font_size := 32 in
  let font := FontInfo_get font_info font_size in
  r <- random ;;
  let inverted := Qgtb r (1 # 2) in
  let '(_, _, width, height) := getbbox font character lt ja in
  let sample :=
    Image_new RGB 128 128 (if inverted then BLACK_COLOR else WHITE_COLOR) in
  let sample :=
    Draw_text sample (64, 64)%Q character font
              (if inverted then WHITE_COLOR else BLACK_COLOR) mm ja in
  let region_score :=
    generate_region_score 128 128
      (64 - half width, 64 - half height)%Q
      (64 + half width, 64 + half height)%Q in
  let region_score :=
    generate_only_char (64, 64)%Q character font
                       (if inverted then WHITE_COLOR else BLACK_COLOR) mm ja in
  return_sample sample label region_score.

Definition generate_stage_2 : M Sample :=
  label <- randrange 0 (len (characters self)) ;;
  character <- getitem (characters self) label ;;
  font_info <- getitem (fonts_supporting_glyph character) 0 ;;
  let font_size := 32 in
  let font := FontInfo_get font_info font_size in
  let '(_, _, width, height) := getbbox font character lt ja in
  background <- random_color ;;
  let sample := Image_new RGB 128 128 background in
  fill <- random_color ;;
  let sample := Draw_text sample (64, 64)%Q character font fill mm ja in
  let region_score :=
    generate_region_score 128 128
      (64 - half width, 64 - half height)%Q
      (64 + half width, 64 + half height)%Q in
  fill <- random_color ;;
  let region_score := generate_only_char (64, 64)%Q character font fill mm ja in
  return_sample sample label region_score.

Definition generate_stage_3 : M Sample :=
  label <- randrange 0 (len (characters self)) ;;
  character <- getitem (characters self) label ;;
  font_info <- getitem (fonts_supporting_glyph character) 0 ;;
  font_size <- choice [20; 32] ;;
  let font := FontInfo_get font_info font_size in
  let '(_, _, width, height) := getbbox font character lt ja in
  background <- random_color ;;
  let sample := Image_new RGB 128 128 background in
  fill <- random_color ;;
  let sample := Draw_text sample (64, 64)%Q character font fill mm ja in
  let region_score :=
    generate_region_score 128 128
      (64 - half width, 64 - half height)%Q
      (64 + half width, 64 + half height)%Q in
  fill <- random_color ;;
  let region_score := generate_only_char (64, 64)%Q character font fill mm ja in
  return_sample sample label region_score.

Definition generate_stage_4 : M Sample :=
  label <- randrange 0 (len (characters self)) ;;
  character <- getitem (characters self) label ;;
  font_info <- choice (fonts_supporting_glyph character) ;;
  font_size <- random_font_size ;;
  let font_size := Z.max 8 font_size in
  let font := FontInfo_get font_info font_size in
  let '(_, _, width, height) := getbbox font character lt ja in
  background <- random_color ;;
  let sample := Image_new RGB 128 128 background in
  fill <- random_color ;;
  let sample := Draw_text sample (64, 64)%Q character font fill mm ja in
  let region_score :=
    generate_region_score 128 128
      (64 - half width, 64 - half height)%Q
      (64 + half width, 64 + half height)%Q in
  fill <- random_color ;;
  let region_score := generate_only_char (64, 64)%Q character font fill mm ja in
  return_sample sample label region_score.

(** [int(((extent / 2) - random.random() * extent) * 0.8)]. *)
Definition random_offset (extent r : Q) : Z :=
  py_int (((extent / 2) - r * extent) * (8 # 10))%Q.

Definition generate_stage_5 : M Sample :=
  label <- randrange 0 (len (characters self)) ;;
  character <- getitem (characters self) label ;;
  font_info <- choice (fonts_supporting_glyph character) ;;
  font_size <- random_font_size ;;
  let font_size := Z.max 8 font_size in
  let font := FontInfo_get font_info font_size in
  let '(_, _, width, height) := getbbox font character lt ja in
  rx <- random ;;
  let x_offset := inject_Z (random_offset (inject_Z width) rx) in
  ry <- random ;;
  let y_offset := inject_Z (random_offset (inject_Z height) ry) in
  background <- random_color ;;
  let sample := Image_new RGB 128 128 background in
  fill <- random_color ;;
  let sample :=
    Draw_text sample (64 + x_offset, 64 + y_offset)%Q character font fill mm ja in
  let region_score :=
    generate_region_score 128 128
      (64 + x_offset - half width, 64 + y_offset - half height)%Q
      (64 + x_offset + half width, 64 + y_offset + half height)%Q in
  fill <- random_color ;;
  let region_score :=
    generate_only_char (64 + x_offset, 64 + y_offset)%Q character font fill mm ja in
  return_sample sample label region_score.

(** The body of stage 6's loop over the characters of the composed text. *)
Definition check_extra_character_6 (font : Font) (font_info : FontInfo)
    (extra_character : PyStr) : M unit :=
  let '(_, _, bb_right, bb_bottom) := getbbox font extra_character lt ja in
  if (bb_right =? 0) || (bb_bottom =? 0) then
    font_path <- FontInfo_subscript font_info (str "path") ;;
    print (str "'" ++ extra_character ++ str "' is missing from " ++ basename font_path) ;;;
    exit (-1)
  else ret tt.

(** The body of the same loop in stages 7 and 8. *)
Definition check_extra_character (font : Font) (font_info : FontInfo)
    (extra_character : PyStr) : M unit :=
  let '(_, _, bb_right, bb_bottom) := getbbox font extra_character lt ja in
  if (bb_right =? 0) || (bb_bottom =? 0) then
    print (extra_character ++ str " is missing from " ++ basename (path font_info)) ;;;
    exit (-1)
  else ret tt.

Definition generate_stage_6 : M Sample :=
  label <- randrange 0 (len (characters self)) ;;
  character <- getitem (characters self) label ;;
  font_info <- choice (fonts_supporting_glyph character) ;;
  font_size <- random_font_size ;;
  let font_size := Z.max 8 font_size in
  let font := FontInfo_get font_info font_size in
  before_count <- randint 0 10 ;;
  after_count <- randint 0 10 ;;
  let total_count := before_count + after_count + 1 in
  before <- repeat_m (Z.to_nat before_count) (choice (supported_glyphs font_info)) ;;
  after <- repeat_m (Z.to_nat after_count) (choice (supported_glyphs font_info)) ;;
  let text := join before ++ character ++ join after in
  for_each (chars_of text)
           (fun extra_character _ => check_extra_character_6 font font_info extra_character)
           tt ;;;
  let '(_, _, bb_right, bb_bottom) := getbbox font text lt ja in
  let character_width := (inject_Z bb_right / inject_Z total_count)%Q in
  let character_height := inject_Z bb_bottom in
  let x := (64 - character_width / 2 - character_width * inject_Z before_count)%Q in
  rx <- random ;;
  let x_offset := inject_Z (random_offset character_width rx) in
  ry <- random ;;
  let y_offset := inject_Z (random_offset character_height ry) in
  background <- random_color ;;
  let sample := Image_new RGB 128 128 background in
  fill <- random_color ;;
  let sample := Draw_text sample (x + x_offset, 64 + y_offset)%Q text font fill lm ja in
  let region_score :=
    generate_region_score 128 128
      (64 + x_offset - character_width / 2, 64 + y_offset - character_width / 2)%Q
      (64 + x_offset + character_width / 2, 64 + y_offset + character_width / 2)%Q in
  fill <- random_color ;;
  let region_score :=
    generate_only_char (64 + x_offset, 64 + y_offset)%Q character font fill mm ja in
  return_sample sample label region_score.

Definition generate_stage_7 : M Sample :=
  label <- randrange 0 (len (characters self)) ;;
  character <- getitem (characters self) label ;;
  font_info <- choice (fonts_supporting_glyph character) ;;
  font_size <- random_font_size ;;
  let font_size := Z.max 8 font_size in
  let font := FontInfo_get font_info font_size in
  before_count <- randint 0 10 ;;
  after_count <- randint 0 10 ;;
  let total_count := before_count + after_count + 1 in
  before <- repeat_m (Z.to_nat before_count) (choice (supported_glyphs font_info)) ;;
  after <- repeat_m (Z.to_nat after_count) (choice (supported_glyphs font_info)) ;;
  let text := join before ++ character ++ join after in
  for_each (chars_of text)
           (fun extra_character _ => check_extra_character font font_info extra_character)
           tt ;;;
  let '(_, _, bb_right, bb_bottom) := getbbox font text lt ja in
  let character_width := (inject_Z bb_right / inject_Z total_count)%Q in
  let character_height := inject_Z bb_bottom in
  let x := (64 - character_width / 2 - character_width * inject_Z before_count)%Q in
  rx <- random ;;
  let x_offset := inject_Z (random_offset character_width rx) in
  ry <- random ;;
  let y_offset := inject_Z (random_offset character_height ry) in
  sample <- generate_background 128 128 ;;
  r_outline <- random ;;
  sample <- (if Qgtb r_outline (9 # 10) then
               fill <- random_color ;;
               draw_outlined_text sample (x + x_offset, 64 + y_offset)%Q text font fill lm ja
             else
               fill <- random_color ;;
               ret (Draw_text sample (x + x_offset, 64 + y_offset)%Q text font fill lm ja)) ;;
  r_eat <- random ;;
  sample <- (if Qgtb r_eat (9 # 10) then
               eat_sides sample
                 (64 + x_offset - character_width / 2)%Q
                 (64 + x_offset + character_width / 2)%Q
                 (64 + y_offset - character_height / 2)%Q
                 (64 + y_offset + character_height / 2)%Q
             else ret sample) ;;
  let region_score :=
    generate_region_score 128 128
      (64 + x_offset - character_width / 2, 64 + y_offset - character_width / 2)%Q
      (64 + x_offset + character_width / 2, 64 + y_offset + character_width / 2)%Q in
  fill <- random_color ;;
  let region_score :=
    generate_only_char (64 + x_offset, 64 + y_offset)%Q character font fill mm ja in
  return_sample sample label region_score.

Inductive Effect := outline | underline | none.

(** The body of stage 8's loop over the floating characters: [y] and
    [bottom] are the main line's vertical position and height, [font] the
    main line's font. *)
Definition place_floating_character (font : Font) (y bottom : Z)
    (floating_character : PyStr) (drawing : Image) : M Image :=
  font_info <- choice (fonts_supporting_glyph floating_character) ;;
  font_size <- random_font_size ;;
  let font_size := Z.max 8 font_size in
  let floating_font := FontInfo_get font_info font_size in
  let '(_, _, f_right, f_bottom) := getbbox floating_font floating_character lt ja in
  let floating_y : list Z := [] in
  floating_y <-
    (if Qgtb (inject_Z y - half bottom - inject_Z f_bottom) (inject_Z (- f_bottom)) then
       v <- randint (- f_bottom) (y - bottom / 2 - f_bottom) ;; ret (floating_y ++ [v])
     else ret floating_y) ;;
  floating_y <-
    (if Qgtb 128 (inject_Z y + half bottom) then
       v <- randint (y + bottom / 2) 128 ;; ret (floating_y ++ [v])
     else ret floating_y) ;;
  match floating_y with
  | [] => ret drawing
  | _ =>
      fx <- randint (- f_right) 128 ;;
      let floating_x := [fx] in
      r <- random ;;
      if Qgtb r (9 # 10) then
        px <- choice floating_x ;;
        py <- choice floating_y ;;
        fill <- random_color ;;
        draw_outlined_text drawing (inject_Z px, inject_Z py) floating_character
                           floating_font fill lt ja
      else
        px <- choice floating_x ;;
        py <- choice floating_y ;;
        fill <- random_color ;;
        ret (Draw_text drawing (inject_Z px, inject_Z py) floating_character
                       font fill lt ja)
  end.

Definition generate_stage_8 : M Sample :=
  character_index <- randrange 0 (len (characters self)) ;;
  character <- getitem (characters self) character_index ;;
  font_info <- choice (fonts_supporting_glyph character) ;;
  font_size <- random_font_size ;;
  let font_size := Z.max 8 font_size in
  let font := FontInfo_get font_info font_size in
  before_count <- randint 0 10 ;;
  after_count <- randint 0 10 ;;
  let total_count := before_count + after_count + 1 in
  before <- repeat_m (Z.to_nat before_count) (choice (supported_glyphs font_info)) ;;
  after <- repeat_m (Z.to_nat after_count) (choice (supported_glyphs font_info)) ;;
  let text := join before ++ character ++ join after in
  z <- np_normal 0 10 ;;
  let floating_count := py_int (Qabs z) in
  floating_characters <-
    repeat_m (Z.to_nat floating_count) (choice (supported_glyphs font_info)) ;;
  for_each (chars_of text ++ floating_characters)
           (fun extra_character _ => check_extra_character font font_info extra_character)
           tt ;;;
  let '(_, _, bb_right, bb_bottom) := getbbox font text lt ja in
  let character_width := (inject_Z bb_right / inject_Z total_count)%Q in
  let character_height := inject_Z bb_bottom in
  let x := (64 - character_width / 2 - character_width * inject_Z before_count)%Q in
  rx <- random ;;
  let x_offset := random_offset character_width rx in
  ry <- random ;;
  let y_offset := random_offset character_height ry in
  let x := (x + inject_Z x_offset)%Q in
  let y := 64 + y_offset in
  sample <- generate_background 128 128 ;;
  effect <- choices [outline; underline; none] (Some [1; 1; 10]%Q) ;;
  sample <- match effect with
            | outline =>
                fill <- random_color ;;
                draw_outlined_text sample (x, inject_Z y) text font fill lm ja
            | underline =>
                fill <- random_color ;;
                draw_underlined_text sample (x, inject_Z y) text font fill lm ja
            | none =>
                fill <- random_color ;;
                ret (Draw_text sample (x, inject_Z y) text font fill lm ja)
            end ;;
  sample <- for_each floating_characters (place_floating_character font y bb_bottom)
                     sample ;;
  let x_offset := inject_Z x_offset in
  let y_offset := inject_Z y_offset in
  r_eat <- random ;;
  sample <- (if Qgtb r_eat (9 # 10) then
               eat_sides sample
                 (64 + x_offset - character_width / 2)%Q
                 (64 + x_offset + character_width / 2)%Q
                 (64 + y_offset - character_height / 2)%Q
                 (64 + y_offset + character_height / 2)%Q
             else ret sample) ;;
  let region_score :=
    generate_region_score 128 128
      (64 + x_offset - character_width / 2, 64 + y_offset - character_width / 2)%Q
      (64 + x_offset + character_width / 2, 64 + y_offset + character_width / 2)%Q in
  fill <- random_color ;;
  let region_score :=
    generate_only_char (64 + x_offset, 64 + y_offset)%Q character font fill mm ja in
  return_sample sample character_index region_score.

(** [generate]: [None] is what Python returns when no [return] statement
    is reached. *)
Definition generate : M (option Sample) :=
  r <- random ;;
  let stage := select_stage (stage self) r in
  if stage =? 0 then sample <- generate_stage_0 ;; ret (Some sample)
  else if stage =? 1 then sample <- generate_stage_1 ;; ret (Some sample)
  else if stage =? 2 then sample <- generate_stage_2 ;; ret (Some sample)
  else if stage =? 3 then sample <- generate_stage_3 ;; ret (Some sample)
  else if stage =? 4 then sample <- generate_stage_4 ;; ret (Some sample)
  else if stage =? 5 then sample <- generate_stage_5 ;; ret (Some sample)
  else if stage =? 6 then sample <- generate_stage_6 ;; ret (Some sample)
  else if stage =? 7 then sample <- generate_stage_7 ;; ret (Some sample)
  else if stage =? 8 then sample <- generate_stage_8 ;; ret (Some sample)
  else ret None.

(** The first [n] items the generator [__iter__] yields. *)
Definition __iter__ (n : nat) : M (list (option Sample)) := repeat_m n generate.

Definition __getitem__ (index : Z) : M (option Sample) := generate.

(** The nine stage generators, by stage number. *)
Definition stage_generators : list (M Sample) :=
  [generate_stage_0; generate_stage_1; generate_stage_2; generate_stage_3;
   generate_stage_4; generate_stage_5; generate_stage_6; generate_stage_7;
   generate_stage_8].

(** What a stage generator returns for a canvas: the canvas itself, or
    the transform's output. *)
Definition present (im : Image) : Image + Tensor :=
  match transform self with
  | None => inl im
  | Some t => inr (t im)
  end.

(** The shape every returned sample has: the label indexes the character
    set, the font of the labelled character's text comes from a font file
    that supports it, and the region score is [generate_only_char] on that
    character with that font. *)
Definition labelled (s : Sample) : Prop :=
  exists label character font_info font_size canvas xy fill before after,
    s = (present canvas, label,
         present (generate_only_char xy character (FontInfo_get font_info font_size)
                                     fill mm ja)) /\
    0 <= label < len (characters self) /\
    nth_error (characters self) (Z.to_nat label) = Some character /\
    In font_info (font_infos self) /\
    In character (supported_glyphs font_info) /\
    In (before ++ character ++ after, FontInfo_get font_info font_size)
       (drawn_texts canvas).

(** The test of the loops: the measured right or bottom edge is 0. *)
Definition zero_extent (font : Font) (character : PyStr) : bool :=
  let '(_, _, bb_right, bb_bottom) := getbbox font character lt ja in
  (bb_right =? 0) || (bb_bottom =? 0).

(** The diagnostic of stages 7 and 8. *)
Definition missing_message (character : PyStr) (font_info : FontInfo) : PyStr :=
  character ++ str " is missing from " ++ basename (path font_info).

Definition printed (message : PyStr) (w : World) : World :=
  {| py_random := py_random w; np_random := np_random w;
     stdout := stdout w ++ [message] |}.

End RecognizerTrainingDataset.

(** ** Scenarios *)

(** A world whose generators replay the listed raw draws, then zeros. *)
Definition world_of (py np : list Q) : World :=
  {| py_random := {| draws := fun n => nth n py 0%Q; position := 0 |};
     np_random := {| draws := fun n => nth n np 0%Q; position := 0 |};
     stdout := [] |}.

(** A rasteriser that leaves no ink, for canvases built without text. *)
Definition blank_rasterizer : Rasterizer :=
  {| text_pixel := fun _ _ _ _ _ _ _ _ old => old;
     line_pixel := fun _ _ _ _ _ _ old => old;
     blend_pixel := fun c1 _ _ => c1;
     resize_pixel := fun source _ _ x y => source x y |}.

(** Scenario A of the specification: the characters "A" and "B" and one
    font supporting both at all sizes. *)
Definition scenario_font : FontInfo :=
  {| path := str "data/fonts/scenario.ttf";
     supported_glyphs := [str "A"; str "B"];
     metrics := fun font_size text _ _ => (0, 0, font_size * len text, font_size) |}.

Definition scenario_dataset : @Dataset unit :=
  {| font_infos := [scenario_font];
     transform := None;
     characters := [str "A"; str "B"];
     background_images := [];
     stage := 0 |}.

(** [dataset.stage = value], as the training driver sets it. *)
Definition set_stage {Tensor} (value : Q) (self : @Dataset Tensor) : Dataset :=
  {| font_infos := font_infos self;
     transform := transform self;
     characters := characters self;
     background_images := background_images self;
     stage := value |}.

(** A font file listing a glyph "C" that it renders with no extent. *)
Definition hollow_font : FontInfo :=
  {| path := str "data/fonts/hollow.ttf";
     supported_glyphs := [str "C"];
     metrics := fun _ _ _ _ => (0, 0, 0, 0) |}.

Definition hollow_dataset : @Dataset unit :=
  {| font_infos := [hollow_font];
     transform := None;
     characters := [str "C"];
     background_images := [];
     stage := 6 |}.

(** A backgrounds folder holding a single image of one pixel. *)
Definition dot_image : Image :=
  Image_open (str "dot.png") RGB 1 1 (fun _ _ => [0; 0; 0]).

Definition dot_file : DirEntry :=
  {| entry_name := str "dot.png"; entry_isfile := true; entry_image := Some dot_image |}.

Definition is_Ok {A} (r : Result A * World) : bool :=
  match fst r with
  | Ok _ => true
  | Raise _ => false
  end.

Definition scenario_canvas : Image :=
  Draw_text (Image_new RGB 128 128 WHITE_COLOR) (64, 64)%Q (str "A")
            (FontInfo_get scenario_font 32) BLACK_COLOR mm ja.

Definition scenario_region_score : Image :=
  generate_only_char (64, 64)%Q (str "A") (FontInfo_get scenario_font 32)
                     BLACK_COLOR mm ja.

(** ** Further notions *)

(** The [i]-th raw draw [numpy.random] will hand out, and the world after
    one draw from it. *)
Definition np_draw (w : World) (i : nat) : Q :=
  draws (np_random w) (i + position (np_random w))%nat.

Definition after_np (w : World) : World :=
  {| py_random := py_random w;
     np_random := snd (next_draw (np_random w));
     stdout := stdout w |}.

(** [a < b] on floats. *)
Definition Qltb (a b : Q) : bool := negb (Qle_bool b a).

(** What a single-glyph stage draws: the label and its character, the
    font file and pixel size, the colours and the position of the glyph. *)
Record GlyphDraw := {
  gd_label : Z;
  gd_character : PyStr;
  gd_font_info : FontInfo;
  gd_font_size : Z;
  gd_background : Color;
  gd_fill : Color;
  gd_xy : Q * Q
}.

Definition gd_font (d : GlyphDraw) : Font :=
  FontInfo_get (gd_font_info d) (gd_font_size d).

(** The sample of a single glyph on a plain canvas, with the region score
    of that glyph. *)
Definition glyph_sample {Tensor} (self : @Dataset Tensor) (d : GlyphDraw) : Sample :=
  (present self
     (Draw_text (Image_new RGB 128 128 (gd_background d)) (gd_xy d) (gd_character d)
                (gd_font d) (gd_fill d) mm ja),
   gd_label d,
   present self
     (Draw_text (Image_new L 128 128 [0]) (gd_xy d) (gd_character d)
                (gd_font d) [255] mm ja)).

(** The label indexes the drawn character, and the font file supports it. *)
Definition drawn_from {Tensor} (self : @Dataset Tensor) (d : GlyphDraw) : Prop :=
  0 <= gd_label d /\
  nth_error (characters self) (Z.to_nat (gd_label d)) = Some (gd_character d) /\
  In (gd_font_info d) (fonts_supporting_glyph self (gd_character d)).

(** What a sentence stage draws: the label and its character, the font,
    the context glyphs before and after it, the finished canvas and the
    position of the region score's glyph. *)
Record SentenceDraw := {
  sd_label : Z;
  sd_character : PyStr;
  sd_font_info : FontInfo;
  sd_font_size : Z;
  sd_before : list PyStr;
  sd_after : list PyStr;
  sd_canvas : Image;
  sd_xy : Q * Q
}.

Definition sd_font (d : SentenceDraw) : Font :=
  FontInfo_get (sd_font_info d) (sd_font_size d).

Definition sd_text (d : SentenceDraw) : PyStr :=
  join (sd_before d) ++ sd_character d ++ join (sd_after d).

Definition sentence_sample {Tensor} (self : @Dataset Tensor) (d : SentenceDraw) : Sample :=
  (present self (sd_canvas d),
   sd_label d,
   present self
     (Draw_text (Image_new L 128 128 [0]) (sd_xy d) (sd_character d) (sd_font d)
                [255] mm ja)).

Definition composed_from {Tensor} (self : @Dataset Tensor) (d : SentenceDraw) : Prop :=
  0 <= sd_label d /\
  nth_error (characters self) (Z.to_nat (sd_label d)) = Some (sd_character d) /\
  In (sd_font_info d) (fonts_supporting_glyph self (sd_character d)) /\
  8 <= sd_font_size d /\
  (length (sd_before d) <= 10)%nat /\
  (length (sd_after d) <= 10)%nat /\
  Forall (fun glyph => In glyph (supported_glyphs (sd_font_info d)))
         (sd_before d ++ sd_after d) /\
  existsb (zero_extent (sd_font d)) (chars_of (sd_text d)) = false /\
  In (sd_text d, sd_font d) (drawn_texts (sd_canvas d)).

(** A computation that prints nothing and does not exit, however it
    ends. *)
Definition quiet {A} (m : M A) : Prop :=
  forall w r w', m w = (r, w') ->
    stdout w' = stdout w /\ forall code, r <> Raise (SystemExit code).

(** A computation that either is quiet or prints one message satisfying
    [D] and exits with status -1. *)
Definition diagnosed {A} (D : PyStr -> Prop) (m : M A) : Prop :=
  forall w r w', m w = (r, w') ->
    (stdout w' = stdout w /\ forall code, r <> Raise (SystemExit code)) \/
    (r = Raise (SystemExit (-1)) /\
     exists message, D message /\ stdout w' = stdout w ++ [message]).

(** The diagnostics of stages 7 and 8 on a dataset: the message names a
    character that a font of the catalog measures without extent at some
    size, and that font's file. *)
Definition missing_glyph_diagnostic {Tensor} (self : @Dataset Tensor)
    (message : PyStr) : Prop :=
  exists character font_info font_size,
    In font_info (font_infos self) /\
    zero_extent (FontInfo_get font_info font_size) character = true /\
    message = character ++ str " is missing from " ++ basename (path font_info).

(** ** The training scripts: normalisation

    Tensors are read value by value.  [Normalize(mean, std)] of torchvision
    maps a value [x] to [(x - mean) / std]. *)
Definition Normalize (mean std : Q) (tensor : list Q) : list Q :=
  map (fun x => (x - mean) / std)%Q tensor.

(** [img / 2 + 0.5], the first statement of [imshow] in [training.py]. *)
Definition imshow_unnormalize (img : list Q) : list Q :=
  map (fun x => x / 2 + (1 # 2))%Q img.

(** [denormalize] of [code/recognizer/training.py]: [img / 0.5 + 0.5]. *)
Definition denormalize (img : list Q) : list Q :=
  map (fun x => x / (1 # 2) + (1 # 2))%Q img.

(** [denormalize] of [code/boxer_2/training.py]: [img / 0.28 + 0.63]. *)
Definition denormalize_boxer (img : list Q) : list Q :=
  map (fun x => x / (28 # 100) + (63 # 100))%Q img.

(** A sample that a run returned (a blank one if the run raised). *)
Definition returned_sample (run : Result (@Sample unit) * World) : @Sample unit :=
  match fst run with
  | Ok sample => sample
  | Raise _ => (inl (Image_new L 0 0 []), 0, inl (Image_new L 0 0 []))
  end.

(** An image that a run returned (an empty one if the run raised). *)
Definition returned_image (run : Result Image * World) : Image :=
  match fst run with
  | Ok im => im
  | Raise _ => Image_new L 0 0 []
  end.

(** Scenario A with one background image of 2 x 2 pixels. *)
Definition tile_image : Image :=
  Image_open (str "tile.png") RGB 2 2 (fun _ _ => [0; 0; 0]).

Definition tiled_dataset : @Dataset unit :=
  {| font_infos := [scenario_font];
     transform := None;
     characters := [str "A"; str "B"];
     background_images := [tile_image];
     stage := 7 |}.

(** A file of the backgrounds folder that is not an image. *)
Definition broken_file : DirEntry :=
  {| entry_name := str "notes.txt"; entry_isfile := true; entry_image := None |}.

(** The runs of the stages on scenario A, every raw draw being 0. *)
Definition stage_run (k : nat) : Result (@Sample unit) * World :=
  match nth_error (stage_generators scenario_dataset) k with
  | Some g => g (world_of [] [])
  | None => (Raise IndexError, world_of [] [])
  end.

(** A run of stage 8 on scenario A whose background is a plain colour: the
    eighth raw draw selects the third background mode. *)
Definition sentence_run : Result (@Sample unit) * World :=
  generate_stage_8 scenario_dataset (world_of [0; 0; 0; 0; 0; 0; 0; 5 # 6]%Q []).


(** * Properties *)

(** ** Numbers *)

Lemma Qgtb_true (a b : Q) : Qgtb a b = true <-> (b < a)%Q.
Proof.
  unfold Qgtb. rewrite negb_true_iff. split; intro H.
  - apply Qnot_le_lt. intro Hle. apply Qle_bool_iff in Hle. congruence.
  - destruct (Qle_bool a b) eqn:E; [|reflexivity].
    apply Qle_bool_iff in E. lra.
Qed.

Lemma Qgtb_false (a b : Q) : Qgtb a b = false <-> (a <= b)%Q.
Proof.
  unfold Qgtb. rewrite negb_false_iff. apply Qle_bool_iff.
Qed.

Lemma inject_Z_lt (a b : Z) : (inject_Z a < inject_Z b)%Q <-> a < b.
Proof. rewrite <- Zlt_Qlt. tauto. Qed.

Lemma inject_Z_le (a b : Z) : (inject_Z a <= inject_Z b)%Q <-> a <= b.
Proof. rewrite <- Zle_Qle. tauto. Qed.

Lemma Qfloor_bounds (x : Q) : (inject_Z (Qfloor x) <= x < inject_Z (Qfloor x) + 1)%Q.
Proof.
  split; [apply Qfloor_le|].
  pose proof (Qlt_floor x) as H. rewrite inject_Z_plus in H. exact H.
Qed.

Lemma Qfloor_unique (x : Q) (n : Z) :
  (inject_Z n <= x < inject_Z n + 1)%Q -> Qfloor x = n.
Proof.
  intros [Hlo Hhi]. pose proof (Qfloor_bounds x) as [Flo Fhi].
  assert (Qfloor x < n + 1).
  { apply inject_Z_lt. rewrite inject_Z_plus. change (inject_Z 1) with 1%Q. lra. }
  assert (n < Qfloor x + 1).
  { apply inject_Z_lt. rewrite inject_Z_plus. change (inject_Z 1) with 1%Q. lra. }
  lia.
Qed.

Lemma frac_bounds (q : Q) : (0 <= frac q < 1)%Q.
Proof. unfold frac. pose proof (Qfloor_bounds q). lra. Qed.

Lemma Qfloor_scaled (r : Q) (n : Z) :
  (0 <= r < 1)%Q -> 0 < n -> 0 <= Qfloor (r * inject_Z n) < n.
Proof.
  intros [Hr0 Hr1] Hn.
  assert (Hn' : (0 < inject_Z n)%Q) by (apply (inject_Z_lt 0 n); exact Hn).
  pose proof (Qfloor_bounds (r * inject_Z n)) as [Flo Fhi].
  assert (H0 : (0 <= r * inject_Z n)%Q) by (apply Qmult_le_0_compat; lra).
  assert (H1 : (r * inject_Z n < inject_Z n)%Q).
  { setoid_replace (inject_Z n) with (1 * inject_Z n)%Q at 2 by ring.
    apply Qmult_lt_compat_r; assumption. }
  split.
  - assert (-1 < Qfloor (r * inject_Z n)); [|lia].
    apply inject_Z_lt. change (inject_Z (-1)) with (-1)%Q. lra.
  - apply inject_Z_lt. lra.
Qed.

Lemma py_round_cases (x : Q) :
  (py_round x = Qfloor x /\ (x - inject_Z (Qfloor x) <= 1 # 2)%Q) \/
  (py_round x = Qfloor x + 1 /\ (1 # 2 <= x - inject_Z (Qfloor x))%Q).
Proof.
  unfold py_round.
  destruct (x - inject_Z (Qfloor x) ?= 1 # 2)%Q eqn:E.
  - apply Qeq_alt in E.
    destruct (Z.even (Qfloor x)); [left | right]; (split; [reflexivity | lra]).
  - apply Qlt_alt in E. left. split; [reflexivity | lra].
  - apply Qgt_alt in E. right. split; [reflexivity | lra].
Qed.

Lemma py_round_nonneg (x : Q) : (0 <= x)%Q -> 0 <= py_round x.
Proof.
  intro H. assert (0 <= Qfloor x).
  { change 0 with (Qfloor 0). apply Qfloor_resp_le. exact H. }
  destruct (py_round_cases x) as [[-> _] | [-> _]]; lia.
Qed.

Lemma py_round_le (x : Q) (n : Z) : (x <= inject_Z n)%Q -> py_round x <= n.
Proof.
  intro H. pose proof (Qfloor_bounds x) as [Flo Fhi].
  assert (Hf : Qfloor x <= n) by (apply inject_Z_le; lra).
  destruct (py_round_cases x) as [[-> _] | [-> Hhalf]]; [exact Hf|].
  assert (Qfloor x < n); [|lia].
  apply inject_Z_lt. lra.
Qed.

Lemma py_round_mono (x y : Q) : (x <= y)%Q -> py_round x <= py_round y.
Proof.
  intro H. pose proof (Qfloor_resp_le x y H) as Hf.
  pose proof (Qfloor_bounds x) as [Xlo Xhi].
  pose proof (Qfloor_bounds y) as [Ylo Yhi].
  destruct (Z.eq_dec (Qfloor x) (Qfloor y)) as [E | NE].
  - unfold py_round. rewrite <- E.
    destruct (x - inject_Z (Qfloor x) ?= 1 # 2)%Q eqn:Ex;
      destruct (y - inject_Z (Qfloor x) ?= 1 # 2)%Q eqn:Ey;
      try (destruct (Z.even (Qfloor x))); try lia;
      repeat match goal with
             | H : (_ ?= _)%Q = Eq |- _ => apply Qeq_alt in H
             | H : (_ ?= _)%Q = Lt |- _ => apply Qlt_alt in H
             | H : (_ ?= _)%Q = Gt |- _ => apply Qgt_alt in H
             end; lra.
  - destruct (py_round_cases x) as [[-> _] | [-> _]];
      destruct (py_round_cases y) as [[-> _] | [-> _]]; lia.
Qed.

Lemma py_round_inject_Z (n : Z) : py_round (inject_Z n) = n.
Proof.
  unfold py_round. rewrite Qfloor_Z.
  assert (E : (inject_Z n - inject_Z n ?= 1 # 2)%Q = Lt).
  { rewrite <- Qlt_alt. lra. }
  rewrite E. reflexivity.
Qed.

(** ** Doubles *)

Lemma two_power_pos (l : Z) : (0 < 2 ^ l)%Q.
Proof. apply Qpower_0_lt. reflexivity. Qed.

Lemma two_power_succ (l : Z) : (2 ^ (l + 1) == 2 * 2 ^ l)%Q.
Proof. rewrite Qpower_plus by discriminate. change (2 ^ 1)%Q with 2%Q. ring. Qed.

Lemma two_power_pred (l : Z) : (2 * 2 ^ (l - 1) == 2 ^ l)%Q.
Proof.
  rewrite <- two_power_succ. replace (l - 1 + 1) with l by lia. reflexivity.
Qed.

Lemma ilog2_spec (x : Q) :
  (0 < x)%Q -> (2 ^ ilog2 x <= x < 2 ^ (ilog2 x + 1))%Q.
Proof.
  intro Hx. unfold ilog2.
  destruct x as [n d]. simpl Qnum. simpl Qden.
  assert (Hn : 0 < n) by (unfold Qlt in Hx; simpl in Hx; lia).
  set (a := Z.log2 n). set (b := Z.log2 (Z.pos d)).
  destruct (Z.log2_spec n Hn) as [Na Nb]. fold a in Na, Nb.
  destruct (Z.log2_spec (Z.pos d) eq_refl) as [Da Db]. fold b in Da, Db.
  assert (Ha : 0 <= a) by apply Z.log2_nonneg.
  assert (Hb : 0 <= b) by apply Z.log2_nonneg.
  rewrite Z.pow_succ_r in Nb, Db by assumption.
  apply inject_Z_le in Na, Da. apply inject_Z_lt in Nb, Db.
  rewrite inject_Z_mult in Nb, Db.
  rewrite Zpower_Qpower in Na, Nb, Da, Db by assumption.
  change (inject_Z 2) with 2%Q in *.
  assert (E : (2 ^ (a - b) * 2 ^ b == 2 ^ a)%Q).
  { rewrite <- Qpower_plus by discriminate. replace (a - b + b) with a by lia.
    reflexivity. }
  pose proof (two_power_pos (a - b)) as Pp.
  pose proof (two_power_pos b) as Pb.
  pose proof (two_power_pos a) as Pa.
  assert (Ex : ((n # d) * inject_Z (Z.pos d) == inject_Z n)%Q).
  { rewrite (Qmake_Qdiv n d). field. discriminate. }
  set (X := (n # d)%Q) in *. set (N := inject_Z n) in *.
  set (D := inject_Z (Z.pos d)) in *.
  set (P := (2 ^ (a - b))%Q) in *. set (A := (2 ^ a)%Q) in *. set (B := (2 ^ b)%Q) in *.
  assert (Hhi : (X < 2 * P)%Q).
  { apply Qnot_le_lt. intro C.
    assert ((2 * P) * D <= X * D)%Q by (apply Qmult_le_compat_r; lra).
    assert ((2 * P) * B <= (2 * P) * D)%Q by (apply Qmult_le_l; lra).
    lra. }
  assert (Hlo : (P < 2 * X)%Q).
  { apply Qnot_le_lt. intro C.
    assert ((2 * X) * D <= P * D)%Q by (apply Qmult_le_compat_r; lra).
    assert (P * D < P * (2 * B))%Q by (apply Qmult_lt_l; lra).
    lra. }
  destruct (Qle_bool P X) eqn:Ele.
  - apply Qle_bool_iff in Ele. split; [exact Ele|].
    unfold P. rewrite two_power_succ. exact Hhi.
  - assert (Hlt : (X < P)%Q).
    { apply Qnot_le_lt. intro C. apply Qle_bool_iff in C. congruence. }
    replace (a - b - 1 + 1) with (a - b) by lia. split; [|exact Hlt].
    pose proof (two_power_pred (a - b)) as Epred. fold P in Epred. lra.
Qed.

Lemma ilog2_mono (x y : Q) : (0 < x)%Q -> (x <= y)%Q -> ilog2 x <= ilog2 y.
Proof.
  intros Hx Hxy.
  destruct (ilog2_spec x Hx) as [Xlo _].
  destruct (ilog2_spec y) as [_ Yhi]; [lra|].
  assert (H : (2 ^ ilog2 x < 2 ^ (ilog2 y + 1))%Q) by lra.
  apply Qpower_lt_compat_l_inv in H; [lia | reflexivity].
Qed.

Lemma double_pos (x : Q) :
  (0 < x)%Q ->
  double x = (inject_Z (py_round (x / 2 ^ (ilog2 x - 52))) * 2 ^ (ilog2 x - 52))%Q.
Proof.
  intro Hx. unfold double.
  destruct (Qeq_bool x 0) eqn:E.
  - apply Qeq_bool_iff in E. lra.
  - assert (Ea : Qabs x = x).
    { destruct x as [n d]. unfold Qlt in Hx. simpl in Hx.
      unfold Qabs. f_equal. apply Z.abs_eq. lia. }
    rewrite Ea. reflexivity.
Qed.

Lemma double_0 (x : Q) : (x == 0)%Q -> double x = 0%Q.
Proof.
  intro H. unfold double. apply Qeq_bool_iff in H. rewrite H. reflexivity.
Qed.

(** A positive real in the binade of [2 ^ l] rounds into the closed binade. *)
Lemma double_binade (x : Q) :
  (0 < x)%Q -> (2 ^ ilog2 x <= double x <= 2 ^ (ilog2 x + 1))%Q.
Proof.
  intro Hx. rewrite (double_pos x Hx).
  destruct (ilog2_spec x Hx) as [Lo Hi].
  set (l := ilog2 x) in *. set (u := (2 ^ (l - 52))%Q).
  pose proof (two_power_pos (l - 52)) as Hu. fold u in Hu.
  assert (El : (2 ^ l == inject_Z (2 ^ 52) * u)%Q).
  { unfold u. rewrite Zpower_Qpower by lia. change (inject_Z 2) with 2%Q.
    rewrite <- Qpower_plus by discriminate. replace (52 + (l - 52)) with l by lia.
    reflexivity. }
  assert (El1 : (2 ^ (l + 1) == inject_Z (2 ^ 53) * u)%Q).
  { unfold u. rewrite Zpower_Qpower by lia. change (inject_Z 2) with 2%Q.
    rewrite <- Qpower_plus by discriminate. replace (53 + (l - 52)) with (l + 1) by lia.
    reflexivity. }
  rewrite El, El1. split; apply Qmult_le_compat_r; try lra; apply inject_Z_le.
  - rewrite <- (py_round_inject_Z (2 ^ 52)). apply py_round_mono.
    apply Qle_shift_div_l; [exact Hu|]. rewrite <- El. exact Lo.
  - apply py_round_le. apply Qle_shift_div_r; [exact Hu|]. rewrite <- El1. lra.
Qed.

(** Rounding to a double is monotone. *)
Lemma double_mono (x y : Q) : (0 <= x)%Q -> (x <= y)%Q -> (double x <= double y)%Q.
Proof.
  intros Hx Hxy.
  destruct (Qlt_le_dec 0 x) as [Px | Zx].
  2:{ rewrite (double_0 x) by lra.
      destruct (Qlt_le_dec 0 y) as [Py | Zy].
      - pose proof (double_binade y Py) as [B _].
        pose proof (two_power_pos (ilog2 y)). lra.
      - rewrite (double_0 y) by lra. lra. }
  assert (Py : (0 < y)%Q) by lra.
  pose proof (ilog2_mono x y Px Hxy) as Hl.
  destruct (Z.eq_dec (ilog2 x) (ilog2 y)) as [E | NE].
  - rewrite (double_pos x Px), (double_pos y Py), E.
    pose proof (two_power_pos (ilog2 y - 52)) as Hu.
    apply Qmult_le_compat_r; [|lra]. apply inject_Z_le. apply py_round_mono.
    apply Qmult_le_compat_r; [exact Hxy|]. apply Qlt_le_weak. apply Qinv_lt_0_compat.
    exact Hu.
  - pose proof (double_binade x Px) as [_ Bx].
    pose proof (double_binade y Py) as [By _].
    assert (H : (2 ^ (ilog2 x + 1) <= 2 ^ ilog2 y)%Q).
    { apply Qpower_le_compat_l; [lia | discriminate]. }
    lra.
Qed.

Lemma double_between (lo hi x : Q) :
  (0 <= lo)%Q -> (lo <= x)%Q -> (x <= hi)%Q -> (double lo <= double x <= double hi)%Q.
Proof.
  intros H0 H1 H2. split; apply double_mono; lra.
Qed.

Lemma draw_scaled_le (k k' : Z) (n : Q) :
  (0 <= n)%Q -> k <= k' ->
  ((k # 9007199254740992) * n <= (k' # 9007199254740992) * n)%Q.
Proof.
  intros Hn Hk. apply Qmult_le_compat_r; [|exact Hn].
  unfold Qle. simpl. lia.
Qed.

Lemma draw_scaled_nonneg (k : Z) (n : Q) :
  (0 <= n)%Q -> 0 <= k -> (0 <= (k # 9007199254740992) * n)%Q.
Proof.
  intros Hn Hk. apply Qmult_le_0_compat; [|exact Hn]. unfold Qle. simpl. lia.
Qed.

Lemma uniform_double (q : Q) :
  exists k, 0 <= k < 9007199254740992 /\ uniform q = (k # 9007199254740992)%Q.
Proof.
  exists (Qfloor (frac q * 9007199254740992)). split; [|reflexivity].
  apply (Qfloor_scaled (frac q) 9007199254740992); [apply frac_bounds | reflexivity].
Qed.

Lemma uniform_of_draw (k : Z) :
  0 <= k < 9007199254740992 ->
  uniform (k # 9007199254740992) = (k # 9007199254740992)%Q.
Proof.
  intro Hk. unfold uniform. f_equal.
  assert (E0 : Qfloor (k # 9007199254740992) = 0).
  { apply Qfloor_unique. unfold Qle, Qlt. simpl. lia. }
  apply Qfloor_unique. unfold frac. rewrite E0.
  unfold Qle, Qlt. simpl. lia.
Qed.

Lemma draw_bounds (k : Z) :
  0 <= k < 9007199254740992 -> (0 <= k # 9007199254740992 < 1)%Q.
Proof. intro H. unfold Qle, Qlt. simpl. lia. Qed.

(** ** Running the monad *)

Lemma bind_Ok {A B} (m : M A) (f : A -> M B) (w w' : World) (b : B) :
  bind m f w = (Ok b, w') ->
  exists a w1, m w = (Ok a, w1) /\ f a w1 = (Ok b, w').
Proof.
  unfold bind. destruct (m w) as [[a | e] w1]; intro H; [|discriminate].
  exists a, w1. split; [reflexivity | exact H].
Qed.

Lemma bind_run {A B} (m : M A) (f : A -> M B) (w w1 : World) (a : A) :
  m w = (Ok a, w1) -> bind m f w = f a w1.
Proof. unfold bind. intros ->. reflexivity. Qed.

Lemma bind_raise {A B} (m : M A) (f : A -> M B) (w w1 : World) (e : Exn) :
  m w = (Raise e, w1) -> bind m f w = (Raise e, w1).
Proof. unfold bind. intros ->. reflexivity. Qed.

Lemma run_Ok_inj {A} (a b : A) (w w' : World) :
  (Ok a, w) = (Ok b, w') -> a = b /\ w = w'.
Proof. intro H. split; congruence. Qed.

Ltac bind_inv H :=
  let a := fresh "v" in
  let w := fresh "w" in
  let E := fresh "E" in
  apply bind_Ok in H; destruct H as (a & w & E & H); cbv beta in H.

Lemma random_run (w : World) : random w = (Ok (uniform_draw w), after_random w).
Proof. reflexivity. Qed.

Lemma uniform_draw_double (w : World) :
  exists k, 0 <= k < 9007199254740992 /\ uniform_draw w = (k # 9007199254740992)%Q.
Proof. apply uniform_double. Qed.

Lemma uniform_draw_bounds (w : World) : (0 <= uniform_draw w < 1)%Q.
Proof.
  destruct (uniform_draw_double w) as (k & Hk & ->). apply draw_bounds. exact Hk.
Qed.

Lemma randrange_run (start stop : Z) (w : World) :
  start < stop ->
  randrange start stop w =
    (Ok (start + Qfloor (uniform_draw w * inject_Z (stop - start))), after_random w).
Proof.
  intro H. unfold randrange.
  destruct (0 <? stop - start) eqn:E; [reflexivity|].
  apply Z.ltb_ge in E. lia.
Qed.

Lemma randrange_Ok (start stop v : Z) (w w' : World) :
  randrange start stop w = (Ok v, w') ->
  start <= v < stop /\ w' = after_random w.
Proof.
  intro H. destruct (Z.lt_ge_cases start stop) as [Hlt | Hge].
  - rewrite (randrange_run _ _ _ Hlt) in H. apply run_Ok_inj in H as [Hv Hw].
    assert (E : 0 < stop - start) by lia.
    pose proof (Qfloor_scaled (uniform_draw w) (stop - start) (uniform_draw_bounds w) E).
    split; [lia | congruence].
  - unfold randrange in H. destruct (0 <? stop - start) eqn:E; [|discriminate].
    apply Z.ltb_lt in E. lia.
Qed.

Lemma randint_Ok (a b v : Z) (w w' : World) :
  randint a b w = (Ok v, w') -> a <= v <= b /\ w' = after_random w.
Proof.
  unfold randint. intro H. apply randrange_Ok in H. split; [lia | tauto].
Qed.

Lemma randint_total (a b : Z) (w : World) :
  a <= b -> exists v, randint a b w = (Ok v, after_random w) /\ a <= v <= b.
Proof.
  intro H. unfold randint. eexists. split.
  - apply randrange_run. lia.
  - pose proof (Qfloor_scaled (uniform_draw w) (b + 1 - a) (uniform_draw_bounds w)).
    lia.
Qed.

Lemma random_color_total (w : World) :
  exists c, random_color w = (Ok c, after_random (after_random (after_random w))).
Proof.
  unfold random_color.
  destruct (randint_total 0 255 w) as (r & Er & _); [lia|].
  destruct (randint_total 0 255 (after_random w)) as (g & Eg & _); [lia|].
  destruct (randint_total 0 255 (after_random (after_random w))) as (b & Eb & _); [lia|].
  exists [r; g; b].
  rewrite (bind_run _ _ _ _ _ Er). rewrite (bind_run _ _ _ _ _ Eg).
  rewrite (bind_run _ _ _ _ _ Eb). reflexivity.
Qed.

Lemma getitem_Ok {A} (l : list A) (i : Z) (w w' : World) (a : A) :
  getitem l i w = (Ok a, w') ->
  In a l /\ w' = w /\
  (0 <= i -> i < Z.of_nat (length l) /\ nth_error l (Z.to_nat i) = Some a).
Proof.
  unfold getitem.
  destruct ((0 <=? (if i <? 0 then i + Z.of_nat (length l) else i))
            && ((if i <? 0 then i + Z.of_nat (length l) else i) <? Z.of_nat (length l)))
    eqn:E; [|discriminate].
  apply andb_true_iff in E as [E1 E2]. apply Z.leb_le in E1. apply Z.ltb_lt in E2.
  destruct (nth_error l (Z.to_nat (if i <? 0 then i + Z.of_nat (length l) else i)))
    as [x|] eqn:N; [|discriminate].
  intro H. inversion H; subst; clear H.
  split; [eapply nth_error_In; exact N|]. split; [reflexivity|].
  intro Hi. destruct (i <? 0) eqn:Ei; [apply Z.ltb_lt in Ei; lia|].
  split; assumption.
Qed.

Lemma choice_Ok {A} (l : list A) (w w' : World) (a : A) :
  choice l w = (Ok a, w') -> In a l.
Proof.
  unfold choice. destruct l as [|x l']; [discriminate|].
  intro H. bind_inv H. apply getitem_Ok in H. tauto.
Qed.

Lemma choices_Ok {A} (population : list A) (weights : option (list Q))
    (w w' : World) (a : A) :
  choices population weights w = (Ok a, w') -> In a population.
Proof.
  unfold choices. intro H.
  destruct weights as [ws|].
  - destruct (negb (length ws =? length population)%nat); [discriminate|].
    destruct (Qle_bool (last (accumulate 0 ws) 0%Q) 0); [discriminate|].
    bind_inv H. apply getitem_Ok in H. tauto.
  - bind_inv H. apply getitem_Ok in H. tauto.
Qed.

(** ** The curriculum scheduler *)

Lemma select_stage_low (s r : Q) :
  (s - inject_Z (Qfloor s) < r)%Q -> select_stage s r = Z.min (Qfloor s) 8.
Proof.
  intro H. unfold select_stage, math_floor.
  apply Qgtb_true in H. rewrite H. reflexivity.
Qed.

Lemma select_stage_high (s r : Q) :
  (r <= s - inject_Z (Qfloor s))%Q -> select_stage s r = Z.min (Qfloor s + 1) 8.
Proof.
  intro H. unfold select_stage, math_floor.
  apply Qgtb_false in H. rewrite H. reflexivity.
Qed.

(** Whatever the draw, the selected stage is the floor of the curriculum
    value or its successor, clamped to 8. *)
Lemma select_stage_clamped (s r : Q) :
  Z.min (Qfloor s) 8 <= select_stage s r <= Z.min (Qfloor s + 1) 8.
Proof.
  destruct (Qlt_le_dec (s - inject_Z (Qfloor s)) r) as [H | H].
  - rewrite (select_stage_low _ _ H). lia.
  - rewrite (select_stage_high _ _ H). lia.
Qed.

Lemma floor_lt_ceiling (s : Q) :
  (inject_Z (Qfloor s) < s)%Q -> Qfloor s + 1 <= Qceiling s.
Proof.
  intro H. pose proof (Qle_ceiling s) as Hc.
  assert (Qfloor s < Qceiling s); [|lia].
  apply inject_Z_lt. lra.
Qed.

(** C4, as the specification states it, fails: at the integer curriculum
    value 4 the draw 0 does not exceed the fractional part 0, so stage 5 is
    selected, above ceil(4) = 4; and at 9.5 the clamp returns 8, below
    floor(9.5) = 9. *)
Lemma select_stage_outside_interval :
  (0 <= 0 < 1)%Q /\
  select_stage 4 0 = 5 /\
  ~ (Qfloor 4 <= select_stage 4 0 <= Z.min (Qceiling 4) 8) /\
  (0 <= 1 # 2 < 1)%Q /\
  select_stage (19 # 2) (1 # 2) = 8 /\
  ~ (Qfloor (19 # 2) <= select_stage (19 # 2) (1 # 2) <= Z.min (Qceiling (19 # 2)) 8).
Proof.
  repeat split; try reflexivity; try discriminate; vm_compute; intros [H1 H2];
    try (apply H1; reflexivity); try (apply H2; reflexivity).
Qed.

(** C4 (amended): for a curriculum value [s] below 9 and a draw [r] of
    [[0, 1)] that is positive when [s] is an integer, the scheduler selects
    [floor s] if [r] exceeds [s - floor s] and [floor s + 1] otherwise,
    clamps the selection to 8, and the selected stage lies in
    [[floor s, min (ceil s) 8]]. *)
Theorem select_stage_interval (s r : Q) :
  (0 <= r < 1)%Q ->
  Qfloor s <= 8 ->
  (0 < r)%Q \/ ~ (s == inject_Z (Qfloor s))%Q ->
  select_stage s r =
    Z.min (if Qgtb r (s - inject_Z (math_floor s)) then math_floor s
           else math_floor s + 1) 8 /\
  Qfloor s <= select_stage s r <= Z.min (Qceiling s) 8.
Proof.
  intros Hr Hs Hpos. split; [reflexivity|].
  assert (Hfc : Qfloor s <= Qceiling s).
  { apply inject_Z_le. apply Qle_floor_ceiling. }
  destruct (Qlt_le_dec (s - inject_Z (Qfloor s)) r) as [H | H].
  - rewrite (select_stage_low _ _ H). lia.
  - rewrite (select_stage_high _ _ H).
    assert (Hlt : (inject_Z (Qfloor s) < s)%Q).
    { pose proof (Qfloor_bounds s) as [Flo _].
      destruct Hpos as [Hpos | Hne]; [lra|].
      apply Qle_lt_or_eq in Flo as [Flo | Flo]; [exact Flo|].
      exfalso. apply Hne. symmetry. exact Flo. }
    pose proof (floor_lt_ceiling s Hlt). lia.
Qed.

Lemma select_stage_interval_witness :
  select_stage (9 # 2) (1 # 4) =
    Z.min (if Qgtb (1 # 4) ((9 # 2) - inject_Z (math_floor (9 # 2)))
           then math_floor (9 # 2) else math_floor (9 # 2) + 1) 8 /\
  Qfloor (9 # 2) <= select_stage (9 # 2) (1 # 4) <= Z.min (Qceiling (9 # 2)) 8.
Proof.
  apply (select_stage_interval (9 # 2) (1 # 4)).
  - split; [discriminate | reflexivity].
  - discriminate.
  - left. reflexivity.
Defined.

(** Scenario C of the specification, for the draws that are not 0: at an
    integer curriculum value every positive draw selects that stage. *)
Lemma select_stage_integer (n : Z) (r : Q) :
  (0 < r)%Q -> n <= 8 -> select_stage (inject_Z n) r = n.
Proof.
  intros Hr Hn. rewrite select_stage_low; rewrite Qfloor_Z; [lia | lra].
Qed.

(** ** Side occlusion *)

Section SideOcclusion.

Variable R : Rasterizer.

Lemma Draw_rectangle_outside (im : Image) (xy0 xy1 : Z * Z) (fill : Color) (x y : Z) :
  in_rectangle xy0 xy1 x y = false ->
  pixel R (Draw_rectangle im xy0 xy1 fill) x y = pixel R im x y.
Proof. simpl. intros ->. reflexivity. Qed.

Lemma eat_sides_Ok (image image' : Image) (left right top bottom : Q) (w w' : World) :
  eat_sides image left right top bottom w = (Ok image', w') ->
  exists color a b c d,
    image' = eaten image color a b c d /\
    0 <= a <= py_round left /\
    py_round right <= b <= Image_width image /\
    0 <= c <= py_round top /\
    py_round bottom <= d <= Image_height image.
Proof.
  unfold eat_sides. intro H.
  bind_inv H. rename v into color.
  bind_inv H. rename v into a. apply randint_Ok in E0 as [Ha _].
  bind_inv H. rename v into b. apply randint_Ok in E0 as [Hb _].
  bind_inv H. rename v into c. apply randint_Ok in E0 as [Hc _].
  bind_inv H. rename v into d. apply randint_Ok in E0 as [Hd _].
  apply run_Ok_inj in H as [H _].
  exists color, a, b, c, d. simpl in Hb, Hd. repeat split; try lia.
  symmetry. exact H.
Qed.

Lemma eaten_frame (image : Image) (color : Color) (a b c d l r t m x y : Z) :
  0 <= a <= l -> r <= b <= Image_width image ->
  0 <= c <= t -> m <= d <= Image_height image ->
  l < x < r -> t < y < m ->
  pixel R (eaten image color a b c d) x y = pixel R image x y.
Proof.
  intros Ha Hb Hc Hd Hx Hy. unfold eaten.
  rewrite !Draw_rectangle_outside; try reflexivity;
    unfold in_rectangle; simpl fst; simpl snd;
    repeat rewrite andb_false_iff;
    rewrite ?Z.leb_gt; lia.
Qed.

(** C6 (amended): on every canvas and for every box, whenever [eat_sides]
    returns, whatever its random extents, no pixel strictly inside the box
    of the rounded edges is modified, and the canvas keeps its size. *)
Theorem eat_sides_frame (image image' : Image) (left right top bottom : Q)
    (w w' : World) :
  eat_sides image left right top bottom w = (Ok image', w') ->
  Image_width image' = Image_width image /\
  Image_height image' = Image_height image /\
  forall x y,
    py_round left < x < py_round right ->
    py_round top < y < py_round bottom ->
    pixel R image' x y = pixel R image x y.
Proof.
  intro E.
  apply eat_sides_Ok in E as (color & a & b & c & d & -> & Ha & Hb & Hc & Hd).
  split; [reflexivity|]. split; [reflexivity|].
  intros x y Hpx Hpy.
  apply (eaten_frame image color a b c d
           (py_round left) (py_round right) (py_round top) (py_round bottom));
    assumption.
Qed.

(** For a box with integer edges this is the frame property of the
    specification. *)
Corollary eat_sides_frame_integer_box (image image' : Image) (left right top bottom : Z)
    (w w' : World) :
  eat_sides image (inject_Z left) (inject_Z right) (inject_Z top) (inject_Z bottom) w
    = (Ok image', w') ->
  forall x y, left < x < right -> top < y < bottom ->
    pixel R image' x y = pixel R image x y.
Proof.
  intros E x y Hx Hy.
  apply eat_sides_Ok in E as (color & a & b & c & d & -> & Ha & Hb & Hc & Hd).
  rewrite !py_round_inject_Z in *.
  apply (eaten_frame image color a b c d left right top bottom); assumption.
Qed.

End SideOcclusion.

(** ** The background synthesizer *)

Lemma choices_unweighted_run {A} (population : list A) (w : World) :
  choices population None w =
    getitem population
            (Qfloor (double (uniform_draw w * inject_Z (Z.of_nat (length population)))))
            (after_random w).
Proof. reflexivity. Qed.

(** [floor(random() * 3.0)] by the draw [k * 2^-53]. *)
Lemma thirds (k : Z) :
  0 <= k < 9007199254740992 ->
  Qfloor (double ((k # 9007199254740992) * 3)) =
    if k <? 3002399751580331 then 0
    else if k <? 6004799503160661 then 1
    else 2.
Proof.
  intros [Hk0 Hk1].
  assert (H3 : (0 <= 3)%Q) by discriminate.
  destruct (k <? 3002399751580331) eqn:E1.
  { apply Z.ltb_lt in E1. apply Qfloor_unique. change (inject_Z 0) with 0%Q.
    destruct (double_between 0 ((3002399751580330 # 9007199254740992) * 3)
                ((k # 9007199254740992) * 3)) as [Lo Hi];
      [lra | apply draw_scaled_nonneg; assumption
       | apply draw_scaled_le; [exact H3 | lia] |].
    assert (C0 : (0 <= double 0)%Q) by (vm_compute; discriminate).
    assert (C1 : (double ((3002399751580330 # 9007199254740992) * 3) < 1)%Q)
      by (vm_compute; reflexivity).
    lra. }
  apply Z.ltb_ge in E1.
  destruct (k <? 6004799503160661) eqn:E2.
  { apply Z.ltb_lt in E2. apply Qfloor_unique. change (inject_Z 1) with 1%Q.
    destruct (double_between ((3002399751580331 # 9007199254740992) * 3)
                ((6004799503160660 # 9007199254740992) * 3)
                ((k # 9007199254740992) * 3)) as [Lo Hi];
      [discriminate | apply draw_scaled_le; [exact H3 | lia]
       | apply draw_scaled_le; [exact H3 | lia] |].
    assert (C0 : (1 <= double ((3002399751580331 # 9007199254740992) * 3))%Q)
      by (vm_compute; discriminate).
    assert (C1 : (double ((6004799503160660 # 9007199254740992) * 3) < 2)%Q)
      by (vm_compute; reflexivity).
    lra. }
  apply Z.ltb_ge in E2. apply Qfloor_unique. change (inject_Z 2) with 2%Q.
  destruct (double_between ((6004799503160661 # 9007199254740992) * 3)
              ((9007199254740991 # 9007199254740992) * 3)
              ((k # 9007199254740992) * 3)) as [Lo Hi];
    [discriminate | apply draw_scaled_le; [exact H3 | lia]
     | apply draw_scaled_le; [exact H3 | lia] |].
  assert (C0 : (2 <= double ((6004799503160661 # 9007199254740992) * 3))%Q)
    by (vm_compute; discriminate).
  assert (C1 : (double ((9007199254740991 # 9007199254740992) * 3) < 3)%Q)
    by (vm_compute; reflexivity).
  lra.
Qed.

(** The draws that select each mode, as thresholds on the double [r]. *)
Lemma thirds_of_draw (k : Z) :
  0 <= k < 9007199254740992 ->
  let r := (k # 9007199254740992)%Q in
  ((r < 1 # 3)%Q <-> k < 3002399751580331) /\
  ((r < 6004799503160661 # 9007199254740992)%Q <-> k < 6004799503160661).
Proof.
  intros Hk r. unfold r, Qlt. simpl. lia.
Qed.

(** The mode [generate_background] selects, by the uniform draw of its
    [random.choices] call. *)
Lemma background_mode_run (w : World) :
  let r := uniform_draw w in
  ((r < 1 # 3)%Q ->
     choices [noise; img; plain] None w = (Ok noise, after_random w)) /\
  ((1 # 3 <= r < 6004799503160661 # 9007199254740992)%Q ->
     choices [noise; img; plain] None w = (Ok img, after_random w)) /\
  ((6004799503160661 # 9007199254740992 <= r)%Q ->
     choices [noise; img; plain] None w = (Ok plain, after_random w)).
Proof.
  intro r. rewrite choices_unweighted_run.
  change (inject_Z (Z.of_nat (length [noise; img; plain]))) with 3%Q.
  fold r. destruct (uniform_draw_double w) as (k & Hk & E). fold r in E.
  rewrite E. rewrite (thirds k Hk).
  destruct (thirds_of_draw k Hk) as [T1 T2]. cbv zeta in T1, T2.
  repeat split; intro H.
  - apply T1 in H. apply Z.ltb_lt in H. rewrite H. reflexivity.
  - destruct H as [H1 H2]. apply T2 in H2.
    assert (H1' : ~ k < 3002399751580331) by (intro C; apply T1 in C; lra).
    apply Z.ltb_lt in H2. apply Z.ltb_nlt in H1'. rewrite H1', H2. reflexivity.
  - assert (H2' : ~ k < 6004799503160661) by (intro C; apply T2 in C; lra).
    assert (H1' : ~ k < 3002399751580331) by lia.
    apply Z.ltb_nlt in H1', H2'. rewrite H1', H2'. reflexivity.
Qed.

Section BackgroundSynthesizer.

Context {Tensor : Type}.
Variable self : @Dataset Tensor.

Lemma blend_Ok (im1 im2 im : Image) (alpha : Q) (w w' : World) :
  blend im1 im2 alpha w = (Ok im, w') -> im = Image_blend im1 im2 alpha.
Proof.
  unfold blend.
  destruct (Mode_eqb (Image_mode im1) (Image_mode im2)
            && (Image_width im1 =? Image_width im2)
            && (Image_height im1 =? Image_height im2)); [|discriminate].
  intro H. apply run_Ok_inj in H. symmetry. tauto.
Qed.

Lemma random_background_image_Ok (width height : Z) (im : Image) (w w' : World) :
  random_background_image self width height w = (Ok im, w') ->
  exists background box,
    In background (background_images self) /\
    im = Image_resize background width height box.
Proof.
  unfold random_background_image. intro H.
  bind_inv H. apply choice_Ok in E.
  do 4 bind_inv H. apply run_Ok_inj in H as [<- _].
  eexists. eexists. split; [exact E | reflexivity].
Qed.

(** C7 (amended): the three composition modes are selected without
    weights, by [floor(random() * 3.0)].  With [r = k * 2^-53] the double
    drawn for the selection, a background that is returned is noise-blended
    exactly when [r < 1/3] ([k < 3002399751580331]), a crop of a real image
    when [1/3 <= r] and [k < 6004799503160661], and a flat colour when
    [k >= 6004799503160661]: the three modes own 3002399751580331,
    3002399751580330 and 3002399751580331 of the [2^53] draws. *)
Theorem generate_background_thirds (width height : Z) (im : Image) (w w' : World) :
  generate_background self width height w = (Ok im, w') ->
  let r := uniform_draw w in
  (exists k, 0 <= k < 9007199254740992 /\ r = (k # 9007199254740992)%Q) /\
  ((r < 1 # 3)%Q -> exists base noise_image alpha,
      im = Image_blend base noise_image alpha) /\
  ((1 # 3 <= r < 6004799503160661 # 9007199254740992)%Q -> exists background box,
      In background (background_images self) /\
      im = Image_resize background width height box) /\
  ((6004799503160661 # 9007199254740992 <= r)%Q ->
      exists color, im = Image_new RGB width height color).
Proof.
  intros H r. destruct (background_mode_run w) as (M0 & M1 & M2).
  unfold generate_background in H.
  split; [apply uniform_draw_double|].
  split; [|split]; intro Hr.
  - rewrite (bind_run _ _ _ _ _ (M0 Hr)) in H.
    do 4 bind_inv H. apply blend_Ok in H. eauto.
  - rewrite (bind_run _ _ _ _ _ (M1 Hr)) in H.
    apply random_background_image_Ok in H. exact H.
  - rewrite (bind_run _ _ _ _ _ (M2 Hr)) in H.
    bind_inv H. apply run_Ok_inj in H as [<- _]. eauto.
Qed.

(** ** Loading the catalog *)

Lemma randint_empty (a b : Z) (w : World) :
  b < a -> randint a b w = (Raise ValueError, w).
Proof.
  intro H. unfold randint, randrange.
  destruct (0 <? b + 1 - a) eqn:E; [apply Z.ltb_lt in E; lia | reflexivity].
Qed.

Lemma crop_degenerate (background : Image) (width height : Z) (w : World) :
  degenerate background ->
  exists w',
    (bg_left <- randint 0 (Image_width background - 2) ;;
     bg_right <- randint (bg_left + 1) (Image_width background) ;;
     bg_top <- randint 0 (Image_height background - 2) ;;
     bg_bottom <- randint (bg_top + 1) (Image_height background) ;;
     ret (Image_resize background width height (bg_left, bg_top, bg_right, bg_bottom))) w
    = (Raise ValueError, w').
Proof.
  intro Hd.
  destruct (Z_lt_le_dec (Image_width background - 2) 0) as [Hw | Hw].
  - exists w. apply bind_raise. apply randint_empty. exact Hw.
  - destruct Hd as [Hd | Hd]; [lia|].
    destruct (randint_total 0 (Image_width background - 2) w Hw) as (l & El & Hl).
    rewrite (bind_run _ _ _ _ _ El).
    destruct (randint_total (l + 1) (Image_width background) (after_random w))
      as (r & Er & _); [lia|].
    rewrite (bind_run _ _ _ _ _ Er).
    eexists. apply bind_raise. apply randint_empty. lia.
Qed.

Lemma random_background_image_degenerate (width height : Z) (w : World) :
  background_images self <> [] ->
  Forall degenerate (background_images self) ->
  exists w', random_background_image self width height w = (Raise ValueError, w').
Proof.
  intros Hne Hall. unfold random_background_image.
  destruct (choice (background_images self) w) as [[background | e] w1] eqn:E.
  - rewrite (bind_run _ _ _ _ _ E).
    apply crop_degenerate.
    apply choice_Ok in E. rewrite Forall_forall in Hall. apply Hall. exact E.
  - exfalso. unfold choice in E.
    destruct (background_images self) as [|b rest] eqn:Eb; [congruence|].
    unfold bind, randbelow, bind in E. rewrite random_run in E. unfold ret in E.
    pose proof (Qfloor_scaled (uniform_draw w) (Z.of_nat (length (b :: rest)))
                  (uniform_draw_bounds w)) as Hk.
    unfold getitem in E.
    set (k := Qfloor (uniform_draw w * inject_Z (Z.of_nat (length (b :: rest))))) in *.
    assert (Hk' : 0 <= k < Z.of_nat (length (b :: rest))) by (apply Hk; simpl; lia).
    destruct (k <? 0) eqn:Ek; [apply Z.ltb_lt in Ek; lia|].
    destruct (0 <=? k) eqn:E0; [|apply Z.leb_gt in E0; lia].
    destruct (k <? Z.of_nat (length (b :: rest))) eqn:E1; [|apply Z.ltb_ge in E1; lia].
    simpl andb in E. cbv iota in E.
    destruct (nth_error (b :: rest) (Z.to_nat k)) eqn:En; [discriminate|].
    apply nth_error_None in En. lia.
Qed.

Lemma random_background_image_empty (width height : Z) (w : World) :
  background_images self = [] ->
  random_background_image self width height w = (Raise IndexError, w).
Proof.
  intro H. unfold random_background_image. rewrite H. reflexivity.
Qed.

End BackgroundSynthesizer.

Lemma map_m_open_entries (files : list DirEntry) (w : World) :
  Forall (fun e => entry_image e <> None) files ->
  exists images,
    map_m Image_open_entry files w = (Ok images, w) /\
    map Some images = map entry_image files.
Proof.
  induction 1 as [|e rest He _ IH].
  - exists []. split; reflexivity.
  - destruct IH as (images & Erest & Emap).
    destruct (entry_image e) as [im|] eqn:Ee; [|congruence].
    exists (im :: images). split.
    + simpl. unfold bind at 1. unfold Image_open_entry at 1. rewrite Ee.
      unfold ret at 1. rewrite (bind_run _ _ _ _ _ Erest). reflexivity.
    + simpl. rewrite Ee, Emap. reflexivity.
Qed.

(** C8 (amended): construction does not inspect the background images.  It
    succeeds whenever every file of the backgrounds folder opens as an
    image, also when there is no file or when every image is degenerate,
    and keeps the images as they are; the failure comes with a sample, when
    [random_background_image] is called: [IndexError] without images,
    [ValueError] when every image is at most one pixel wide or high. *)
Theorem init_defers_background_failures {Tensor : Type}
    (loaded_fonts : list FontInfo) (backgrounds_folder : list DirEntry)
    (character_set : list PyStr) (transform : option (Image -> Tensor)) (w : World) :
  Forall (fun e => entry_image e <> None) (filter entry_isfile backgrounds_folder) ->
  exists self,
    __init__ loaded_fonts backgrounds_folder character_set transform w = (Ok self, w) /\
    map Some (background_images self) =
      map entry_image (filter entry_isfile backgrounds_folder) /\
    forall width height w1,
      (background_images self = [] ->
       random_background_image self width height w1 = (Raise IndexError, w1)) /\
      (background_images self <> [] ->
       Forall degenerate (background_images self) ->
       exists w2, random_background_image self width height w1 = (Raise ValueError, w2)).
Proof.
  intro Hopen.
  destruct (map_m_open_entries _ w Hopen) as (images & Eimages & Emap).
  eexists. split; [|split].
  - unfold __init__. rewrite (bind_run _ _ _ _ _ Eimages). reflexivity.
  - exact Emap.
  - intros width height w1. split.
    + apply random_background_image_empty.
    + apply random_background_image_degenerate.
Qed.

(** ** The stage generators *)

Lemma str_in_In (x : PyStr) (l : list PyStr) : str_in x l = true <-> In x l.
Proof.
  unfold str_in. rewrite existsb_exists. split.
  - intros (y & Hy & E). unfold str_eqb in E.
    destruct (list_eq_dec N.eq_dec x y); [subst; exact Hy | discriminate].
  - intro H. exists x. split; [exact H|]. unfold str_eqb.
    destruct (list_eq_dec N.eq_dec x x); [reflexivity | contradiction].
Qed.

Lemma extends_refl (im : Image) : extends im im.
Proof. intros p H. exact H. Qed.

Lemma extends_trans (a b c : Image) : extends a b -> extends b c -> extends a c.
Proof. intros H1 H2 p H. apply H2, H1, H. Qed.

Lemma extends_text (im im' : Image) xy text font fill anchor language :
  extends im im' -> extends im (Draw_text im' xy text font fill anchor language).
Proof. intros H p Hp. simpl. right. apply H, Hp. Qed.

Lemma extends_line (im im' : Image) xy0 xy1 fill width :
  extends im im' -> extends im (Draw_line im' xy0 xy1 fill width).
Proof. intros H p Hp. simpl. apply H, Hp. Qed.

Lemma extends_rectangle (im im' : Image) xy0 xy1 fill :
  extends im im' -> extends im (Draw_rectangle im' xy0 xy1 fill).
Proof. intros H p Hp. simpl. apply H, Hp. Qed.

Lemma extends_fold_text {A} (f : Image -> A -> Image) (xs : list A) (im : Image) :
  (forall im' a, extends im' (f im' a)) -> extends im (fold_left f xs im).
Proof.
  intro Hf. revert im. induction xs as [|a rest IH]; intro im; simpl.
  - apply extends_refl.
  - eapply extends_trans; [apply Hf | apply IH].
Qed.

Lemma draw_outlined_text_Ok (drawing im : Image) xy text font fill anchor language
    (w w' : World) :
  draw_outlined_text drawing xy text font fill anchor language w = (Ok im, w') ->
  extends drawing im /\ In (text, font) (drawn_texts im).
Proof.
  unfold draw_outlined_text. intro H. do 2 bind_inv H.
  destruct xy as [x y]. apply run_Ok_inj in H as [<- _]. split.
  - apply extends_text. apply extends_fold_text. intros im' dx.
    apply extends_fold_text. intros im'' dy. apply extends_text, extends_refl.
  - simpl. left. reflexivity.
Qed.

Lemma draw_underlined_text_Ok (drawing im : Image) xy text font fill anchor language
    (w w' : World) :
  draw_underlined_text drawing xy text font fill anchor language w = (Ok im, w') ->
  extends drawing im /\ In (text, font) (drawn_texts im).
Proof.
  unfold draw_underlined_text. intro H.
  destruct (getbbox font text anchor language) as [[[? ?] ?] ?].
  do 2 bind_inv H. destruct xy as [x y]. apply run_Ok_inj in H as [<- _]. split.
  - apply extends_line, extends_text, extends_refl.
  - simpl. left. reflexivity.
Qed.

Lemma eat_sides_extends (image image' : Image) (left right top bottom : Q) (w w' : World) :
  eat_sides image left right top bottom w = (Ok image', w') -> extends image image'.
Proof.
  intro H. apply eat_sides_Ok in H as (color & a & b & c & d & -> & _).
  unfold eaten. repeat apply extends_rectangle. apply extends_refl.
Qed.

Lemma for_each_extends {A} (body : A -> Image -> M Image) (xs : list A) :
  (forall x im im' w w', body x im w = (Ok im', w') -> extends im im') ->
  forall im im' w w', for_each xs body im w = (Ok im', w') -> extends im im'.
Proof.
  intro Hbody. induction xs as [|x rest IH]; intros im im' w w' H; simpl in H.
  - apply run_Ok_inj in H as [<- _]. apply extends_refl.
  - bind_inv H. eapply extends_trans; [eapply Hbody; exact E | eapply IH; exact H].
Qed.

Section StageGenerators.

Context {Tensor : Type}.
Variable self : @Dataset Tensor.

Lemma return_sample_run (sample : Image) (label : Z) (region_score : Image) (w : World) :
  return_sample self sample label region_score w =
    (Ok (present self sample, label, present self region_score), w).
Proof. unfold return_sample, present. destruct (transform self); reflexivity. Qed.

Lemma fonts_supporting_glyph_In (glyph : PyStr) (font_info : FontInfo) :
  In font_info (fonts_supporting_glyph self glyph) ->
  In font_info (font_infos self) /\ In glyph (supported_glyphs font_info).
Proof.
  unfold fonts_supporting_glyph. rewrite filter_In, str_in_In. tauto.
Qed.

Lemma labelled_intro (s : Sample) label character font_info font_size canvas xy fill
    before after (w0 w1 w2 w w' : World) :
  randrange 0 (len (characters self)) w0 = (Ok label, w1) ->
  getitem (characters self) label w1 = (Ok character, w2) ->
  In font_info (fonts_supporting_glyph self character) ->
  In (before ++ character ++ after, FontInfo_get font_info font_size)
     (drawn_texts canvas) ->
  return_sample self canvas label
    (generate_only_char xy character (FontInfo_get font_info font_size) fill mm ja) w
    = (Ok s, w') ->
  labelled self s.
Proof.
  intros Hlabel Hchar Hfont Htext H.
  rewrite return_sample_run in H. apply run_Ok_inj in H as [<- _].
  apply randrange_Ok in Hlabel as [Hlabel _].
  apply getitem_Ok in Hchar as (_ & _ & Hchar).
  destruct (Hchar (proj1 Hlabel)) as [_ Hnth].
  apply fonts_supporting_glyph_In in Hfont as [Hin Hsup].
  exists label, character, font_info, font_size, canvas, xy, fill, before, after.
  repeat split; try assumption; lia.
Qed.

Lemma In_alone {A} (x : list A) (f : Font) (rest : list (list A * Font)) :
  In (@nil A ++ x ++ @nil A, f) ((x, f) :: rest).
Proof. left. rewrite app_nil_r. reflexivity. Qed.

Ltac step H :=
  lazymatch type of H with
  | bind _ _ _ = (Ok _, _) => bind_inv H
  | (match getbbox ?f ?t ?a ?l with _ => _ end) _ = _ =>
      destruct (getbbox f t a l) as [[[? ?] ?] ?]
  end; cbv beta zeta in H.

Lemma generate_stage_0_labelled (s : Sample) (w w' : World) :
  generate_stage_0 self w = (Ok s, w') -> labelled self s.
Proof.
  unfold generate_stage_0. intro H. do 4 step H.
  apply getitem_Ok in E1 as (Hfont & _).
  eapply labelled_intro; [exact E | exact E0 | exact Hfont | | exact H].
  apply In_alone.
Qed.

Ltac font_facts :=
  repeat match goal with
         | Hf : getitem (fonts_supporting_glyph _ _) _ _ = (Ok _, _) |- _ =>
             apply getitem_Ok in Hf as (Hf & _)
         | Hf : choice (fonts_supporting_glyph _ _) _ = (Ok _, _) |- _ =>
             apply choice_Ok in Hf
         end.

Ltac conclude_stage H :=
  font_facts;
  match goal with
  | Hl : randrange 0 _ _ = (Ok _, _), Hc : getitem (characters _) _ _ = (Ok _, _) |- _ =>
      eapply labelled_intro; [exact Hl | exact Hc | eassumption | | exact H]
  end.

Lemma generate_stage_1_labelled (s : Sample) (w w' : World) :
  generate_stage_1 self w = (Ok s, w') -> labelled self s.
Proof.
  unfold generate_stage_1. intro H. repeat step H.
  conclude_stage H. apply In_alone.
Qed.

Lemma generate_stage_2_labelled (s : Sample) (w w' : World) :
  generate_stage_2 self w = (Ok s, w') -> labelled self s.
Proof.
  unfold generate_stage_2. intro H. repeat step H.
  conclude_stage H. apply In_alone.
Qed.

Lemma generate_stage_3_labelled (s : Sample) (w w' : World) :
  generate_stage_3 self w = (Ok s, w') -> labelled self s.
Proof.
  unfold generate_stage_3. intro H. repeat step H.
  conclude_stage H. apply In_alone.
Qed.

Lemma generate_stage_4_labelled (s : Sample) (w w' : World) :
  generate_stage_4 self w = (Ok s, w') -> labelled self s.
Proof.
  unfold generate_stage_4. intro H. repeat step H.
  conclude_stage H. apply In_alone.
Qed.

Lemma generate_stage_5_labelled (s : Sample) (w w' : World) :
  generate_stage_5 self w = (Ok s, w') -> labelled self s.
Proof.
  unfold generate_stage_5. intro H. repeat step H.
  conclude_stage H. apply In_alone.
Qed.

Lemma generate_stage_6_labelled (s : Sample) (w w' : World) :
  generate_stage_6 self w = (Ok s, w') -> labelled self s.
Proof.
  unfold generate_stage_6. intro H. repeat step H.
  conclude_stage H. left. reflexivity.
Qed.

Lemma outlined_or_plain_Ok (c : bool) (sample im : Image) xy text font (w w' : World) :
  (if c then
     fill <- random_color ;; draw_outlined_text sample xy text font fill lm ja
   else
     fill <- random_color ;; ret (Draw_text sample xy text font fill lm ja)) w
  = (Ok im, w') ->
  extends sample im /\ In (text, font) (drawn_texts im).
Proof.
  destruct c; intro H; bind_inv H.
  - eapply draw_outlined_text_Ok. exact H.
  - apply run_Ok_inj in H as [<- _]. split.
    + apply extends_text, extends_refl.
    + left. reflexivity.
Qed.

Lemma maybe_eat_sides_Ok (c : bool) (sample im : Image) (l r t b : Q) (w w' : World) :
  (if c then eat_sides sample l r t b else ret sample) w = (Ok im, w') ->
  extends sample im.
Proof.
  destruct c; intro H.
  - eapply eat_sides_extends. exact H.
  - apply run_Ok_inj in H as [<- _]. apply extends_refl.
Qed.

Ltac through_extensions :=
  repeat match goal with
         | He : extends _ ?c |- In _ (drawn_texts ?c) => apply He
         end;
  eassumption.

Lemma generate_stage_7_labelled (s : Sample) (w w' : World) :
  generate_stage_7 self w = (Ok s, w') -> labelled self s.
Proof.
  unfold generate_stage_7. intro H. repeat step H.
  match goal with
  | Ht : (if Qgtb _ _ then bind random_color _ else _) _ = _ |- _ =>
      apply outlined_or_plain_Ok in Ht as [_ Ht]
  end.
  match goal with
  | He : (if Qgtb _ _ then eat_sides _ _ _ _ _ else _) _ = _ |- _ =>
      apply maybe_eat_sides_Ok in He
  end.
  conclude_stage H. through_extensions.
Qed.

Lemma place_floating_character_extends (font : Font) (y bottom : Z)
    (floating_character : PyStr) (drawing im : Image) (w w' : World) :
  place_floating_character self font y bottom floating_character drawing w = (Ok im, w') ->
  extends drawing im.
Proof.
  unfold place_floating_character. intro H. do 2 step H.
  destruct (getbbox _ floating_character lt ja) as [[[? ?] f_right] f_bottom].
  do 2 step H.
  destruct v2 as [|fy rest].
  - apply run_Ok_inj in H as [<- _]. apply extends_refl.
  - do 2 step H.
    destruct (Qgtb v3 (9 # 10)); do 3 step H.
    + eapply draw_outlined_text_Ok. exact H.
    + apply run_Ok_inj in H as [<- _]. apply extends_text, extends_refl.
Qed.

Lemma effect_text_Ok (effect : Effect) (sample im : Image) xy text font (w w' : World) :
  match effect with
  | outline => fill <- random_color ;; draw_outlined_text sample xy text font fill lm ja
  | underline => fill <- random_color ;; draw_underlined_text sample xy text font fill lm ja
  | none => fill <- random_color ;; ret (Draw_text sample xy text font fill lm ja)
  end w = (Ok im, w') ->
  In (text, font) (drawn_texts im).
Proof.
  destruct effect; intro H; bind_inv H.
  - eapply draw_outlined_text_Ok. exact H.
  - eapply draw_underlined_text_Ok. exact H.
  - apply run_Ok_inj in H as [<- _]. left. reflexivity.
Qed.

Lemma generate_stage_8_labelled (s : Sample) (w w' : World) :
  generate_stage_8 self w = (Ok s, w') -> labelled self s.
Proof.
  unfold generate_stage_8. intro H. repeat step H.
  match goal with
  | Ht : (match _ with outline => _ | underline => _ | none => _ end) _ = _ |- _ =>
      apply effect_text_Ok in Ht
  end.
  match goal with
  | Hf : for_each _ (place_floating_character _ _ _ _) _ _ = _ |- _ =>
      apply (for_each_extends _ _
               (fun x im im' w w' => place_floating_character_extends _ _ _ x im im' w w'))
        in Hf
  end.
  match goal with
  | He : (if Qgtb _ _ then eat_sides _ _ _ _ _ else _) _ = _ |- _ =>
      apply maybe_eat_sides_Ok in He
  end.
  conclude_stage H. through_extensions.
Qed.

Lemma stage_generators_labelled (g : M Sample) (s : Sample) (w w' : World) :
  In g (stage_generators self) -> g w = (Ok s, w') -> labelled self s.
Proof.
  unfold stage_generators. simpl.
  intros [<- | [<- | [<- | [<- | [<- | [<- | [<- | [<- | [<- | []]]]]]]]]].
  - apply generate_stage_0_labelled.
  - apply generate_stage_1_labelled.
  - apply generate_stage_2_labelled.
  - apply generate_stage_3_labelled.
  - apply generate_stage_4_labelled.
  - apply generate_stage_5_labelled.
  - apply generate_stage_6_labelled.
  - apply generate_stage_7_labelled.
  - apply generate_stage_8_labelled.
Qed.

(** C1: for every stage generator, a returned label is a valid index into
    the character set, and the character at that index belongs to the
    supported glyphs of the font file whose rendered font draws the
    labelled character, both on the sample and on the region score.  (A
    sample is returned only when some font of the catalog supports the
    sampled character.) *)
Theorem label_indexes_supported_character (g : M Sample)
    (image region_score : Image + Tensor) (label : Z) (w w' : World) :
  In g (stage_generators self) ->
  g w = (Ok (image, label, region_score), w') ->
  0 <= label < len (characters self) /\
  exists character font_info font canvas text region_canvas,
    nth_error (characters self) (Z.to_nat label) = Some character /\
    In font_info (font_infos self) /\
    In character (supported_glyphs font_info) /\
    font_info_of font = font_info /\
    image = present self canvas /\
    In (text, font) (drawn_texts canvas) /\
    (exists before after, text = before ++ character ++ after) /\
    region_score = present self region_canvas /\
    drawn_texts region_canvas = [(character, font)].
Proof.
  intros Hg H.
  destruct (stage_generators_labelled g _ w w' Hg H)
    as (label' & character & font_info & font_size & canvas & xy & fill & before & after
        & Es & Hlabel & Hnth & Hin & Hsup & Htext).
  injection Es as -> -> ->.
  split; [exact Hlabel|].
  exists character, font_info, (FontInfo_get font_info font_size), canvas,
    (before ++ character ++ after),
    (generate_only_char xy character (FontInfo_get font_info font_size) fill mm ja).
  repeat split; try assumption. exists before, after. reflexivity.
Qed.


(** C3 (amended): without a transform, the region score every stage
    generator returns is a single-channel canvas of 128 x 128 pixels, the
    full resolution of the image canvas. *)
Theorem region_score_full_resolution (g : M Sample)
    (image region_score : Image + Tensor) (label : Z) (w w' : World) :
  transform self = None ->
  In g (stage_generators self) ->
  g w = (Ok (image, label, region_score), w') ->
  exists canvas,
    region_score = inl canvas /\
    Image_mode canvas = L /\
    Image_width canvas = 128 /\
    Image_height canvas = 128.
Proof.
  intros Hnone Hg H.
  destruct (stage_generators_labelled g _ w w' Hg H)
    as (label' & character & font_info & font_size & canvas & xy & fill & before & after
        & Es & _).
  injection Es as -> -> ->.
  eexists. unfold present. rewrite Hnone. repeat split.
Qed.

(** ** Dispatch *)

Lemma generate_run (w : World) :
  generate self w =
    (let stage := select_stage (stage self) (uniform_draw w) in
     if stage =? 0 then sample <- generate_stage_0 self ;; ret (Some sample)
     else if stage =? 1 then sample <- generate_stage_1 self ;; ret (Some sample)
     else if stage =? 2 then sample <- generate_stage_2 self ;; ret (Some sample)
     else if stage =? 3 then sample <- generate_stage_3 self ;; ret (Some sample)
     else if stage =? 4 then sample <- generate_stage_4 self ;; ret (Some sample)
     else if stage =? 5 then sample <- generate_stage_5 self ;; ret (Some sample)
     else if stage =? 6 then sample <- generate_stage_6 self ;; ret (Some sample)
     else if stage =? 7 then sample <- generate_stage_7 self ;; ret (Some sample)
     else if stage =? 8 then sample <- generate_stage_8 self ;; ret (Some sample)
     else ret None) (after_random w).
Proof. reflexivity. Qed.

Lemma generate_negative (w : World) :
  select_stage (stage self) (uniform_draw w) < 0 ->
  generate self w = (Ok None, after_random w).
Proof.
  intro Hk. rewrite generate_run. cbv zeta.
  repeat match goal with
         | |- context [?k =? ?n] =>
             let E := fresh "E" in
             destruct (k =? n) eqn:E; [apply Z.eqb_eq in E; lia | clear E]
         end.
  reflexivity.
Qed.

Lemma generate_selected (w : World) (k : Z) :
  select_stage (stage self) (uniform_draw w) = k ->
  0 <= k <= 8 ->
  exists g,
    nth_error (stage_generators self) (Z.to_nat k) = Some g /\
    generate self w = (sample <- g ;; ret (Some sample)) (after_random w).
Proof.
  intros Ek Hk. rewrite generate_run, Ek. cbv zeta. clear Ek.
  assert (Hcases : k = 0 \/ k = 1 \/ k = 2 \/ k = 3 \/ k = 4 \/ k = 5 \/ k = 6 \/ k = 7
                   \/ k = 8) by lia.
  destruct Hcases as [E | [E | [E | [E | [E | [E | [E | [E | E]]]]]]]];
    rewrite E; eexists; split; reflexivity.
Qed.


(** ** Indexed access *)

Lemma getitem_is_generate (index : Z) : __getitem__ self index = generate self.
Proof. reflexivity. Qed.

End StageGenerators.

(** ** The early stages return

    Stages 0 to 5 draw on nothing but the character set and the fonts: they
    return a sample as soon as the character set is not empty and every
    character has a font that supports it. *)

Lemma returns_bind {A B} (P : A -> Prop) (Q : B -> Prop) (m : M A) (f : A -> M B) :
  returns_with P m -> (forall a, P a -> returns_with Q (f a)) ->
  returns_with Q (bind m f).
Proof.
  intros Hm Hf w. destruct (Hm w) as (a & w1 & E & Pa).
  destruct (Hf a Pa w1) as (b & w2 & E' & Qb).
  exists b, w2. rewrite (bind_run _ _ _ _ _ E). split; assumption.
Qed.

Lemma returns_ret {A} (P : A -> Prop) (a : A) : P a -> returns_with P (ret a).
Proof. intros Pa w. exists a, w. split; [reflexivity | exact Pa]. Qed.

Lemma returns_weaken {A} (P Q : A -> Prop) (m : M A) :
  (forall a, P a -> Q a) -> returns_with P m -> returns_with Q m.
Proof.
  intros HPQ Hm w. destruct (Hm w) as (a & w' & E & Pa).
  exists a, w'. split; [exact E | apply HPQ, Pa].
Qed.

Lemma random_returns : returns_with (fun r => (0 <= r < 1)%Q) random.
Proof.
  intro w. exists (uniform_draw w), (after_random w).
  split; [apply random_run | apply uniform_draw_bounds].
Qed.

Lemma randrange_returns (start stop : Z) :
  start < stop -> returns_with (fun v => start <= v < stop) (randrange start stop).
Proof.
  intros H w. eexists. eexists. split; [apply randrange_run; exact H|].
  pose proof (Qfloor_scaled (uniform_draw w) (stop - start) (uniform_draw_bounds w)).
  lia.
Qed.

Lemma randint_returns (a b : Z) :
  a <= b -> returns_with (fun v => a <= v <= b) (randint a b).
Proof.
  intros H w. destruct (randint_total a b w H) as (v & E & Hv).
  exists v, (after_random w). split; assumption.
Qed.

Lemma random_color_returns : returns_with (fun _ => True) random_color.
Proof.
  intro w. destruct (random_color_total w) as (c & E).
  eexists. eexists. split; [exact E | exact I].
Qed.

Lemma np_normal_returns (loc scale : Q) : returns_with (fun _ => True) (np_normal loc scale).
Proof. intro w. eexists. eexists. split; [reflexivity | exact I]. Qed.

Lemma getitem_returns {A} (l : list A) (i : Z) :
  0 <= i < Z.of_nat (length l) -> returns_with (fun a => In a l) (getitem l i).
Proof.
  intros Hi w. unfold getitem.
  destruct (i <? 0) eqn:Ei; [apply Z.ltb_lt in Ei; lia|].
  destruct (0 <=? i) eqn:E0; [|apply Z.leb_gt in E0; lia].
  destruct (i <? Z.of_nat (length l)) eqn:E1; [|apply Z.ltb_ge in E1; lia].
  simpl andb. cbv iota.
  destruct (nth_error l (Z.to_nat i)) as [a|] eqn:En.
  - exists a, w. split; [reflexivity | eapply nth_error_In; exact En].
  - apply nth_error_None in En. lia.
Qed.

Lemma choice_returns {A} (l : list A) :
  l <> [] -> returns_with (fun a => In a l) (choice l).
Proof.
  intro Hne. destruct l as [|x rest]; [congruence|].
  unfold choice. eapply returns_bind.
  - unfold randbelow. eapply returns_bind; [apply random_returns|].
    intros r Hr. apply (returns_ret (fun k => 0 <= k < Z.of_nat (length (x :: rest)))).
    apply Qfloor_scaled; [exact Hr | simpl; lia].
  - intros k Hk. apply getitem_returns. exact Hk.
Qed.

Lemma bisect_le (a : list Q) (x : Q) (hi : nat) : (bisect a x hi <= hi)%nat.
Proof.
  revert a. induction hi as [|hi IH]; intro a.
  - destruct a; simpl; lia.
  - destruct a as [|c rest]; simpl; [lia|].
    destruct (Qle_bool c x); [specialize (IH rest) |]; lia.
Qed.

Lemma random_font_size_returns : returns_with (fun _ => True) random_font_size.
Proof.
  unfold random_font_size.
  do 4 (eapply returns_bind; [apply np_normal_returns | intros ? _]).
  eapply returns_bind; [|intros ? _; apply returns_ret; exact I].
  unfold choices. cbn [length Nat.eqb negb].
  assert (Et : Qle_bool (last (accumulate 0 [10; 3; 1; 1]%Q) 0%Q) 0 = false)
    by reflexivity.
  rewrite Et.
  eapply returns_bind; [apply random_returns | intros r _].
  eapply returns_weaken; [|apply getitem_returns].
  - intros ? _. exact I.
  - unfold choices_index. pose proof (bisect_le (accumulate 0 [10; 3; 1; 1]%Q)
      (double (r * last (accumulate 0 [10; 3; 1; 1]%Q) 0%Q)) (4 - 1)). simpl length. lia.
Qed.

Section EarlyStages.

Context {Tensor : Type}.
Variable self : @Dataset Tensor.

Hypothesis characters_not_empty : characters self <> [].
Hypothesis characters_supported :
  forall character, In character (characters self) ->
    fonts_supporting_glyph self character <> [].

Lemma return_sample_returns (sample : Image) (label : Z) (region_score : Image) :
  returns_with (fun _ => True) (return_sample self sample label region_score).
Proof.
  intro w. eexists. eexists. split; [apply return_sample_run | exact I].
Qed.

Lemma label_returns :
  returns_with (fun label => 0 <= label < len (characters self))
               (randrange 0 (len (characters self))).
Proof.
  apply randrange_returns. unfold len.
  destruct (characters self); [congruence | simpl; lia].
Qed.

Lemma first_font_returns (character : PyStr) :
  In character (characters self) ->
  returns_with (fun _ => True) (getitem (fonts_supporting_glyph self character) 0).
Proof.
  intro Hc. eapply returns_weaken; [|apply getitem_returns].
  - intros ? _. exact I.
  - pose proof (characters_supported character Hc).
    destruct (fonts_supporting_glyph self character); [congruence | simpl; lia].
Qed.

Lemma any_font_returns (character : PyStr) :
  In character (characters self) ->
  returns_with (fun _ => True) (choice (fonts_supporting_glyph self character)).
Proof.
  intro Hc. eapply returns_weaken; [|apply choice_returns].
  - intros ? _. exact I.
  - apply characters_supported. exact Hc.
Qed.

Ltac returns_step :=
  lazymatch goal with
  | |- returns_with _ (bind (randrange 0 _) _) =>
      eapply returns_bind; [apply label_returns | intros ? ?]
  | |- returns_with _ (bind (getitem (characters _) _) _) =>
      eapply returns_bind; [apply getitem_returns; assumption | intros ? ?]
  | |- returns_with _ (bind (getitem (fonts_supporting_glyph _ _) _) _) =>
      eapply returns_bind; [apply first_font_returns; assumption | intros ? _]
  | |- returns_with _ (bind (choice (fonts_supporting_glyph _ _)) _) =>
      eapply returns_bind; [apply any_font_returns; assumption | intros ? _]
  | |- returns_with _ (bind (choice [20; 32]) _) =>
      eapply returns_bind; [apply choice_returns; discriminate | intros ? _]
  | |- returns_with _ (bind random_font_size _) =>
      eapply returns_bind; [apply random_font_size_returns | intros ? _]
  | |- returns_with _ (bind random_color _) =>
      eapply returns_bind; [apply random_color_returns | intros ? _]
  | |- returns_with _ (bind random _) =>
      eapply returns_bind; [apply random_returns | intros ? _]
  | |- returns_with _ (match getbbox ?f ?t ?a ?l with _ => _ end) =>
      destruct (getbbox f t a l) as [[[? ?] ?] ?]
  | |- returns_with _ (return_sample _ _ _ _) =>
      apply return_sample_returns
  end.

(** Under the precondition of C1, stages 0 to 5 return a sample. *)
Lemma early_stages_return (g : M Sample) (w : World) :
  In g (firstn 6 (stage_generators self)) ->
  exists sample w', g w = (Ok sample, w').
Proof.
  intro Hg.
  assert (R : returns_with (fun _ => True) g).
  { simpl in Hg.
    destruct Hg as [<- | [<- | [<- | [<- | [<- | [<- | []]]]]]];
      [unfold generate_stage_0 | unfold generate_stage_1 | unfold generate_stage_2
       | unfold generate_stage_3 | unfold generate_stage_4 | unfold generate_stage_5];
      repeat returns_step. }
  destruct (R w) as (sample & w' & E & _). exists sample, w'. exact E.
Qed.

End EarlyStages.

(** ** The missing-glyph check of stages 6 to 8 *)

Lemma check_extra_character_run (font : Font) (font_info : FontInfo)
    (character : PyStr) (w : World) :
  check_extra_character font font_info character w =
    if zero_extent font character
    then (Raise (SystemExit (-1)), printed (missing_message character font_info) w)
    else (Ok tt, w).
Proof.
  unfold check_extra_character, zero_extent.
  destruct (getbbox font character lt ja) as [[[? ?] r] b].
  destruct ((r =? 0) || (b =? 0)); reflexivity.
Qed.

Lemma check_extra_character_6_run (font : Font) (font_info : FontInfo)
    (character : PyStr) (w : World) :
  check_extra_character_6 font font_info character w =
    if zero_extent font character then (Raise TypeError, w) else (Ok tt, w).
Proof.
  unfold check_extra_character_6, zero_extent.
  destruct (getbbox font character lt ja) as [[[? ?] r] b].
  destruct ((r =? 0) || (b =? 0)); reflexivity.
Qed.

(** In stages 7 and 8 the loop halts at the first character without extent:
    it prints the diagnostic naming that character and the font file, then
    exits. *)
Lemma check_loop_exits (font : Font) (font_info : FontInfo) (characters : list PyStr)
    (w : World) :
  existsb (zero_extent font) characters = true ->
  exists character,
    In character characters /\
    zero_extent font character = true /\
    for_each characters
      (fun extra_character _ => check_extra_character font font_info extra_character)
      tt w
    = (Raise (SystemExit (-1)), printed (missing_message character font_info) w).
Proof.
  induction characters as [|c rest IH]; simpl; [discriminate|].
  intro H. unfold bind at 1. rewrite check_extra_character_run.
  destruct (zero_extent font c) eqn:Ec.
  - exists c. repeat split; auto.
  - simpl in H. destruct (IH H) as (c' & Hin & Hz & Hrun).
    exists c'. repeat split; auto.
Qed.

(** In stage 6 the same loop raises [TypeError] while it builds the
    message, and prints nothing. *)
Lemma check_loop_6_raises (font : Font) (font_info : FontInfo) (characters : list PyStr)
    (w : World) :
  existsb (zero_extent font) characters = true ->
  for_each characters
    (fun extra_character _ => check_extra_character_6 font font_info extra_character)
    tt w
  = (Raise TypeError, w).
Proof.
  induction characters as [|c rest IH]; simpl; [discriminate|].
  intro H. unfold bind at 1. rewrite check_extra_character_6_run.
  destruct (zero_extent font c) eqn:Ec; [reflexivity|].
  simpl in H. apply IH. exact H.
Qed.

(** When every character has an extent, both loops pass silently. *)
Lemma check_loop_passes (font : Font) (font_info : FontInfo) (characters : list PyStr)
    (w : World) :
  existsb (zero_extent font) characters = false ->
  for_each characters
    (fun extra_character _ => check_extra_character font font_info extra_character)
    tt w = (Ok tt, w) /\
  for_each characters
    (fun extra_character _ => check_extra_character_6 font font_info extra_character)
    tt w = (Ok tt, w).
Proof.
  induction characters as [|c rest IH]; simpl; [split; reflexivity|].
  intro H. apply orb_false_iff in H as [Hc Hrest].
  unfold bind. rewrite check_extra_character_run, check_extra_character_6_run, Hc.
  apply IH. exact Hrest.
Qed.

(** ** The scenarios run *)

Example basename_scenario : basename (path scenario_font) = str "scenario.ttf".
Proof. reflexivity. Qed.

Example stage_0_scenario :
  generate_stage_0 scenario_dataset (world_of [1 # 2] []) =
    (Ok (inl (Draw_text (Image_new RGB 128 128 WHITE_COLOR) (64, 64)%Q (str "B")
                        (FontInfo_get scenario_font 32) BLACK_COLOR mm ja),
         1,
         inl (Draw_text (Image_new L 128 128 [0]) (64, 64)%Q (str "B")
                        (FontInfo_get scenario_font 32) [255] mm ja)),
     after_random (world_of [1 # 2] [])).
Proof. reflexivity. Qed.

(** Every stage generator returns a sample on the scenario. *)
Example stages_return_on_scenario :
  forallb (fun g => is_Ok (g (world_of [] [0; 0; 0; 0; 1 # 4]%Q)))
          (stage_generators scenario_dataset) = true.
Proof. vm_compute. reflexivity. Qed.

(** Stage 7 with the outline effect and side occlusion. *)
Example stage_7_with_occlusion_returns :
  is_Ok (generate_stage_7 scenario_dataset
           (world_of [0; 0; 0; 0; 0; 0; 0; 5 # 6; 0; 0; 0; 19 # 20; 0; 0; 0; 0; 0; 0; 19 # 20]%Q
                     [])) = true.
Proof. vm_compute. reflexivity. Qed.

(** ** The claims on the scenarios *)

Lemma stage_0_scenario_A :
  generate_stage_0 scenario_dataset (world_of [] []) =
    (Ok (inl scenario_canvas, 0, inl scenario_region_score),
     after_random (world_of [] [])).
Proof. reflexivity. Qed.

Lemma label_indexes_supported_character_witness :
  0 <= 0 < len (characters scenario_dataset) /\
  exists character font_info font canvas text region_canvas,
    nth_error (characters scenario_dataset) (Z.to_nat 0) = Some character /\
    In font_info (font_infos scenario_dataset) /\
    In character (supported_glyphs font_info) /\
    font_info_of font = font_info /\
    inl scenario_canvas = present scenario_dataset canvas /\
    In (text, font) (drawn_texts canvas) /\
    (exists before after, text = before ++ character ++ after) /\
    inl scenario_region_score = present scenario_dataset region_canvas /\
    drawn_texts region_canvas = [(character, font)].
Proof.
  apply (label_indexes_supported_character scenario_dataset
           (generate_stage_0 scenario_dataset)
           (inl scenario_canvas) (inl scenario_region_score) 0
           (world_of [] []) (after_random (world_of [] []))).
  - simpl. left. reflexivity.
  - reflexivity.
Defined.


(** C3, as the specification states it, fails: stage 0 on scenario A
    returns a region score of 128 x 128 pixels, not 64 x 64. *)
Lemma region_score_not_half_resolution :
  transform scenario_dataset = None /\
  In (generate_stage_0 scenario_dataset) (stage_generators scenario_dataset) /\
  generate_stage_0 scenario_dataset (world_of [] []) =
    (Ok (inl scenario_canvas, 0, inl scenario_region_score),
     after_random (world_of [] [])) /\
  Image_width scenario_region_score = 128 /\
  Image_height scenario_region_score = 128 /\
  ~ (Image_width scenario_region_score = 64 /\ Image_height scenario_region_score = 64).
Proof.
  repeat split; try reflexivity.
  - simpl. left. reflexivity.
  - intros [H _]. discriminate H.
Qed.

Lemma region_score_full_resolution_witness :
  exists canvas,
    inl scenario_region_score = @inl Image unit canvas /\
    Image_mode canvas = L /\
    Image_width canvas = 128 /\
    Image_height canvas = 128.
Proof.
  apply (region_score_full_resolution scenario_dataset
           (generate_stage_0 scenario_dataset)
           (inl scenario_canvas) (inl scenario_region_score) 0
           (world_of [] []) (after_random (world_of [] []))).
  - reflexivity.
  - simpl. left. reflexivity.
  - reflexivity.
Defined.

(** C5 fails in stage 6.  On a catalog whose font lists a glyph without
    extent, stage 6 raises [TypeError] and prints nothing, where stages 7
    and 8 print the diagnostic naming the character and the font file and
    exit with status -1. *)
Theorem stage_6_loses_the_diagnostic :
  let w := world_of [] [] in
  existsb (zero_extent (FontInfo_get hollow_font 15)) (chars_of (str "C")) = true /\
  fst (generate_stage_6 hollow_dataset w) = Raise TypeError /\
  stdout (snd (generate_stage_6 hollow_dataset w)) = [] /\
  fst (generate_stage_7 hollow_dataset w) = Raise (SystemExit (-1)) /\
  stdout (snd (generate_stage_7 hollow_dataset w)) = [str "C is missing from hollow.ttf"] /\
  fst (generate_stage_8 hollow_dataset w) = Raise (SystemExit (-1)) /\
  stdout (snd (generate_stage_8 hollow_dataset w)) = [str "C is missing from hollow.ttf"].
Proof. vm_compute. repeat split; reflexivity. Qed.

(** C6, as the specification states it, fails for a box with fractional
    edges: the left edge 19.6 is rounded to 20, and the pixel column 20,
    strictly inside the box, is painted when the left extent is drawn as
    20.  The right and bottom extents are drawn at the canvas edges, so no
    rectangle of this run has its corners in reverse order. *)
Lemma eat_sides_paints_inside_fractional_box :
  let image := Image_new RGB 128 128 WHITE_COLOR in
  let w := world_of [0; 0; 0; 255 # 256; 255 # 256; 0; 255 # 256]%Q [] in
  (0 <= 98 # 5 /\ 98 # 5 <= 100 /\ 100 <= inject_Z (Image_width image))%Q /\
  (0 <= 10 /\ 10 <= 100 /\ 100 <= inject_Z (Image_height image))%Q /\
  (98 # 5 < inject_Z 20 /\ inject_Z 20 < 100)%Q /\
  (10 < inject_Z 50 /\ inject_Z 50 < 100)%Q /\
  exists image',
    fst (eat_sides image (98 # 5) 100 10 100 w) = Ok image' /\
    image' = eaten image BLACK_COLOR 20 128 0 128 /\
    pixel blank_rasterizer image 20 50 = WHITE_COLOR /\
    pixel blank_rasterizer image' 20 50 = BLACK_COLOR /\
    pixel blank_rasterizer image' 20 50 <> pixel blank_rasterizer image 20 50.
Proof.
  cbv zeta. repeat split; try reflexivity; try discriminate.
  eexists. split; [vm_compute; reflexivity|].
  repeat split; try reflexivity. discriminate.
Qed.

Lemma eat_sides_frame_witness :
  let image := Image_new RGB 128 128 WHITE_COLOR in
  let image' := eaten image BLACK_COLOR 0 128 0 128 in
  Image_width image' = Image_width image /\
  Image_height image' = Image_height image /\
  forall x y,
    py_round 10 < x < py_round 20 ->
    py_round 10 < y < py_round 100 ->
    pixel blank_rasterizer image' x y = pixel blank_rasterizer image x y.
Proof.
  apply (eat_sides_frame blank_rasterizer (Image_new RGB 128 128 WHITE_COLOR)
           (eaten (Image_new RGB 128 128 WHITE_COLOR) BLACK_COLOR 0 128 0 128)
           10 20 10 100
           (world_of [0; 0; 0; 0; 255 # 256; 0; 255 # 256]%Q [])
           (after_random (after_random (after_random (after_random
              (after_random (after_random (after_random
                (world_of [0; 0; 0; 0; 255 # 256; 0; 255 # 256]%Q []))))))))).
  vm_compute. reflexivity.
Defined.

(** C7, as the specification states it, fails: the selection has no
    weights.  The draw [k * 2^-53] selects the noise blend for [k] below
    3002399751580331, the image crop from there to below 6004799503160661,
    and the flat colour from there on: the flat colour, the mode the
    specification calls the least probable, owns as many of the [2^53]
    draws as the noise blend, and one more than the image crop. *)
Lemma background_modes_not_weighted :
  (forall k, 0 <= k < 9007199254740992 ->
     fst (choices [noise; img; plain] None (world_of [k # 9007199254740992]%Q [])) =
       Ok (if k <? 3002399751580331 then noise
           else if k <? 6004799503160661 then img
           else plain)) /\
  3002399751580331 - 0 = 9007199254740992 - 6004799503160661 /\
  6004799503160661 - 3002399751580331 < 9007199254740992 - 6004799503160661 /\
  fst (choices [noise; img; plain] None
         (world_of [6004799503160661 # 9007199254740992]%Q [])) = Ok plain /\
  (6004799503160661 # 9007199254740992 < 2 # 3)%Q.
Proof.
  split; [|repeat split; vm_compute; reflexivity].
  intros k Hk. rewrite choices_unweighted_run.
  change (uniform_draw (world_of [k # 9007199254740992]%Q []))
    with (uniform (k # 9007199254740992)).
  rewrite (uniform_of_draw k Hk).
  change (inject_Z (Z.of_nat (length [noise; img; plain]))) with 3%Q.
  rewrite (thirds k Hk).
  destruct (k <? 3002399751580331); [reflexivity|].
  destruct (k <? 6004799503160661); reflexivity.
Qed.

Lemma generate_background_thirds_witness :
  let w := world_of [] [] in
  let r := uniform_draw w in
  let im := returned_image (generate_background scenario_dataset 8 8 w) in
  (exists k, 0 <= k < 9007199254740992 /\ r = (k # 9007199254740992)%Q) /\
  ((r < 1 # 3)%Q -> exists base noise_image alpha,
      im = Image_blend base noise_image alpha) /\
  ((1 # 3 <= r < 6004799503160661 # 9007199254740992)%Q -> exists background box,
      In background (background_images scenario_dataset) /\
      im = Image_resize background 8 8 box) /\
  ((6004799503160661 # 9007199254740992 <= r)%Q ->
      exists color, im = Image_new RGB 8 8 color).
Proof.
  apply (generate_background_thirds scenario_dataset 8 8
           (returned_image (generate_background scenario_dataset 8 8 (world_of [] [])))
           (world_of [] [])
           (snd (generate_background scenario_dataset 8 8 (world_of [] [])))).
  vm_compute. reflexivity.
Defined.

(** C8, as the specification states it, fails: with an empty backgrounds
    folder, or with a single image of one pixel, construction succeeds, and
    the failure comes when stage 7 asks for a crop of a background. *)
Lemma empty_background_folder_loads :
  let w := world_of [0; 0; 0; 0; 0; 0; 0; 1 # 2]%Q [] in
  (exists self : @Dataset unit,
     fst (__init__ [scenario_font] [] [str "A"; str "B"] None w) = Ok self /\
     background_images self = [] /\
     fst (generate_stage_7 (set_stage 7 self) w) = Raise IndexError) /\
  (exists self : @Dataset unit,
     fst (__init__ [scenario_font] [dot_file] [str "A"; str "B"] None w) = Ok self /\
     background_images self = [dot_image] /\
     degenerate dot_image /\
     fst (generate_stage_7 (set_stage 7 self) w) = Raise ValueError).
Proof.
  cbv zeta. split; eexists; (split; [reflexivity|]); repeat split;
    try (vm_compute; reflexivity).
  left. simpl. lia.
Qed.

Lemma init_defers_background_failures_witness :
  exists self : @Dataset unit,
    __init__ [scenario_font] [dot_file] [str "A"; str "B"] None (world_of [] [])
      = (Ok self, world_of [] []) /\
    map Some (background_images self) =
      map entry_image (filter entry_isfile [dot_file]) /\
    forall width height w1,
      (background_images self = [] ->
       random_background_image self width height w1 = (Raise IndexError, w1)) /\
      (background_images self <> [] ->
       Forall degenerate (background_images self) ->
       exists w2, random_background_image self width height w1 = (Raise ValueError, w2)).
Proof.
  apply (init_defers_background_failures [scenario_font] [dot_file] [str "A"; str "B"]
           None (world_of [] [])).
  simpl. constructor; [discriminate | constructor].
Defined.


(** C10: [__getitem__] does not depend on its index: for any two indices
    it is the same computation, a call of [generate], so from the same
    world it returns the same sample; and accessing one index twice in a
    row can return two different samples. *)
Theorem getitem_ignores_index :
  (forall (Tensor : Type) (self : @Dataset Tensor) (i j : Z) (w : World),
     __getitem__ self i w = generate self w /\
     __getitem__ self i w = __getitem__ self j w) /\
  (exists (self : @Dataset unit) (i : Z) (w : World),
     fst (__getitem__ self i (snd (__getitem__ self i w)))
       <> fst (__getitem__ self i w)).
Proof.
  split.
  - intros Tensor self i j w. split; reflexivity.
  - exists scenario_dataset, 0, (world_of [1 # 2; 0; 1 # 2; 1 # 2]%Q []).
    vm_compute. discriminate.
Qed.

(** * Further properties *)

(** ** Colours and noise *)

(** [random_color] always returns three channels, each between 0 and 255,
    and takes three draws of the [random] module. *)
Theorem random_color_channels (w : World) :
  exists r g b,
    random_color w = (Ok [r; g; b], after_random (after_random (after_random w))) /\
    0 <= r <= 255 /\ 0 <= g <= 255 /\ 0 <= b <= 255.
Proof.
  unfold random_color.
  destruct (randint_total 0 255 w) as (r & Er & Hr); [lia|].
  destruct (randint_total 0 255 (after_random w)) as (g & Eg & Hg); [lia|].
  destruct (randint_total 0 255 (after_random (after_random w))) as (b & Eb & Hb); [lia|].
  exists r, g, b.
  rewrite (bind_run _ _ _ _ _ Er), (bind_run _ _ _ _ _ Eg), (bind_run _ _ _ _ _ Eb).
  repeat split; lia.
Qed.

Lemma noise_value_bounds (q : Q) : 0 <= Qfloor (frac q * 255) <= 254.
Proof.
  pose proof (Qfloor_scaled (frac q) 255 (frac_bounds q)) as H.
  change (inject_Z 255) with 255%Q in H. lia.
Qed.

(** [random_noise(width, height)] always returns an RGB image that is
    [height] pixels wide and [width] pixels high, whose channel values lie
    between 0 and 254 (255 never occurs), and it takes
    [width * height * 3] draws of [numpy.random] and none of [random]. *)
Theorem random_noise_range (R : Rasterizer) (width height : Z) (w : World) :
  exists im w',
    random_noise width height w = (Ok im, w') /\
    Image_mode im = RGB /\
    Image_width im = height /\
    Image_height im = width /\
    (forall x y, exists r g b,
        pixel R im x y = [r; g; b] /\
        0 <= r <= 254 /\ 0 <= g <= 254 /\ 0 <= b <= 254) /\
    py_random w' = py_random w /\
    stdout w' = stdout w /\
    position (np_random w') =
      (Z.to_nat (width * height * 3) + position (np_random w))%nat.
Proof.
  eexists. eexists. split; [reflexivity|].
  repeat split.
  intros x y. eexists. eexists. eexists. split; [reflexivity|].
  repeat split; apply noise_value_bounds.
Qed.

(** ** Outlined text *)

Lemma np_normal_run (loc scale : Q) (w : World) :
  np_normal loc scale w = (Ok (loc + scale * np_draw w 0)%Q, after_np w).
Proof. reflexivity. Qed.

Lemma drawn_texts_fold_text {A} (pos : A -> Q * Q) (text : PyStr) (font : Font)
    (fill : Color) (anchor : Anchor) (language : Language) (xs : list A) (im : Image) :
  drawn_texts
    (fold_left (fun im a => Draw_text im (pos a) text font fill anchor language) xs im)
  = repeat (text, font) (length xs) ++ drawn_texts im.
Proof.
  revert im. induction xs as [|a rest IH]; intro im; simpl; [reflexivity|].
  rewrite IH. simpl. rewrite app_comm_cons, repeat_cons, <- app_assoc. reflexivity.
Qed.

Lemma drawn_texts_fold_rows {A B} (pos : A -> B -> Q * Q) (text : PyStr) (font : Font)
    (fill : Color) (anchor : Anchor) (language : Language)
    (xs : list A) (ys : list B) (im : Image) :
  drawn_texts
    (fold_left
       (fun im a =>
          fold_left (fun im b => Draw_text im (pos a b) text font fill anchor language)
                    ys im) xs im)
  = repeat (text, font) (length xs * length ys) ++ drawn_texts im.
Proof.
  revert im. induction xs as [|a rest IH]; intro im; simpl; [reflexivity|].
  rewrite IH, drawn_texts_fold_text, app_assoc, <- repeat_app.
  f_equal. f_equal. lia.
Qed.

Lemma py_range_length (a b : Z) : length (py_range a b) = Z.to_nat (b - a).
Proof. unfold py_range. rewrite length_map, length_seq. reflexivity. Qed.


(** Whenever [draw_outlined_text] (with its default outline colour and
    thickness) returns, its thickness [t] is at least 1, it has drawn the
    text [(2t + 1)^2] times for the outline and then once more, at the given
    position and in the given fill: the last text drawn, on top of the
    outline, is the foreground one. *)
Theorem draw_outlined_text_layers (drawing im : Image) (xy : Q * Q) (text : PyStr)
    (font : Font) (fill : Color) (anchor : Anchor) (language : Language)
    (w w' : World) :
  draw_outlined_text drawing xy text font fill anchor language w = (Ok im, w') ->
  exists under t,
    t = 1 + py_round (Qabs (1 + 1 * np_draw w 0)) /\
    1 <= t /\
    im = Draw_text under xy text font fill anchor language /\
    drawn_texts under =
      repeat (text, font) (Z.to_nat (2 * t + 1) * Z.to_nat (2 * t + 1))
        ++ drawn_texts drawing.
Proof.
  unfold draw_outlined_text.
  destruct (random_color_total w) as (c & Ec).
  rewrite (bind_run _ _ _ _ _ Ec).
  rewrite (bind_run _ _ _ _ _ (np_normal_run 1%Q 1%Q _)).
  change (np_draw (after_random (after_random (after_random w))) 0)
    with (np_draw w 0).
  destruct xy as [x y].
  set (t := 1 + py_round (Qabs (1 + 1 * np_draw w 0))).
  assert (Ht : 1 <= t).
  { pose proof (py_round_nonneg (Qabs (1 + 1 * np_draw w 0)) (Qabs_nonneg _)).
    unfold t. lia. }
  intro H. apply run_Ok_inj in H as [<- _].
  eexists. exists t.
  split; [reflexivity|]. split; [exact Ht|]. split; [reflexivity|].
  rewrite drawn_texts_fold_rows, py_range_length.
  f_equal. f_equal. f_equal; f_equal; lia.
Qed.

(** ** Side occlusion: when it returns, and what it always paints *)

(** [eat_sides] returns only when the box of the rounded edges lies on the
    canvas: [0 <= round left], [round right <= width], [0 <= round top] and
    [round bottom <= height].  For any other box one of its four [randint]
    calls has an empty range, and no canvas comes back.  The order of [left]
    and [right], or of [top] and [bottom], plays no part. *)
Theorem eat_sides_returns_only_on_canvas (image image' : Image)
    (left right top bottom : Q) (w w' : World) :
  eat_sides image left right top bottom w = (Ok image', w') ->
  0 <= py_round left /\ py_round right <= Image_width image /\
  0 <= py_round top /\ py_round bottom <= Image_height image.
Proof.
  intro H.
  apply eat_sides_Ok in H as (color & a & b & c & d & _ & Ha & Hb & Hc & Hd).
  lia.
Qed.

Lemma eat_sides_returns_only_on_canvas_witness :
  0 <= py_round 30 /\ py_round 90 <= Image_width (Image_new RGB 128 128 WHITE_COLOR) /\
  0 <= py_round 40 /\ py_round 80 <= Image_height (Image_new RGB 128 128 WHITE_COLOR).
Proof.
  apply (eat_sides_returns_only_on_canvas (Image_new RGB 128 128 WHITE_COLOR)
           (eaten (Image_new RGB 128 128 WHITE_COLOR) BLACK_COLOR 0 128 0 128)
           30 90 40 80
           (world_of [0; 0; 0; 0; 255 # 256; 0; 255 # 256]%Q [])
           (after_random (after_random (after_random (after_random
              (after_random (after_random (after_random
                (world_of [0; 0; 0; 0; 255 # 256; 0; 255 # 256]%Q []))))))))).
  vm_compute. reflexivity.
Defined.

(** Whenever [eat_sides] returns, the first column and the first row of
    the canvas carry its colour: the left and top rectangles are at least
    one pixel thick. *)
Theorem eat_sides_eats_first_column_and_row (R : Rasterizer) (image image' : Image)
    (left right top bottom : Q) (w w' : World) :
  eat_sides image left right top bottom w = (Ok image', w') ->
  exists color,
    forall x y,
      0 <= x < Image_width image -> 0 <= y < Image_height image ->
      x = 0 \/ y = 0 ->
      pixel R image' x y = color.
Proof.
  intro H.
  apply eat_sides_Ok in H as (color & a & b & c & d & -> & Ha & Hb & Hc & Hd).
  exists color. intros x y Hx Hy Hedge. unfold eaten. simpl.
  repeat match goal with
         | |- (if ?c then _ else _) = _ => destruct c eqn:?; [reflexivity|]
         end.
  exfalso. unfold in_rectangle in *. simpl fst in *. simpl snd in *.
  repeat match goal with
         | H : _ && _ = false |- _ => apply andb_false_iff in H
         end.
  rewrite ?Z.leb_gt in *.
  destruct Hedge; subst; lia.
Qed.

Lemma eat_sides_eats_first_column_and_row_witness :
  exists color,
    forall x y,
      0 <= x < Image_width (Image_new RGB 128 128 WHITE_COLOR) ->
      0 <= y < Image_height (Image_new RGB 128 128 WHITE_COLOR) ->
      x = 0 \/ y = 0 ->
      pixel blank_rasterizer
        (eaten (Image_new RGB 128 128 WHITE_COLOR) BLACK_COLOR 0 128 0 128) x y = color.
Proof.
  apply (eat_sides_eats_first_column_and_row blank_rasterizer
           (Image_new RGB 128 128 WHITE_COLOR)
           (eaten (Image_new RGB 128 128 WHITE_COLOR) BLACK_COLOR 0 128 0 128)
           10 20 10 100
           (world_of [0; 0; 0; 0; 255 # 256; 0; 255 # 256]%Q [])
           (after_random (after_random (after_random (after_random
              (after_random (after_random (after_random
                (world_of [0; 0; 0; 0; 255 # 256; 0; 255 # 256]%Q []))))))))).
  vm_compute. reflexivity.
Defined.

(** ** Weighted choices: font sizes and text effects *)

Lemma Qltb_true (a b : Q) : Qltb a b = true <-> (a < b)%Q.
Proof. unfold Qltb. fold (Qgtb b a). apply Qgtb_true. Qed.

Lemma Qltb_false (a b : Q) : Qltb a b = false <-> (b <= a)%Q.
Proof. unfold Qltb. fold (Qgtb b a). apply Qgtb_false. Qed.

Lemma Qle_bool_false (a b : Q) : Qle_bool a b = false <-> (b < a)%Q.
Proof.
  split; intro H.
  - apply Qnot_le_lt. intro Hle. apply Qle_bool_iff in Hle. congruence.
  - destruct (Qle_bool a b) eqn:E; [|reflexivity]. apply Qle_bool_iff in E. lra.
Qed.

Ltac decide_Qle_bool :=
  repeat match goal with
         | |- context [Qle_bool ?a ?b] =>
             let E := fresh "E" in
             destruct (Qle_bool a b) eqn:E;
             [apply Qle_bool_iff in E | apply Qle_bool_false in E]
         end.

Lemma choices_weighted_run {A} (population : list A) (ws : list Q) (w : World) :
  length ws = length population ->
  Qle_bool (last (accumulate 0 ws) 0%Q) 0 = false ->
  choices population (Some ws) w =
    getitem population (choices_index (length population) (Some ws) (uniform_draw w))
            (after_random w).
Proof.
  intros Hlen Htotal. unfold choices.
  rewrite Hlen, Nat.eqb_refl, Htotal. reflexivity.
Qed.

(** [bisect([10, 13, 14, 15], random() * 15.0, 0, 3)] by the draw
    [k * 2^-53]. *)
Lemma font_size_index (k : Z) :
  0 <= k < 9007199254740992 ->
  choices_index 4 (Some [10; 3; 1; 1]%Q) (k # 9007199254740992) =
    if k <? 6004799503160661 then 0
    else if k <? 7806239354108860 then 1
    else if k <? 8406719304424926 then 2
    else 3.
Proof.
  intros [Hk0 Hk1]. unfold choices_index. cbn [accumulate last Nat.sub bisect].
  set (n := (0 + 10 + 3 + 1 + 1)%Q).
  assert (Hn : (0 <= n)%Q) by discriminate.
  set (x := double ((k # 9007199254740992) * n)).
  destruct (k <? 6004799503160661) eqn:E1.
  { apply Z.ltb_lt in E1.
    assert (Hi : (x <= double ((6004799503160660 # 9007199254740992) * n))%Q).
    { apply double_mono; [apply draw_scaled_nonneg; assumption
                         | apply draw_scaled_le; [exact Hn | lia]]. }
    assert (C : (double ((6004799503160660 # 9007199254740992) * n) < 10)%Q)
      by (vm_compute; reflexivity).
    decide_Qle_bool; try reflexivity; exfalso; lra. }
  apply Z.ltb_ge in E1.
  assert (Lo1 : (10 <= x)%Q).
  { assert (C : (10 <= double ((6004799503160661 # 9007199254740992) * n))%Q)
      by (vm_compute; discriminate).
    assert (Lo : (double ((6004799503160661 # 9007199254740992) * n) <= x)%Q).
    { apply double_mono; [discriminate | apply draw_scaled_le; [exact Hn | lia]]. }
    lra. }
  destruct (k <? 7806239354108860) eqn:E2.
  { apply Z.ltb_lt in E2.
    assert (Hi : (x <= double ((7806239354108859 # 9007199254740992) * n))%Q).
    { apply double_mono; [apply draw_scaled_nonneg; assumption
                         | apply draw_scaled_le; [exact Hn | lia]]. }
    assert (C : (double ((7806239354108859 # 9007199254740992) * n) < 13)%Q)
      by (vm_compute; reflexivity).
    decide_Qle_bool; try reflexivity; exfalso; lra. }
  apply Z.ltb_ge in E2.
  assert (Lo2 : (13 <= x)%Q).
  { assert (C : (13 <= double ((7806239354108860 # 9007199254740992) * n))%Q)
      by (vm_compute; discriminate).
    assert (Lo : (double ((7806239354108860 # 9007199254740992) * n) <= x)%Q).
    { apply double_mono; [discriminate | apply draw_scaled_le; [exact Hn | lia]]. }
    lra. }
  destruct (k <? 8406719304424926) eqn:E3.
  { apply Z.ltb_lt in E3.
    assert (Hi : (x <= double ((8406719304424925 # 9007199254740992) * n))%Q).
    { apply double_mono; [apply draw_scaled_nonneg; assumption
                         | apply draw_scaled_le; [exact Hn | lia]]. }
    assert (C : (double ((8406719304424925 # 9007199254740992) * n) < 14)%Q)
      by (vm_compute; reflexivity).
    decide_Qle_bool; try reflexivity; exfalso; lra. }
  apply Z.ltb_ge in E3.
  assert (Lo3 : (14 <= x)%Q).
  { assert (C : (14 <= double ((8406719304424926 # 9007199254740992) * n))%Q)
      by (vm_compute; discriminate).
    assert (Lo : (double ((8406719304424926 # 9007199254740992) * n) <= x)%Q).
    { apply double_mono; [discriminate | apply draw_scaled_le; [exact Hn | lia]]. }
    lra. }
  decide_Qle_bool; try reflexivity; exfalso; lra.
Qed.

(** The same thresholds on the double [r = k * 2^-53]: the first is the
    largest double below 2/3, the other two are 13/15 and 14/15. *)
Lemma font_size_thresholds (k : Z) :
  0 <= k < 9007199254740992 ->
  let r := (k # 9007199254740992)%Q in
  Qltb r (6004799503160661 # 9007199254740992) = (k <? 6004799503160661) /\
  Qltb r (13 # 15) = (k <? 7806239354108860) /\
  Qltb r (14 # 15) = (k <? 8406719304424926).
Proof.
  intros Hk r. unfold r.
  repeat split;
    match goal with
    | |- Qltb ?a ?b = (?k <? ?t) =>
        destruct (k <? t) eqn:E;
        [apply Z.ltb_lt in E; apply Qltb_true | apply Z.ltb_ge in E; apply Qltb_false];
        unfold Qlt, Qle; simpl; lia
    end.
Qed.

(** [random_font_size] always returns.  It draws all four normal variates
    (centred at 15, 20, 35 and 50, deviation 3), then keeps one of them with
    weights 10 : 3 : 1 : 1 by the double [r] that [random()] returns, and
    truncates it towards zero.  It keeps the second when [r < 13/15], the
    third when [r < 14/15] and the fourth otherwise; the first it keeps when
    [r < 6004799503160661 * 2^-53], the largest double below 2/3, for which
    [r * 15.0] is already rounded to 10.0. *)
Theorem random_font_size_mixture (w : World) :
  let r := uniform_draw w in
  let normal (loc : Q) (i : nat) : Q := (loc + 3 * np_draw w i)%Q in
  random_font_size w =
    (Ok (py_int (if Qltb r (6004799503160661 # 9007199254740992) then normal 15%Q 0%nat
                 else if Qltb r (13 # 15) then normal 20%Q 1%nat
                 else if Qltb r (14 # 15) then normal 35%Q 2%nat
                 else normal 50%Q 3%nat)),
     after_random (after_np (after_np (after_np (after_np w))))) /\
  ((6004799503160661 # 9007199254740992 < 2 # 3)%Q /\
   forall k, (k # 9007199254740992 < 2 # 3)%Q -> k <= 6004799503160661).
Proof.
  intros r normal. split.
  2:{ split; [reflexivity|]. intros k Hk. unfold Qlt in Hk. simpl in Hk. lia. }
  unfold random_font_size.
  rewrite (bind_run _ _ _ _ _ (np_normal_run 15%Q 3%Q _)).
  rewrite (bind_run _ _ _ _ _ (np_normal_run 20%Q 3%Q _)).
  rewrite (bind_run _ _ _ _ _ (np_normal_run 35%Q 3%Q _)).
  rewrite (bind_run _ _ _ _ _ (np_normal_run 50%Q 3%Q _)).
  unfold bind at 1. rewrite choices_weighted_run by reflexivity.
  change (uniform_draw (after_np (after_np (after_np (after_np w))))) with r.
  cbn [length].
  destruct (uniform_draw_double w) as (k & Hk & E). fold r in E. rewrite E.
  rewrite (font_size_index k Hk).
  destruct (font_size_thresholds k Hk) as (T1 & T2 & T3). cbv zeta in T1, T2, T3.
  rewrite T1, T2, T3.
  destruct (k <? 6004799503160661); [reflexivity|].
  destruct (k <? 7806239354108860); [reflexivity|].
  destruct (k <? 8406719304424926); reflexivity.
Qed.

(** ** Backgrounds: crops and sizes *)

Section Backgrounds.

Context {Tensor : Type}.
Variable self : @Dataset Tensor.

(** When there is at least one background image and every one is at least
    2 x 2 pixels, [random_background_image] returns: a stored image,
    resized to the requested size from a crop box that is not empty and
    lies inside that image. *)
Theorem random_background_image_crop (width height : Z) (w : World) :
  background_images self <> [] ->
  Forall (fun im => 2 <= Image_width im /\ 2 <= Image_height im)
         (background_images self) ->
  exists background bg_left bg_top bg_right bg_bottom w',
    random_background_image self width height w =
      (Ok (Image_resize background width height (bg_left, bg_top, bg_right, bg_bottom)),
       w') /\
    In background (background_images self) /\
    0 <= bg_left < bg_right /\ bg_right <= Image_width background /\
    0 <= bg_top < bg_bottom /\ bg_bottom <= Image_height background.
Proof.
  intros Hne Hbig. rewrite Forall_forall in Hbig.
  unfold random_background_image.
  destruct (choice_returns _ Hne w) as (background & w1 & E1 & Hin).
  destruct (Hbig _ Hin) as [Hw Hh].
  rewrite (bind_run _ _ _ _ _ E1).
  destruct (randint_total 0 (Image_width background - 2) w1) as (l & El & Hl); [lia|].
  rewrite (bind_run _ _ _ _ _ El).
  destruct (randint_total (l + 1) (Image_width background) (after_random w1))
    as (r & Er & Hr); [lia|].
  rewrite (bind_run _ _ _ _ _ Er).
  destruct (randint_total 0 (Image_height background - 2)
              (after_random (after_random w1))) as (t & Et & Ht); [lia|].
  rewrite (bind_run _ _ _ _ _ Et).
  destruct (randint_total (t + 1) (Image_height background)
              (after_random (after_random (after_random w1)))) as (b & Eb & Hb); [lia|].
  rewrite (bind_run _ _ _ _ _ Eb).
  exists background, l, t, r, b. eexists. split; [reflexivity|].
  repeat split; try assumption; lia.
Qed.

Lemma Mode_eqb_eq (a b : Mode) : Mode_eqb a b = true -> a = b.
Proof. destruct a, b; simpl; congruence. Qed.

Lemma blend_Ok_matching (im1 im2 im : Image) (alpha : Q) (w w' : World) :
  blend im1 im2 alpha w = (Ok im, w') ->
  im = Image_blend im1 im2 alpha /\
  Image_mode im1 = Image_mode im2 /\
  Image_width im1 = Image_width im2 /\
  Image_height im1 = Image_height im2.
Proof.
  unfold blend.
  destruct (Mode_eqb (Image_mode im1) (Image_mode im2)) eqn:Em; [|discriminate].
  destruct (Image_width im1 =? Image_width im2) eqn:Ew; [|discriminate].
  destruct (Image_height im1 =? Image_height im2) eqn:Eh; [|discriminate].
  simpl. intro H. apply run_Ok_inj in H as [<- _].
  apply Mode_eqb_eq in Em. apply Z.eqb_eq in Ew. apply Z.eqb_eq in Eh. auto.
Qed.

Lemma noise_base_size (c : bool) (width height : Z) (image : Image) (w w' : World) :
  (if c then random_background_image self width height
   else color <- random_color ;; ret (Image_new RGB width height color)) w
  = (Ok image, w') ->
  Image_width image = width /\ Image_height image = height.
Proof.
  destruct c; intro H.
  - apply random_background_image_Ok in H as (bg & box & _ & ->). split; reflexivity.
  - bind_inv H. apply run_Ok_inj in H as [<- _]. split; reflexivity.
Qed.

(** A background that [generate_background] returns has the requested
    size.  In the noise mode (uniform draw below 1/3) it returns only for a
    square size, since the noise image is [height] wide and [width] high;
    the result is then a blend of an RGB base with the noise at a factor
    between 0 and 1. *)
Theorem generate_background_size (width height : Z) (im : Image) (w w' : World) :
  generate_background self width height w = (Ok im, w') ->
  Image_width im = width /\
  Image_height im = height /\
  ((uniform_draw w < 1 # 3)%Q ->
   width = height /\
   exists base noise_image alpha,
     im = Image_blend base noise_image alpha /\
     Image_mode base = RGB /\
     (0 <= alpha <= 1)%Q).
Proof.
  intro H. destruct (background_mode_run w) as (M0 & M1 & M2).
  unfold generate_background in H.
  destruct (Qlt_le_dec (uniform_draw w) (1 # 3)) as [Hr | Hr].
  - rewrite (bind_run _ _ _ _ _ (M0 Hr)) in H.
    bind_inv H. bind_inv H. apply noise_base_size in E0 as [Hbw Hbh].
    bind_inv H. unfold random_noise in E0. apply run_Ok_inj in E0 as [<- _].
    bind_inv H. apply blend_Ok_matching in H as (-> & Hm & Hw & Hh).
    simpl in Hm, Hw, Hh. simpl.
    split; [exact Hbw|]. split; [exact Hbh|]. intros _.
    split; [congruence|].
    eexists. eexists. eexists. split; [reflexivity|]. split; [exact Hm|].
    split.
    + apply Q.min_glb; [apply Qabs_nonneg | discriminate].
    + apply Q.le_min_r.
  - destruct (Qlt_le_dec (uniform_draw w) (6004799503160661 # 9007199254740992))
      as [Hr2 | Hr2].
    + rewrite (bind_run _ _ _ _ _ (M1 (conj Hr Hr2))) in H.
      apply random_background_image_Ok in H as (bg & box & _ & ->).
      split; [reflexivity|]. split; [reflexivity|]. intro. exfalso. lra.
    + rewrite (bind_run _ _ _ _ _ (M2 Hr2)) in H.
      bind_inv H. apply run_Ok_inj in H as [<- _].
      split; [reflexivity|]. split; [reflexivity|]. intro. exfalso. lra.
Qed.

End Backgrounds.

(** ** The single-glyph stages, 0 to 5 *)

Lemma random_Ok (r : Q) (w w' : World) :
  random w = (Ok r, w') -> (0 <= r < 1)%Q /\ r = uniform_draw w /\ w' = after_random w.
Proof.
  rewrite random_run. intro H. apply run_Ok_inj in H as [<- <-].
  split; [apply uniform_draw_bounds | split; reflexivity].
Qed.

Lemma getitem_head {A} (l : list A) (a : A) (w w' : World) :
  getitem l 0 w = (Ok a, w') -> exists rest, l = a :: rest.
Proof.
  intro H. apply getitem_Ok in H as (_ & _ & H).
  destruct H as [_ H]; [lia|]. destruct l as [|x rest]; [discriminate|].
  simpl in H. injection H as ->. exists rest. reflexivity.
Qed.

Lemma filter_head {A} (f : A -> bool) (l : list A) (a : A) (rest : list A) :
  filter f l = a :: rest ->
  exists earlier later,
    l = earlier ++ a :: later /\ f a = true /\ Forall (fun x => f x = false) earlier.
Proof.
  induction l as [|x l IH]; simpl; [discriminate|].
  destruct (f x) eqn:Ex.
  - intro H. injection H as -> _. exists [], l. repeat split; auto.
  - intro H. destruct (IH H) as (earlier & later & -> & Ha & Hall).
    exists (x :: earlier), later. repeat split; auto.
Qed.

Lemma random_offset_bounds (extent r : Q) :
  (0 <= extent)%Q -> (0 <= r < 1)%Q ->
  (- ((2 # 5) * extent) <= inject_Z (random_offset extent r) <= (2 # 5) * extent)%Q.
Proof.
  intros He [Hr0 Hr1]. unfold random_offset, py_int.
  set (v := ((extent / 2 - r * extent) * (8 # 10))%Q).
  assert (Hre : (0 <= r * extent <= extent)%Q).
  { split; [apply Qmult_le_0_compat; assumption|].
    setoid_replace extent with (1 * extent)%Q at 2 by ring.
    apply Qmult_le_compat_r; [lra | exact He]. }
  assert (Hv : (- ((2 # 5) * extent) <= v <= (2 # 5) * extent)%Q).
  { assert (Ev : (v == (2 # 5) * extent - (4 # 5) * (r * extent))%Q)
      by (unfold v; field).
    rewrite Ev. clear Ev. clearbody v. destruct Hre as [Hp0 Hp1].
    set (p := (r * extent)%Q) in *. clearbody p. lra. }
  destruct (Qle_bool 0 v) eqn:E.
  - apply Qle_bool_iff in E. pose proof (Qfloor_bounds v) as [Flo _].
    assert (0 <= Qfloor v).
    { change 0 with (Qfloor 0). apply Qfloor_resp_le. exact E. }
    assert ((0 <= inject_Z (Qfloor v))%Q) by (apply (inject_Z_le 0); assumption).
    lra.
  - apply Qle_bool_false in E. pose proof (Qle_ceiling v) as Hc.
    assert (Qceiling v <= 0).
    { change 0 with (Qceiling 0). apply Qceiling_resp_le. lra. }
    assert ((inject_Z (Qceiling v) <= 0)%Q) by (apply (inject_Z_le _ 0); assumption).
    lra.
Qed.

Section SingleGlyphStages.

Context {Tensor : Type}.
Variable self : @Dataset Tensor.

Lemma drawn_from_intro (label : Z) (character : PyStr) (font_info : FontInfo)
    (font_size : Z) (background fill : Color) (xy : Q * Q) (w0 w1 w2 : World) :
  randrange 0 (len (characters self)) w0 = (Ok label, w1) ->
  getitem (characters self) label w1 = (Ok character, w2) ->
  In font_info (fonts_supporting_glyph self character) ->
  drawn_from self
    {| gd_label := label; gd_character := character; gd_font_info := font_info;
       gd_font_size := font_size; gd_background := background; gd_fill := fill;
       gd_xy := xy |}.
Proof.
  intros Hl Hc Hf. apply randrange_Ok in Hl as [Hl _].
  apply getitem_Ok in Hc as (_ & _ & Hc). destruct (Hc (proj1 Hl)) as [_ Hnth].
  repeat split; simpl; try assumption; lia.
Qed.

Ltac unroll H :=
  repeat (lazymatch type of H with
          | bind _ _ _ = (Ok _, _) => bind_inv H
          | (match getbbox ?f ?t ?a ?l with _ => _ end) _ = _ =>
              let E := fresh "Ebox" in
              destruct (getbbox f t a l) as [[[? ?] ?] ?] eqn:E
          end; cbv beta zeta in H);
  rewrite return_sample_run in H; apply run_Ok_inj in H as [<- _].

Ltac glyph_facts :=
  repeat match goal with
         | Hf : getitem (fonts_supporting_glyph _ _) 0 _ = (Ok _, _) |- _ =>
             let Hh := fresh "Hhead" in
             pose proof (getitem_head _ _ _ _ Hf) as Hh;
             apply getitem_Ok in Hf as (Hf & _)
         | Hf : choice (fonts_supporting_glyph _ _) _ = (Ok _, _) |- _ =>
             apply choice_Ok in Hf
         end.

Ltac glyph_sample_exists :=
  glyph_facts;
  match goal with
  | Hl : randrange 0 _ _ = (Ok ?label, _),
    Hc : getitem (characters _) ?label _ = (Ok ?character, _),
    Hf : In ?font_info (fonts_supporting_glyph _ ?character)
    |- exists d,
        (present _ (Draw_text (Image_new RGB 128 128 ?bg) ?xy _ (FontInfo_get _ ?size)
                              ?fill mm ja), _, _) = _ /\ _ =>
      exists {| gd_label := label; gd_character := character;
                gd_font_info := font_info; gd_font_size := size;
                gd_background := bg; gd_fill := fill; gd_xy := xy |};
      split; [reflexivity |
              split; [exact (drawn_from_intro _ _ _ size bg fill xy _ _ _ Hl Hc Hf)|]]
  end.

Lemma generate_stage_0_draws (s : Sample) (w w' : World) :
  generate_stage_0 self w = (Ok s, w') ->
  exists d,
    s = glyph_sample self d /\ drawn_from self d /\
    (exists rest, fonts_supporting_glyph self (gd_character d) = gd_font_info d :: rest) /\
    gd_font_size d = 32 /\ gd_xy d = (64, 64)%Q /\
    gd_background d = WHITE_COLOR /\ gd_fill d = BLACK_COLOR.
Proof.
  unfold generate_stage_0. intro H. unroll H. glyph_sample_exists.
  simpl. repeat split; try reflexivity. assumption.
Qed.

Lemma generate_stage_1_draws (s : Sample) (w w' : World) :
  generate_stage_1 self w = (Ok s, w') ->
  exists d,
    s = glyph_sample self d /\ drawn_from self d /\
    (exists rest, fonts_supporting_glyph self (gd_character d) = gd_font_info d :: rest) /\
    gd_font_size d = 32 /\ gd_xy d = (64, 64)%Q /\
    (gd_background d, gd_fill d) =
      (if Qgtb (uniform_draw (after_random w)) (1 # 2)
       then (BLACK_COLOR, WHITE_COLOR) else (WHITE_COLOR, BLACK_COLOR)).
Proof.
  unfold generate_stage_1. intro H. unroll H.
  match goal with
  | Hl : randrange 0 _ w = _ |- _ => pose proof (proj2 (randrange_Ok _ _ _ _ _ Hl)) as Hw
  end.
  match goal with
  | Hc : getitem (characters _) _ _ = _ |- _ =>
      pose proof (proj1 (proj2 (getitem_Ok _ _ _ _ _ Hc))) as Hw1
  end.
  match goal with
  | Hf : getitem (fonts_supporting_glyph _ _) _ _ = _ |- _ =>
      pose proof (proj1 (proj2 (getitem_Ok _ _ _ _ _ Hf))) as Hw2
  end.
  match goal with
  | Hr : random _ = _ |- _ => apply random_Ok in Hr as (_ & Hr & _)
  end.
  subst. glyph_sample_exists.
  simpl. repeat split; try reflexivity; try assumption.
  destruct (Qgtb _ _); reflexivity.
Qed.

Lemma generate_stage_2_draws (s : Sample) (w w' : World) :
  generate_stage_2 self w = (Ok s, w') ->
  exists d,
    s = glyph_sample self d /\ drawn_from self d /\
    (exists rest, fonts_supporting_glyph self (gd_character d) = gd_font_info d :: rest) /\
    gd_font_size d = 32 /\ gd_xy d = (64, 64)%Q.
Proof.
  unfold generate_stage_2. intro H. unroll H. glyph_sample_exists.
  simpl. repeat split; try reflexivity. assumption.
Qed.

Lemma generate_stage_3_draws (s : Sample) (w w' : World) :
  generate_stage_3 self w = (Ok s, w') ->
  exists d,
    s = glyph_sample self d /\ drawn_from self d /\
    (exists rest, fonts_supporting_glyph self (gd_character d) = gd_font_info d :: rest) /\
    (gd_font_size d = 20 \/ gd_font_size d = 32) /\ gd_xy d = (64, 64)%Q.
Proof.
  unfold generate_stage_3. intro H. unroll H.
  match goal with
  | Hs : choice [20; 32] _ = _ |- _ => apply choice_Ok in Hs; simpl in Hs
  end.
  glyph_sample_exists.
  simpl. repeat split; try reflexivity; try assumption. intuition.
Qed.

Lemma generate_stage_4_draws (s : Sample) (w w' : World) :
  generate_stage_4 self w = (Ok s, w') ->
  exists d,
    s = glyph_sample self d /\ drawn_from self d /\
    8 <= gd_font_size d /\ gd_xy d = (64, 64)%Q.
Proof.
  unfold generate_stage_4. intro H. unroll H. glyph_sample_exists.
  simpl. split; [lia | reflexivity].
Qed.

Lemma generate_stage_5_draws (s : Sample) (w w' : World) :
  generate_stage_5 self w = (Ok s, w') ->
  exists d,
    s = glyph_sample self d /\ drawn_from self d /\
    8 <= gd_font_size d /\
    exists bb_left bb_top width height rx ry,
      getbbox (gd_font d) (gd_character d) lt ja = (bb_left, bb_top, width, height) /\
      (0 <= rx < 1)%Q /\ (0 <= ry < 1)%Q /\
      gd_xy d = (64 + inject_Z (random_offset (inject_Z width) rx),
                 64 + inject_Z (random_offset (inject_Z height) ry))%Q.
Proof.
  unfold generate_stage_5. intro H. unroll H.
  repeat match goal with
         | Hr : random _ = (Ok _, _) |- _ => apply random_Ok in Hr as (Hr & _ & _)
         end.
  glyph_sample_exists.
  simpl. split; [lia|].
  do 6 eexists. split; [eassumption|].
  split; [|split; [|reflexivity]]; assumption.
Qed.

Lemma single_glyph_stage_draws (g : M Sample) (s : Sample) (w w' : World) :
  In g (firstn 6 (stage_generators self)) ->
  g w = (Ok s, w') ->
  exists d, s = glyph_sample self d /\ drawn_from self d.
Proof.
  simpl. intros [<- | [<- | [<- | [<- | [<- | [<- | []]]]]]] H.
  - apply generate_stage_0_draws in H as (d & ? & ? & _). eauto.
  - apply generate_stage_1_draws in H as (d & ? & ? & _). eauto.
  - apply generate_stage_2_draws in H as (d & ? & ? & _). eauto.
  - apply generate_stage_3_draws in H as (d & ? & ? & _). eauto.
  - apply generate_stage_4_draws in H as (d & ? & ? & _). eauto.
  - apply generate_stage_5_draws in H as (d & ? & ? & _). eauto.
Qed.

(** In stages 0 to 5 the sample is a single text drawing call, the labelled
    character on a plain 128 x 128 RGB canvas, and the region score draws
    that same character with the same font at the same position and anchor,
    in 255 on a black single-channel canvas of the same size: sample and
    region score show the glyph at the same place. *)
Theorem single_glyph_stages_align (g : M Sample) (image region_score : Image + Tensor)
    (label : Z) (w w' : World) :
  In g (firstn 6 (stage_generators self)) ->
  g w = (Ok (image, label, region_score), w') ->
  exists character font background fill xy,
    nth_error (characters self) (Z.to_nat label) = Some character /\
    image = present self (Draw_text (Image_new RGB 128 128 background) xy character font
                                    fill mm ja) /\
    region_score = present self (Draw_text (Image_new L 128 128 [0]) xy character font
                                           [255] mm ja).
Proof.
  intros Hg H.
  destruct (single_glyph_stage_draws g _ w w' Hg H) as (d & Es & _ & Hnth & _).
  unfold glyph_sample in Es. injection Es as -> -> ->.
  exists (gd_character d), (gd_font d), (gd_background d), (gd_fill d), (gd_xy d).
  repeat split. exact Hnth.
Qed.

Lemma first_supporting_font (character : PyStr) (font_info : FontInfo)
    (rest : list FontInfo) :
  fonts_supporting_glyph self character = font_info :: rest ->
  exists earlier later,
    font_infos self = earlier ++ font_info :: later /\
    In character (supported_glyphs font_info) /\
    Forall (fun f => ~ In character (supported_glyphs f)) earlier.
Proof.
  unfold fonts_supporting_glyph. intro H.
  apply filter_head in H as (earlier & later & E & Ha & Hall).
  exists earlier, later. split; [exact E|]. split; [apply str_in_In; exact Ha|].
  eapply Forall_impl; [|exact Hall]. simpl. intros f Hf Hin.
  apply str_in_In in Hin. congruence.
Qed.

(** Stages 0 to 3 render with the first font of the catalog, in catalog
    order, that supports the labelled character: every font before it in
    the catalog lacks the character. *)
Theorem early_stages_use_first_supporting_font (g : M Sample)
    (image region_score : Image + Tensor) (label : Z) (w w' : World) :
  In g (firstn 4 (stage_generators self)) ->
  g w = (Ok (image, label, region_score), w') ->
  exists character font_info font_size earlier later,
    nth_error (characters self) (Z.to_nat label) = Some character /\
    font_infos self = earlier ++ font_info :: later /\
    In character (supported_glyphs font_info) /\
    Forall (fun f => ~ In character (supported_glyphs f)) earlier /\
    region_score =
      present self (generate_only_char (64, 64)%Q character
                      (FontInfo_get font_info font_size) BLACK_COLOR mm ja).
Proof.
  simpl. intros Hg H.
  assert (Hd : exists d,
             (image, label, region_score) = glyph_sample self d /\ drawn_from self d /\
             (exists rest,
                fonts_supporting_glyph self (gd_character d) = gd_font_info d :: rest) /\
             gd_xy d = (64, 64)%Q).
  { destruct Hg as [<- | [<- | [<- | [<- | []]]]].
    - apply generate_stage_0_draws in H as (d & ? & ? & ? & ? & ? & _). eauto.
    - apply generate_stage_1_draws in H as (d & ? & ? & ? & ? & ? & _). eauto.
    - apply generate_stage_2_draws in H as (d & ? & ? & ? & ? & ?). eauto.
    - apply generate_stage_3_draws in H as (d & ? & ? & ? & ? & ?). eauto. }
  destruct Hd as (d & Es & (_ & Hnth & _) & (rest & Hfirst) & Hxy).
  destruct (first_supporting_font _ _ _ Hfirst) as (earlier & later & E & Hsup & Hall).
  unfold glyph_sample in Es. injection Es as -> -> ->.
  exists (gd_character d), (gd_font_info d), (gd_font_size d), earlier, later.
  repeat split; try assumption. rewrite Hxy. reflexivity.
Qed.

(** Stage 1 has exactly two looks, chosen by its second uniform draw: white
    on black when the draw exceeds 1/2, black on white otherwise; the glyph
    is centred and rendered at 32 pixels. *)
Theorem stage_1_polarity (image region_score : Image + Tensor) (label : Z)
    (w w' : World) :
  generate_stage_1 self w = (Ok (image, label, region_score), w') ->
  exists character font_info,
    let font := FontInfo_get font_info 32 in
    nth_error (characters self) (Z.to_nat label) = Some character /\
    image =
      present self
        (if Qgtb (uniform_draw (after_random w)) (1 # 2)
         then Draw_text (Image_new RGB 128 128 BLACK_COLOR) (64, 64)%Q character font
                        WHITE_COLOR mm ja
         else Draw_text (Image_new RGB 128 128 WHITE_COLOR) (64, 64)%Q character font
                        BLACK_COLOR mm ja).
Proof.
  intro H.
  apply generate_stage_1_draws in H as (d & Es & (_ & Hnth & _) & _ & Hsize & Hxy & Hcol).
  unfold glyph_sample, gd_font in Es. injection Es as -> -> ->.
  exists (gd_character d), (gd_font_info d). cbv zeta.
  split; [exact Hnth|]. rewrite Hsize, Hxy.
  destruct (Qgtb (uniform_draw (after_random w)) (1 # 2));
    injection Hcol as -> ->; reflexivity.
Qed.

(** In stage 5 the glyph is moved from the centre by at most two fifths of
    its measured width and height (80% of half the extent), so that part of
    it stays over the centre of the canvas. *)
Theorem stage_5_offset_bounded (image region_score : Image + Tensor) (label : Z)
    (w w' : World) :
  generate_stage_5 self w = (Ok (image, label, region_score), w') ->
  exists d bb_left bb_top width height,
    (image, label, region_score) = glyph_sample self d /\
    getbbox (gd_font d) (gd_character d) lt ja = (bb_left, bb_top, width, height) /\
    (0 <= width ->
     (- ((2 # 5) * inject_Z width) <= fst (gd_xy d) - 64 <= (2 # 5) * inject_Z width)%Q) /\
    (0 <= height ->
     (- ((2 # 5) * inject_Z height) <= snd (gd_xy d) - 64
      <= (2 # 5) * inject_Z height)%Q).
Proof.
  intro H.
  apply generate_stage_5_draws in H
    as (d & Es & _ & _ & bl & bt & width & height & rx & ry & Ebox & Hrx & Hry & Hxy).
  exists d, bl, bt, width, height.
  split; [exact Es|]. split; [exact Ebox|]. rewrite Hxy. simpl fst. simpl snd.
  split; intro Hpos.
  - pose proof (random_offset_bounds (inject_Z width) rx) as B.
    assert (Hq : (0 <= inject_Z width)%Q) by (apply (inject_Z_le 0); exact Hpos).
    specialize (B Hq Hrx). lra.
  - pose proof (random_offset_bounds (inject_Z height) ry) as B.
    assert (Hq : (0 <= inject_Z height)%Q) by (apply (inject_Z_le 0); exact Hpos).
    specialize (B Hq Hry). lra.
Qed.

(** On a non-empty character set whose characters all have a supporting
    font, stage 0 always returns, after one call into the [random] module:
    a character of the set under its index, in black on white, centred, at
    32 pixels, in the first font that supports it. *)
Theorem stage_0_returns (w : World) :
  characters self <> [] ->
  (forall character, In character (characters self) ->
     fonts_supporting_glyph self character <> []) ->
  exists label character font_info rest,
    0 <= label < len (characters self) /\
    nth_error (characters self) (Z.to_nat label) = Some character /\
    fonts_supporting_glyph self character = font_info :: rest /\
    generate_stage_0 self w =
      (Ok (glyph_sample self
             {| gd_label := label; gd_character := character;
                gd_font_info := font_info; gd_font_size := 32;
                gd_background := WHITE_COLOR; gd_fill := BLACK_COLOR;
                gd_xy := (64, 64)%Q |}),
       after_random w).
Proof.
  intros Hne Hsup.
  set (label := Qfloor (uniform_draw w * inject_Z (len (characters self)))).
  assert (Hlen : 0 < len (characters self)).
  { unfold len. destruct (characters self); [congruence | simpl; lia]. }
  assert (Hlabel : 0 <= label < len (characters self)).
  { apply Qfloor_scaled; [apply uniform_draw_bounds | exact Hlen]. }
  assert (El : randrange 0 (len (characters self)) w = (Ok label, after_random w)).
  { rewrite randrange_run by exact Hlen. unfold label.
    rewrite Z.sub_0_r, Z.add_0_l. reflexivity. }
  destruct (getitem_returns (characters self) label Hlabel (after_random w))
    as (character & w1 & Ec & Hin).
  pose proof (getitem_Ok _ _ _ _ _ Ec) as (_ & -> & Hnth).
  destruct (Hnth (proj1 Hlabel)) as [_ Hnth'].
  destruct (fonts_supporting_glyph self character) as [|font_info rest] eqn:Ef.
  { exfalso. apply (Hsup character Hin). exact Ef. }
  exists label, character, font_info, rest.
  split; [exact Hlabel|]. split; [exact Hnth'|]. split; [exact Ef|].
  unfold generate_stage_0.
  rewrite (bind_run _ _ _ _ _ El), (bind_run _ _ _ _ _ Ec), Ef.
  unfold bind at 1. unfold getitem at 1. simpl.
  destruct (getbbox (FontInfo_get font_info 32) character lt ja) as [[[? ?] ?] ?].
  rewrite return_sample_run. reflexivity.
Qed.

End SingleGlyphStages.

(** ** The sentence stages, 6 to 8 *)

Lemma repeat_m_choice_Ok {A} (n : nat) (l xs : list A) (w w' : World) :
  repeat_m n (choice l) w = (Ok xs, w') ->
  length xs = n /\ Forall (fun x => In x l) xs.
Proof.
  revert xs w w'. induction n as [|n IH]; intros xs w w' H; simpl in H.
  - apply run_Ok_inj in H as [<- _]. split; [reflexivity | constructor].
  - bind_inv H. bind_inv H. apply run_Ok_inj in H as [<- _].
    apply choice_Ok in E. apply IH in E0 as [Hlen Hall].
    split; [simpl; congruence | constructor; assumption].
Qed.

Lemma check_loop_Ok (font : Font) (font_info : FontInfo) (characters : list PyStr)
    (u : unit) (w w' : World) :
  for_each characters
    (fun extra_character _ => check_extra_character font font_info extra_character)
    tt w = (Ok u, w') ->
  existsb (zero_extent font) characters = false.
Proof.
  intro H. destruct (existsb (zero_extent font) characters) eqn:E; [|reflexivity].
  destruct (check_loop_exits font font_info characters w E) as (c & _ & _ & Hrun).
  rewrite Hrun in H. discriminate.
Qed.

Lemma check_loop_6_Ok (font : Font) (font_info : FontInfo) (characters : list PyStr)
    (u : unit) (w w' : World) :
  for_each characters
    (fun extra_character _ => check_extra_character_6 font font_info extra_character)
    tt w = (Ok u, w') ->
  existsb (zero_extent font) characters = false.
Proof.
  intro H. destruct (existsb (zero_extent font) characters) eqn:E; [|reflexivity].
  rewrite (check_loop_6_raises font font_info characters w E) in H. discriminate.
Qed.

Section SentenceStages.

Context {Tensor : Type}.
Variable self : @Dataset Tensor.

Lemma composed_from_intro (label : Z) (character : PyStr) (font_info : FontInfo)
    (font_size before_count after_count : Z) (before after : list PyStr)
    (canvas : Image) (xy : Q * Q) (w0 w1 w2 w3 w4 w5 w6 w7 w8 w9 : World) :
  randrange 0 (len (characters self)) w0 = (Ok label, w1) ->
  getitem (characters self) label w1 = (Ok character, w2) ->
  In font_info (fonts_supporting_glyph self character) ->
  randint 0 10 w3 = (Ok before_count, w4) ->
  randint 0 10 w5 = (Ok after_count, w6) ->
  repeat_m (Z.to_nat before_count) (choice (supported_glyphs font_info)) w6
    = (Ok before, w7) ->
  repeat_m (Z.to_nat after_count) (choice (supported_glyphs font_info)) w8
    = (Ok after, w9) ->
  existsb (zero_extent (FontInfo_get font_info (Z.max 8 font_size)))
          (chars_of (join before ++ character ++ join after)) = false ->
  In (join before ++ character ++ join after, FontInfo_get font_info (Z.max 8 font_size))
     (drawn_texts canvas) ->
  composed_from self
    {| sd_label := label; sd_character := character; sd_font_info := font_info;
       sd_font_size := Z.max 8 font_size; sd_before := before; sd_after := after;
       sd_canvas := canvas; sd_xy := xy |}.
Proof.
  intros Hl Hc Hf Hb Ha Hbs Has Hcheck Htext.
  apply randrange_Ok in Hl as [Hl _].
  apply getitem_Ok in Hc as (_ & _ & Hc). destruct (Hc (proj1 Hl)) as [_ Hnth].
  apply randint_Ok in Hb as [Hb _]. apply randint_Ok in Ha as [Ha _].
  apply repeat_m_choice_Ok in Hbs as [Hbl Hball].
  apply repeat_m_choice_Ok in Has as [Hal Haall].
  unfold composed_from. simpl.
  repeat split; try assumption; try lia.
  apply Forall_app. split; assumption.
Qed.

Ltac unroll_sentence H :=
  repeat (lazymatch type of H with
          | bind _ _ _ = (Ok _, _) => bind_inv H
          | (match getbbox ?f ?t ?a ?l with _ => _ end) _ = _ =>
              let E := fresh "Ebox" in
              destruct (getbbox f t a l) as [[[? ?] ?] ?] eqn:E
          end; cbv beta zeta in H);
  rewrite return_sample_run in H; apply run_Ok_inj in H as [<- _];
  repeat match goal with
         | Hf : choice (fonts_supporting_glyph _ _) _ = (Ok _, _) |- _ =>
             apply choice_Ok in Hf
         | Hk : for_each _ (fun c _ => check_extra_character _ _ c) tt _ = (Ok _, _) |- _ =>
             apply check_loop_Ok in Hk
         | Hk : for_each _ (fun c _ => check_extra_character_6 _ _ c) tt _ = (Ok _, _)
           |- _ =>
             apply check_loop_6_Ok in Hk
         end.

Ltac sentence_sample_exists :=
  match goal with
  | Hl : randrange 0 _ _ = (Ok ?label, _),
    Hc : getitem (characters _) ?label _ = (Ok ?character, _),
    Hf : In ?font_info (fonts_supporting_glyph _ ?character),
    Hb : randint 0 10 _ = (Ok ?bc, _),
    Hbs : repeat_m (Z.to_nat ?bc) _ _ = (Ok ?before, _),
    Has : repeat_m (Z.to_nat ?ac) _ _ = (Ok ?after, _),
    Ha : randint 0 10 _ = (Ok ?ac, _)
    |- exists d,
        (present _ ?canvas, _,
         present _ (generate_only_char ?xy _ (FontInfo_get _ (Z.max 8 ?size)) _ mm ja))
        = _ /\ _ =>
      exists {| sd_label := label; sd_character := character;
                sd_font_info := font_info; sd_font_size := Z.max 8 size;
                sd_before := before; sd_after := after;
                sd_canvas := canvas; sd_xy := xy |};
      split; [reflexivity |
              eapply (composed_from_intro _ _ _ size bc ac before after canvas xy);
              [exact Hl | exact Hc | exact Hf | exact Hb | exact Ha | exact Hbs
               | exact Has | | ]]
  end.

Lemma generate_stage_6_composes (s : Sample) (w w' : World) :
  generate_stage_6 self w = (Ok s, w') ->
  exists d, s = sentence_sample self d /\ composed_from self d.
Proof.
  unfold generate_stage_6. intro H. unroll_sentence H. sentence_sample_exists.
  - assumption.
  - left. reflexivity.
Qed.

Lemma generate_stage_7_composes (s : Sample) (w w' : World) :
  generate_stage_7 self w = (Ok s, w') ->
  exists d, s = sentence_sample self d /\ composed_from self d.
Proof.
  unfold generate_stage_7. intro H. unroll_sentence H.
  match goal with
  | Ht : (if Qgtb _ _ then bind random_color _ else _) _ = _ |- _ =>
      apply outlined_or_plain_Ok in Ht as [_ Ht]
  end.
  match goal with
  | He : (if Qgtb _ _ then eat_sides _ _ _ _ _ else _) _ = _ |- _ =>
      apply maybe_eat_sides_Ok in He
  end.
  sentence_sample_exists.
  - assumption.
  - match goal with He : extends _ ?c |- In _ (drawn_texts ?c) => apply He end.
    assumption.
Qed.

Lemma generate_stage_8_composes (s : Sample) (w w' : World) :
  generate_stage_8 self w = (Ok s, w') ->
  exists d, s = sentence_sample self d /\ composed_from self d.
Proof.
  unfold generate_stage_8. intro H. unroll_sentence H.
  match goal with
  | Hk : existsb _ (_ ++ _) = false |- _ =>
      rewrite existsb_app in Hk; apply orb_false_iff in Hk as [Hk _]
  end.
  match goal with
  | Ht : (match _ with outline => _ | underline => _ | none => _ end) _ = _ |- _ =>
      apply effect_text_Ok in Ht
  end.
  match goal with
  | Hf : for_each _ (place_floating_character _ _ _ _) _ _ = _ |- _ =>
      apply (for_each_extends _ _
               (fun x im im' w w' =>
                  place_floating_character_extends self _ _ _ x im im' w w'))
        in Hf
  end.
  match goal with
  | He : (if Qgtb _ _ then eat_sides _ _ _ _ _ else _) _ = _ |- _ =>
      apply maybe_eat_sides_Ok in He
  end.
  sentence_sample_exists.
  - assumption.
  - repeat match goal with
           | He : extends _ ?c |- In _ (drawn_texts ?c) => apply He
           end.
    assumption.
Qed.

Lemma sentence_stage_composes (g : M Sample) (s : Sample) (w w' : World) :
  In g (skipn 6 (stage_generators self)) ->
  g w = (Ok s, w') ->
  exists d, s = sentence_sample self d /\ composed_from self d.
Proof.
  simpl. intros [<- | [<- | [<- | []]]].
  - apply generate_stage_6_composes.
  - apply generate_stage_7_composes.
  - apply generate_stage_8_composes.
Qed.

(** In stages 6 to 8 the labelled character is drawn inside one line of
    text made of at most 10 glyphs before it and at most 10 after it, each
    taken from the supported glyphs of the very font that renders the
    line. *)
Theorem sentence_context_is_supported (g : M Sample)
    (image region_score : Image + Tensor) (label : Z) (w w' : World) :
  In g (skipn 6 (stage_generators self)) ->
  g w = (Ok (image, label, region_score), w') ->
  exists character font_info font_size before after canvas,
    nth_error (characters self) (Z.to_nat label) = Some character /\
    image = present self canvas /\
    In (join before ++ character ++ join after, FontInfo_get font_info font_size)
       (drawn_texts canvas) /\
    (length before <= 10)%nat /\ (length after <= 10)%nat /\
    Forall (fun glyph => In glyph (supported_glyphs font_info)) (before ++ after) /\
    In character (supported_glyphs font_info).
Proof.
  intros Hg H.
  destruct (sentence_stage_composes g _ w w' Hg H)
    as (d & Es & _ & Hnth & Hf & _ & Hb & Ha & Hall & _ & Htext).
  unfold sentence_sample in Es. injection Es as -> -> ->.
  apply fonts_supporting_glyph_In in Hf as [_ Hsup].
  exists (sd_character d), (sd_font_info d), (sd_font_size d), (sd_before d),
    (sd_after d), (sd_canvas d).
  repeat split; assumption.
Qed.

(** A sample of stages 6 to 8 is returned only when every character of the
    composed line measures to a box whose right and bottom edges are not 0
    in the line's font: the missing-glyph check has passed. *)
Theorem sentence_characters_have_extent (g : M Sample)
    (image region_score : Image + Tensor) (label : Z) (w w' : World) :
  In g (skipn 6 (stage_generators self)) ->
  g w = (Ok (image, label, region_score), w') ->
  exists text font canvas,
    image = present self canvas /\
    In (text, font) (drawn_texts canvas) /\
    forall code_point, In code_point text ->
      exists bb_left bb_top bb_right bb_bottom,
        getbbox font [code_point] lt ja = (bb_left, bb_top, bb_right, bb_bottom) /\
        bb_right <> 0 /\ bb_bottom <> 0.
Proof.
  intros Hg H.
  destruct (sentence_stage_composes g _ w w' Hg H)
    as (d & Es & _ & _ & _ & _ & _ & _ & _ & Hcheck & Htext).
  unfold sentence_sample in Es. injection Es as -> -> ->.
  exists (sd_text d), (sd_font d), (sd_canvas d).
  split; [reflexivity|]. split; [exact Htext|].
  intros c Hc.
  assert (Hz : zero_extent (sd_font d) [c] = false).
  { destruct (zero_extent (sd_font d) [c]) eqn:E; [|reflexivity].
    assert (existsb (zero_extent (sd_font d)) (chars_of (sd_text d)) = true); [|congruence].
    apply existsb_exists. exists [c]. split; [|exact E].
    unfold chars_of. apply in_map_iff. exists c. split; [reflexivity | exact Hc]. }
  unfold zero_extent in Hz.
  destruct (getbbox (sd_font d) [c] lt ja) as [[[l t] r] b].
  exists l, t, r, b. split; [reflexivity|].
  apply orb_false_iff in Hz as [Hr Hb].
  apply Z.eqb_neq in Hr. apply Z.eqb_neq in Hb. split; assumption.
Qed.

End SentenceStages.

(** ** Font sizes by stage *)

(** The pixel size of the font that draws the region score: 32 in stages 0
    to 2, 20 or 32 in stage 3, at least 8 in stages 4 to 8. *)
Theorem font_size_by_stage {Tensor : Type} (self : @Dataset Tensor) (k : nat)
    (g : M Sample) (image region_score : Image + Tensor) (label : Z) (w w' : World) :
  nth_error (stage_generators self) k = Some g ->
  g w = (Ok (image, label, region_score), w') ->
  exists xy character font,
    region_score =
      present self (Draw_text (Image_new L 128 128 [0]) xy character font [255] mm ja) /\
    match k with
    | 0%nat | 1%nat | 2%nat => size font = 32
    | 3%nat => size font = 20 \/ size font = 32
    | _ => 8 <= size font
    end.
Proof.
  intros Hk H.
  destruct k as [|[|[|[|[|[|[|[|[|k]]]]]]]]]; simpl in Hk;
    [injection Hk as <- .. | destruct k; discriminate].
  - apply generate_stage_0_draws in H as (d & Es & _ & _ & Hs & _).
    injection Es as -> -> ->. do 3 eexists. split; [reflexivity | exact Hs].
  - apply generate_stage_1_draws in H as (d & Es & _ & _ & Hs & _).
    injection Es as -> -> ->. do 3 eexists. split; [reflexivity | exact Hs].
  - apply generate_stage_2_draws in H as (d & Es & _ & _ & Hs & _).
    injection Es as -> -> ->. do 3 eexists. split; [reflexivity | exact Hs].
  - apply generate_stage_3_draws in H as (d & Es & _ & _ & Hs & _).
    injection Es as -> -> ->. do 3 eexists. split; [reflexivity | exact Hs].
  - apply generate_stage_4_draws in H as (d & Es & _ & Hs & _).
    injection Es as -> -> ->. do 3 eexists. split; [reflexivity | exact Hs].
  - apply generate_stage_5_draws in H as (d & Es & _ & Hs & _).
    injection Es as -> -> ->. do 3 eexists. split; [reflexivity | exact Hs].
  - apply generate_stage_6_composes in H as (d & Es & _ & _ & _ & Hs & _).
    injection Es as -> -> ->. do 3 eexists. split; [reflexivity | exact Hs].
  - apply generate_stage_7_composes in H as (d & Es & _ & _ & _ & Hs & _).
    injection Es as -> -> ->. do 3 eexists. split; [reflexivity | exact Hs].
  - apply generate_stage_8_composes in H as (d & Es & _ & _ & _ & Hs & _).
    injection Es as -> -> ->. do 3 eexists. split; [reflexivity | exact Hs].
Qed.

(** ** What the generators print, and when they exit *)

Lemma bind_cases {A B} (m : M A) (f : A -> M B) (w w' : World) (r : Result B) :
  bind m f w = (r, w') ->
  (exists a w1, m w = (Ok a, w1) /\ f a w1 = (r, w')) \/
  (exists e, m w = (Raise e, w') /\ r = Raise e).
Proof.
  unfold bind. destruct (m w) as [[a | e] w1]; intro H.
  - left. exists a, w1. split; [reflexivity | exact H].
  - right. exists e. split; congruence.
Qed.

Lemma quiet_ret {A} (a : A) : quiet (ret a).
Proof. intros w r w' H. unfold ret in H. split; [congruence|]. intro. congruence. Qed.

Lemma quiet_raise {A} (e : Exn) : (forall code, e <> SystemExit code) -> quiet (@raise A e).
Proof.
  intros He w r w' H. unfold raise in H. split; [congruence|].
  intros code Hr. apply (He code). congruence.
Qed.

Lemma quiet_bind {A B} (m : M A) (f : A -> M B) :
  quiet m -> (forall a, quiet (f a)) -> quiet (bind m f).
Proof.
  intros Hm Hf w r w' H.
  apply bind_cases in H as [(a & w1 & E & H) | (e & E & ->)].
  - destruct (Hm _ _ _ E) as [S1 _]. destruct (Hf a _ _ _ H) as [S2 N].
    split; [congruence | exact N].
  - destruct (Hm _ _ _ E) as [S1 N]. split; [exact S1|].
    intros code Hr. apply (N code). congruence.
Qed.

Lemma quiet_random : quiet random.
Proof.
  intros w r w' H. rewrite random_run in H.
  split; [injection H as _ <-; reflexivity|]. intro. congruence.
Qed.

Lemma quiet_np_normal (loc scale : Q) : quiet (np_normal loc scale).
Proof.
  intros w r w' H. rewrite np_normal_run in H.
  split; [injection H as _ <-; reflexivity|]. intro. congruence.
Qed.

Lemma quiet_random_noise (width height : Z) : quiet (random_noise width height).
Proof.
  intros w r w' H. unfold random_noise in H.
  split; [injection H as _ <-; reflexivity|]. intro. congruence.
Qed.

Lemma quiet_getitem {A} (l : list A) (i : Z) : quiet (getitem l i).
Proof.
  unfold getitem.
  destruct ((0 <=? (if i <? 0 then i + Z.of_nat (length l) else i))
            && ((if i <? 0 then i + Z.of_nat (length l) else i) <? Z.of_nat (length l))).
  - destruct (nth_error l (Z.to_nat (if i <? 0 then i + Z.of_nat (length l) else i))).
    + apply quiet_ret.
    + apply quiet_raise. discriminate.
  - apply quiet_raise. discriminate.
Qed.

Lemma quiet_randrange (start stop : Z) : quiet (randrange start stop).
Proof.
  unfold randrange. destruct (0 <? stop - start).
  - apply quiet_bind; [|intro; apply quiet_ret].
    unfold randbelow. apply quiet_bind; [apply quiet_random | intro; apply quiet_ret].
  - apply quiet_raise. discriminate.
Qed.

Lemma quiet_randint (a b : Z) : quiet (randint a b).
Proof. apply quiet_randrange. Qed.

Lemma quiet_choice {A} (l : list A) : quiet (choice l).
Proof.
  unfold choice. destruct l.
  - apply quiet_raise. discriminate.
  - apply quiet_bind; [|intro; apply quiet_getitem].
    unfold randbelow. apply quiet_bind; [apply quiet_random | intro; apply quiet_ret].
Qed.

Lemma quiet_choices {A} (population : list A) (weights : option (list Q)) :
  quiet (choices population weights).
Proof.
  unfold choices. destruct weights as [ws|].
  - destruct (negb (length ws =? length population)%nat);
      [apply quiet_raise; discriminate|].
    destruct (Qle_bool (last (accumulate 0 ws) 0%Q) 0);
      [apply quiet_raise; discriminate|].
    apply quiet_bind; [apply quiet_random | intro; apply quiet_getitem].
  - apply quiet_bind; [apply quiet_random | intro; apply quiet_getitem].
Qed.

Lemma quiet_random_color : quiet random_color.
Proof.
  unfold random_color.
  repeat (apply quiet_bind; [apply quiet_randint | intro]). apply quiet_ret.
Qed.

Lemma quiet_blend (im1 im2 : Image) (alpha : Q) : quiet (blend im1 im2 alpha).
Proof.
  unfold blend.
  destruct (Mode_eqb (Image_mode im1) (Image_mode im2)
            && (Image_width im1 =? Image_width im2)
            && (Image_height im1 =? Image_height im2)).
  - apply quiet_ret.
  - apply quiet_raise. discriminate.
Qed.

Lemma quiet_repeat_m {A} (n : nat) (f : M A) : quiet f -> quiet (repeat_m n f).
Proof.
  intro Hf. induction n as [|n IH]; simpl; [apply quiet_ret|].
  apply quiet_bind; [exact Hf | intro].
  apply quiet_bind; [exact IH | intro; apply quiet_ret].
Qed.

Lemma quiet_for_each {A S} (xs : list A) (body : A -> S -> M S) (s : S) :
  (forall x s', quiet (body x s')) -> quiet (for_each xs body s).
Proof.
  intro Hb. revert s. induction xs as [|x rest IH]; intro s; simpl; [apply quiet_ret|].
  apply quiet_bind; [apply Hb | intro; apply IH].
Qed.

Lemma quiet_FontInfo_subscript (font_info : FontInfo) (key : PyStr) :
  quiet (FontInfo_subscript font_info key).
Proof. apply quiet_raise. discriminate. Qed.

Lemma quiet_check_extra_character_6 (font : Font) (font_info : FontInfo)
    (character : PyStr) :
  quiet (check_extra_character_6 font font_info character).
Proof.
  intros w r w' H. rewrite check_extra_character_6_run in H.
  destruct (zero_extent font character); injection H as <- <-;
    (split; [reflexivity | discriminate]).
Qed.

Ltac quiet_leaf :=
  lazymatch goal with
  | |- quiet (ret _) => apply quiet_ret
  | |- quiet random => apply quiet_random
  | |- quiet (np_normal _ _) => apply quiet_np_normal
  | |- quiet (random_noise _ _) => apply quiet_random_noise
  | |- quiet (getitem _ _) => apply quiet_getitem
  | |- quiet (randint _ _) => apply quiet_randint
  | |- quiet (randrange _ _) => apply quiet_randrange
  | |- quiet (choices _ _) => apply quiet_choices
  | |- quiet (choice _) => apply quiet_choice
  | |- quiet random_color => apply quiet_random_color
  | |- quiet (blend _ _ _) => apply quiet_blend
  | |- quiet (check_extra_character_6 _ _ _) => apply quiet_check_extra_character_6
  | |- quiet (repeat_m _ _) => apply quiet_repeat_m
  | |- quiet (for_each _ _ _) => apply quiet_for_each; intros
  | |- quiet (bind _ _) => apply quiet_bind; [|intro]
  | |- quiet (match getbbox ?f ?t ?a ?l with _ => _ end) =>
      destruct (getbbox f t a l) as [[[? ?] ?] ?]
  | |- quiet (let '(_, _) := ?p in _) => destruct p
  | |- quiet (if ?c then _ else _) => destruct c
  end.

Ltac quiet_tac := repeat (cbv beta iota zeta; quiet_leaf).

Lemma quiet_random_font_size : quiet random_font_size.
Proof. unfold random_font_size. quiet_tac. Qed.

Lemma quiet_draw_outlined_text drawing xy text font fill anchor language :
  quiet (draw_outlined_text drawing xy text font fill anchor language).
Proof. unfold draw_outlined_text. quiet_tac. Qed.

Lemma quiet_draw_underlined_text drawing xy text font fill anchor language :
  quiet (draw_underlined_text drawing xy text font fill anchor language).
Proof. unfold draw_underlined_text. quiet_tac. Qed.

Lemma quiet_eat_sides image left right top bottom :
  quiet (eat_sides image left right top bottom).
Proof. unfold eat_sides. quiet_tac. Qed.

Lemma diagnosed_of_quiet {A} (D : PyStr -> Prop) (m : M A) : quiet m -> diagnosed D m.
Proof. intros Hm w r w' H. left. exact (Hm _ _ _ H). Qed.

Lemma diagnosed_bind {A B} (D : PyStr -> Prop) (m : M A) (f : A -> M B) :
  quiet m ->
  (forall w a w1, m w = (Ok a, w1) -> diagnosed D (f a)) ->
  diagnosed D (bind m f).
Proof.
  intros Hm Hf w r w' H.
  apply bind_cases in H as [(a & w1 & E & H) | (e & E & ->)].
  - destruct (Hm _ _ _ E) as [S1 _].
    destruct (Hf _ _ _ E _ _ _ H) as [[S2 N] | (Hr & msg & Hmsg & S2)].
    + left. split; [congruence | exact N].
    + right. split; [exact Hr|]. exists msg. split; [exact Hmsg | congruence].
  - left. destruct (Hm _ _ _ E) as [S1 N]. split; [exact S1|].
    intros code Hr. apply (N code). congruence.
Qed.

Lemma diagnosed_then_quiet {A B} (D : PyStr -> Prop) (m : M A) (f : A -> M B) :
  diagnosed D m -> (forall a, quiet (f a)) -> diagnosed D (bind m f).
Proof.
  intros Hm Hf w r w' H.
  apply bind_cases in H as [(a & w1 & E & H) | (e & E & ->)].
  - destruct (Hm _ _ _ E) as [[S1 _] | (Hr & _)]; [|discriminate].
    destruct (Hf a _ _ _ H) as [S2 N]. left. split; [congruence | exact N].
  - destruct (Hm _ _ _ E) as [[S1 N] | (Hr & msg & Hmsg & S1)].
    + left. split; [exact S1|]. intros code Hr. apply (N code). congruence.
    + right. split; [congruence|]. exists msg. split; assumption.
Qed.

Section Diagnostics.

Context {Tensor : Type}.
Variable self : @Dataset Tensor.

Lemma quiet_return_sample (sample : Image) (label : Z) (region_score : Image) :
  quiet (return_sample self sample label region_score).
Proof. unfold return_sample. destruct (transform self); apply quiet_ret. Qed.

Lemma quiet_random_background_image (width height : Z) :
  quiet (random_background_image self width height).
Proof. unfold random_background_image. quiet_tac. Qed.

Lemma quiet_generate_background (width height : Z) :
  quiet (generate_background self width height).
Proof.
  unfold generate_background.
  apply quiet_bind; [apply quiet_choices | intros []].
  - apply quiet_bind; [apply quiet_random | intro].
    apply quiet_bind.
    + destruct (Qgtb a (1 # 2)); [apply quiet_random_background_image | quiet_tac].
    + intro. quiet_tac.
  - apply quiet_random_background_image.
  - quiet_tac.
Qed.

Lemma quiet_place_floating_character (font : Font) (y bottom : Z)
    (floating_character : PyStr) (drawing : Image) :
  quiet (place_floating_character self font y bottom floating_character drawing).
Proof.
  unfold place_floating_character.
  apply quiet_bind; [apply quiet_choice | intro].
  apply quiet_bind; [apply quiet_random_font_size | intro].
  destruct (getbbox _ floating_character lt ja) as [[[? ?] ?] ?].
  apply quiet_bind; [quiet_tac | intro].
  apply quiet_bind; [quiet_tac | intros floating_y].
  destruct floating_y; [apply quiet_ret|].
  apply quiet_bind; [apply quiet_randint | intro].
  apply quiet_bind; [apply quiet_random | intro r].
  destruct (Qgtb r (9 # 10)).
  - do 3 (apply quiet_bind; [quiet_tac | intro]). apply quiet_draw_outlined_text.
  - quiet_tac.
Qed.

Ltac quiet_stage :=
  repeat (cbv beta iota zeta;
          lazymatch goal with
          | |- quiet (return_sample _ _ _ _) => apply quiet_return_sample
          | |- quiet random_font_size => apply quiet_random_font_size
          | |- quiet (generate_background _ _ _) => apply quiet_generate_background
          | |- quiet (draw_outlined_text _ _ _ _ _ _ _) => apply quiet_draw_outlined_text
          | |- quiet (draw_underlined_text _ _ _ _ _ _ _) =>
              apply quiet_draw_underlined_text
          | |- quiet (eat_sides _ _ _ _ _) => apply quiet_eat_sides
          | |- quiet (place_floating_character _ _ _ _ _ _) =>
              apply quiet_place_floating_character
          | |- quiet (match ?x with outline => _ | underline => _ | none => _ end) =>
              destruct x
          | |- _ => quiet_leaf
          end).

(** Stages 0 to 6 print nothing and never exit, however they end: a stage
    0 to 5 has no [print] or [exit]; stage 6 has both, but raises
    [TypeError] before it reaches them. *)
Theorem stages_0_to_6_are_quiet (g : M Sample) (w w' : World) (r : Result Sample) :
  In g (firstn 7 (stage_generators self)) ->
  g w = (r, w') ->
  stdout w' = stdout w /\ forall code, r <> Raise (SystemExit code).
Proof.
  intros Hg. revert w r w'. change (quiet g). simpl in Hg.
  destruct Hg as [<- | [<- | [<- | [<- | [<- | [<- | [<- | []]]]]]]].
  - unfold generate_stage_0. quiet_stage.
  - unfold generate_stage_1. quiet_stage.
  - unfold generate_stage_2. quiet_stage.
  - unfold generate_stage_3. quiet_stage.
  - unfold generate_stage_4. quiet_stage.
  - unfold generate_stage_5. quiet_stage.
  - unfold generate_stage_6. quiet_stage.
Qed.

Lemma check_loop_diagnosed (font_info : FontInfo) (font_size : Z)
    (characters : list PyStr) :
  In font_info (font_infos self) ->
  diagnosed (missing_glyph_diagnostic self)
    (for_each characters
       (fun extra_character _ =>
          check_extra_character (FontInfo_get font_info font_size) font_info
                                extra_character) tt).
Proof.
  intros Hin w r w' H.
  destruct (existsb (zero_extent (FontInfo_get font_info font_size)) characters) eqn:E.
  - destruct (check_loop_exits _ font_info characters w E) as (c & _ & Hz & Hrun).
    rewrite Hrun in H. injection H as <- <-. right. split; [reflexivity|].
    exists (missing_message c font_info). split; [|reflexivity].
    exists c, font_info, font_size. repeat split; assumption.
  - destruct (check_loop_passes _ font_info characters w E) as [Hrun _].
    rewrite Hrun in H. injection H as <- <-. left. split; [reflexivity | discriminate].
Qed.

Ltac diagnosed_prefix :=
  repeat (apply diagnosed_bind; [quiet_stage; fail | intros ? ? ? ?]; cbv beta zeta).

(** Stages 7 and 8 print only when they exit.  However they end, either
    nothing was printed and the stage did not exit, or it exited with status
    -1 after printing exactly one line, which names a character that a font
    of the catalog measures without extent and the base name of that font's
    file. *)
Theorem stages_7_and_8_exit_with_diagnostic (g : M Sample) (w w' : World)
    (r : Result Sample) :
  In g (skipn 7 (stage_generators self)) ->
  g w = (r, w') ->
  (stdout w' = stdout w /\ forall code, r <> Raise (SystemExit code)) \/
  (r = Raise (SystemExit (-1)) /\
   exists character font_info font_size,
     In font_info (font_infos self) /\
     zero_extent (FontInfo_get font_info font_size) character = true /\
     stdout w' =
       stdout w ++ [character ++ str " is missing from " ++ basename (path font_info)]).
Proof.
  intros Hg H.
  assert (Hd : diagnosed (missing_glyph_diagnostic self) g).
  { simpl in Hg. destruct Hg as [<- | [<- | []]].
    - unfold generate_stage_7. diagnosed_prefix.
      apply diagnosed_then_quiet.
      + apply check_loop_diagnosed.
        match goal with
        | Hf : choice (fonts_supporting_glyph _ _) _ = _ |- _ =>
            apply choice_Ok, fonts_supporting_glyph_In in Hf; tauto
        end.
      + intro. quiet_stage.
    - unfold generate_stage_8. diagnosed_prefix.
      apply diagnosed_then_quiet.
      + apply check_loop_diagnosed.
        match goal with
        | Hf : choice (fonts_supporting_glyph _ _) _ = _ |- _ =>
            apply choice_Ok, fonts_supporting_glyph_In in Hf; tauto
        end.
      + intro. quiet_stage. }
  destruct (Hd _ _ _ H) as [Hq | (Hr & msg & (c & fi & fs & Hin & Hz & ->) & Hs)].
  - left. exact Hq.
  - right. split; [exact Hr|]. exists c, fi, fs. repeat split; assumption.
Qed.

End Diagnostics.

(** ** Floating characters *)

Section FloatingCharacters.

Context {Tensor : Type}.
Variable self : @Dataset Tensor.



End FloatingCharacters.

(** ** The scheduler at the ends of the curriculum, and at integers *)

Section Scheduling.

Context {Tensor : Type}.
Variable self : @Dataset Tensor.

(** From a curriculum value of 8 upwards every draw selects stage 8:
    [generate] is stage 8's generator. *)
Theorem generate_saturates_at_stage_8 (w : World) :
  (8 <= stage self)%Q ->
  select_stage (stage self) (uniform_draw w) = 8 /\
  generate self w = (sample <- generate_stage_8 self ;; ret (Some sample)) (after_random w).
Proof.
  intro Hs.
  assert (Hf : 8 <= Qfloor (stage self)).
  { change 8 with (Qfloor 8). apply Qfloor_resp_le. exact Hs. }
  pose proof (select_stage_clamped (stage self) (uniform_draw w)) as Hc.
  assert (Hk : select_stage (stage self) (uniform_draw w) = 8) by lia.
  split; [exact Hk|].
  destruct (generate_selected self w 8 Hk) as (g & Hg & E); [lia|].
  simpl in Hg. injection Hg as <-. exact E.
Qed.

(** Below a curriculum value of -1 every draw selects a negative stage:
    [generate] returns [None], whatever the draw. *)
Theorem generate_returns_None_below_minus_1 (w : World) :
  (stage self < -1)%Q ->
  select_stage (stage self) (uniform_draw w) < 0 /\
  generate self w = (Ok None, after_random w).
Proof.
  intro Hs.
  assert (Hf : Qfloor (stage self) < -1).
  { apply inject_Z_lt. pose proof (Qfloor_bounds (stage self)) as [Hlo _].
    change (inject_Z (-1)) with (-1)%Q. lra. }
  pose proof (select_stage_clamped (stage self) (uniform_draw w)) as Hc.
  assert (Hk : select_stage (stage self) (uniform_draw w) < 0) by lia.
  split; [exact Hk | apply generate_negative; exact Hk].
Qed.

(** At an integer curriculum value [n] between 0 and 8 -- the value 0 of a
    new dataset among them -- [generate] runs stage [n] for every positive
    draw, and stage [min (n + 1) 8] for the draw 0. *)
Theorem generate_at_integer_stage (n : Z) (w : World) :
  stage self = inject_Z n ->
  0 <= n <= 8 ->
  select_stage (stage self) (uniform_draw w) =
    (if Qgtb (uniform_draw w) 0 then n else Z.min (n + 1) 8) /\
  exists g,
    nth_error (stage_generators self)
      (Z.to_nat (if Qgtb (uniform_draw w) 0 then n else Z.min (n + 1) 8)) = Some g /\
    generate self w = (sample <- g ;; ret (Some sample)) (after_random w).
Proof.
  intros Hs Hn.
  assert (Hk : select_stage (stage self) (uniform_draw w) =
               (if Qgtb (uniform_draw w) 0 then n else Z.min (n + 1) 8)).
  { rewrite Hs. destruct (Qgtb (uniform_draw w) 0) eqn:E.
    - apply Qgtb_true in E. apply select_stage_integer; [exact E | lia].
    - apply Qgtb_false in E. rewrite select_stage_high; rewrite Qfloor_Z; [reflexivity|].
      lra. }
  split; [exact Hk|].
  apply generate_selected; [exact Hk|].
  destruct (Qgtb (uniform_draw w) 0); lia.
Qed.

(** ** Iteration and indexed access *)

End Scheduling.

(** ** Construction with an unreadable file *)

Lemma map_m_open_fails (files : list DirEntry) (w : World) :
  Exists (fun e => entry_image e = None) files ->
  map_m Image_open_entry files w = (Raise OSError, w).
Proof.
  induction files as [|e rest IH]; intro H; [inversion H|].
  simpl. unfold bind at 1. unfold Image_open_entry at 1.
  destruct (entry_image e) as [im|] eqn:Ee.
  - unfold ret at 1. inversion H as [? ? He | ? ? Hrest]; subst; [congruence|].
    unfold bind. rewrite (IH Hrest). reflexivity.
  - reflexivity.
Qed.

(** Construction fails with [OSError], and leaves no dataset, as soon as
    one regular file of the backgrounds folder does not open as an image;
    entries that are not regular files are not opened at all. *)
Theorem init_fails_on_unreadable_file {Tensor : Type}
    (loaded_fonts : list FontInfo) (backgrounds_folder : list DirEntry)
    (character_set : list PyStr) (transform : option (Image -> Tensor)) (w : World) :
  Exists (fun e => entry_isfile e = true /\ entry_image e = None) backgrounds_folder ->
  __init__ loaded_fonts backgrounds_folder character_set transform w = (Raise OSError, w).
Proof.
  intro H. unfold __init__. apply bind_raise. apply map_m_open_fails.
  apply Exists_exists in H as (e & Hin & Hfile & Himg).
  apply Exists_exists. exists e. split; [|exact Himg].
  apply filter_In. split; assumption.
Qed.

(** ** Normalisation round trips *)

Lemma Forall2_map_same {A} (R : A -> A -> Prop) (f : A -> A) (l : list A) :
  (forall x, R (f x) x) -> Forall2 R (map f l) l.
Proof. intro H. induction l; simpl; constructor; auto. Qed.

(** The [img / 2 + 0.5] of [imshow] undoes the [Normalize] of means 0.5 and
    deviations 0.5 that [run] applies, value by value. *)
Theorem imshow_unnormalize_inverts_Normalize (img : list Q) :
  Forall2 Qeq (imshow_unnormalize (Normalize (1 # 2) (1 # 2) img)) img.
Proof.
  unfold imshow_unnormalize, Normalize. rewrite map_map.
  apply Forall2_map_same. intro x. cbv beta. field.
Qed.

(** [denormalize] of the recognizer's training script does not undo its
    [Normalize] of means 0.5 and deviations 0.5: it divides by the deviation
    where the inverse multiplies, and turns a pixel value [x] into
    [4 x - 1.5], which is [x] only at [x = 0.5]. *)
Theorem denormalize_is_not_the_inverse (img : list Q) :
  Forall2 Qeq (denormalize (Normalize (1 # 2) (1 # 2) img))
          (map (fun x => 4 * x - (3 # 2))%Q img) /\
  forall x,
    Forall2 Qeq (denormalize (Normalize (1 # 2) (1 # 2) [x])) [x] <-> (x == 1 # 2)%Q.
Proof.
  split.
  - unfold denormalize, Normalize. rewrite map_map.
    induction img; cbn [map]; constructor; [field | assumption].
  - intro x. cbn [map]. split.
    + intro H. inversion H as [|? ? ? ? Hx _]; subst.
      assert (E : ((x - (1 # 2)) / (1 # 2) / (1 # 2) + (1 # 2) == 4 * x - (3 # 2))%Q)
        by field.
      rewrite E in Hx. lra.
    + intro Hx. constructor; [|constructor]. rewrite Hx. reflexivity.
Qed.

(** [denormalize] of the boxer's training script does not undo its
    [Normalize] of means 0.63 and deviations 0.28 either: a pixel value [x]
    comes back as [(x - 0.63) / 0.0784 + 0.63], which is [x] only at
    [x = 0.63]. *)
Theorem denormalize_boxer_is_not_the_inverse (img : list Q) :
  Forall2 Qeq (denormalize_boxer (Normalize (63 # 100) (28 # 100) img))
          (map (fun x => (x - (63 # 100)) / (784 # 10000) + (63 # 100))%Q img) /\
  forall x,
    Forall2 Qeq (denormalize_boxer (Normalize (63 # 100) (28 # 100) [x])) [x]
    <-> (x == 63 # 100)%Q.
Proof.
  split.
  - unfold denormalize_boxer, Normalize. rewrite map_map.
    induction img; cbn [map]; constructor; [field | assumption].
  - intro x. cbn [map]. split.
    + intro H. inversion H as [|? ? ? ? Hx _]; subst.
      assert (E : ((x - (63 # 100)) / (28 # 100) / (28 # 100) + (63 # 100)
                   == (625 # 49) * x - (9072 # 1225))%Q) by field.
      rewrite E in Hx. lra.
    + intro Hx. constructor; [|constructor]. rewrite Hx. reflexivity.
Qed.

(** ** The further properties on the scenarios *)

Lemma draw_outlined_text_layers_witness :
  let drawing := Image_new RGB 128 128 WHITE_COLOR in
  let font := FontInfo_get scenario_font 32 in
  let run :=
    draw_outlined_text drawing (64, 64)%Q (str "A") font BLACK_COLOR lm ja
                       (world_of [] []) in
  exists under t,
    t = 1 + py_round (Qabs (1 + 1 * np_draw (world_of [] []) 0)) /\
    1 <= t /\
    returned_image run = Draw_text under (64, 64)%Q (str "A") font BLACK_COLOR lm ja /\
    drawn_texts under =
      repeat (str "A", font) (Z.to_nat (2 * t + 1) * Z.to_nat (2 * t + 1))
        ++ drawn_texts drawing.
Proof.
  apply (draw_outlined_text_layers (Image_new RGB 128 128 WHITE_COLOR)
           (returned_image
              (draw_outlined_text (Image_new RGB 128 128 WHITE_COLOR) (64, 64)%Q
                 (str "A") (FontInfo_get scenario_font 32) BLACK_COLOR lm ja
                 (world_of [] [])))
           (64, 64)%Q (str "A") (FontInfo_get scenario_font 32) BLACK_COLOR lm ja
           (world_of [] [])
           (snd (draw_outlined_text (Image_new RGB 128 128 WHITE_COLOR) (64, 64)%Q
                   (str "A") (FontInfo_get scenario_font 32) BLACK_COLOR lm ja
                   (world_of [] [])))).
  vm_compute. reflexivity.
Defined.

Lemma random_background_image_crop_witness :
  exists background bg_left bg_top bg_right bg_bottom w',
    random_background_image tiled_dataset 128 128 (world_of [] []) =
      (Ok (Image_resize background 128 128 (bg_left, bg_top, bg_right, bg_bottom)), w') /\
    In background (background_images tiled_dataset) /\
    0 <= bg_left < bg_right /\ bg_right <= Image_width background /\
    0 <= bg_top < bg_bottom /\ bg_bottom <= Image_height background.
Proof.
  apply (random_background_image_crop tiled_dataset 128 128 (world_of [] [])).
  - discriminate.
  - constructor; [simpl; lia | constructor].
Defined.

Lemma generate_background_size_witness :
  let run := generate_background scenario_dataset 8 8 (world_of [] []) in
  Image_width (returned_image run) = 8 /\
  Image_height (returned_image run) = 8 /\
  ((uniform_draw (world_of [] []) < 1 # 3)%Q ->
   8 = 8 /\
   exists base noise_image alpha,
     returned_image run = Image_blend base noise_image alpha /\
     Image_mode base = RGB /\
     (0 <= alpha <= 1)%Q).
Proof.
  apply (generate_background_size scenario_dataset 8 8
           (returned_image (generate_background scenario_dataset 8 8 (world_of [] [])))
           (world_of [] [])
           (snd (generate_background scenario_dataset 8 8 (world_of [] [])))).
  vm_compute. reflexivity.
Defined.

Lemma single_glyph_stages_align_witness :
  exists character font background fill xy,
    nth_error (characters scenario_dataset)
      (Z.to_nat (snd (fst (returned_sample (stage_run 5))))) = Some character /\
    fst (fst (returned_sample (stage_run 5))) =
      present scenario_dataset
        (Draw_text (Image_new RGB 128 128 background) xy character font fill mm ja) /\
    snd (returned_sample (stage_run 5)) =
      present scenario_dataset
        (Draw_text (Image_new L 128 128 [0]) xy character font [255] mm ja).
Proof.
  apply (single_glyph_stages_align scenario_dataset (generate_stage_5 scenario_dataset)
           (fst (fst (returned_sample (stage_run 5))))
           (snd (returned_sample (stage_run 5)))
           (snd (fst (returned_sample (stage_run 5))))
           (world_of [] []) (snd (stage_run 5))).
  - simpl. tauto.
  - vm_compute. reflexivity.
Defined.

Lemma early_stages_use_first_supporting_font_witness :
  exists character font_info font_size earlier later,
    nth_error (characters scenario_dataset)
      (Z.to_nat (snd (fst (returned_sample (stage_run 3))))) = Some character /\
    font_infos scenario_dataset = earlier ++ font_info :: later /\
    In character (supported_glyphs font_info) /\
    Forall (fun f => ~ In character (supported_glyphs f)) earlier /\
    snd (returned_sample (stage_run 3)) =
      present scenario_dataset
        (generate_only_char (64, 64)%Q character (FontInfo_get font_info font_size)
                            BLACK_COLOR mm ja).
Proof.
  apply (early_stages_use_first_supporting_font scenario_dataset
           (generate_stage_3 scenario_dataset)
           (fst (fst (returned_sample (stage_run 3))))
           (snd (returned_sample (stage_run 3)))
           (snd (fst (returned_sample (stage_run 3))))
           (world_of [] []) (snd (stage_run 3))).
  - simpl. tauto.
  - vm_compute. reflexivity.
Defined.

Lemma stage_1_polarity_witness :
  exists character font_info,
    let font := FontInfo_get font_info 32 in
    nth_error (characters scenario_dataset)
      (Z.to_nat (snd (fst (returned_sample (stage_run 1))))) = Some character /\
    fst (fst (returned_sample (stage_run 1))) =
      present scenario_dataset
        (if Qgtb (uniform_draw (after_random (world_of [] []))) (1 # 2)
         then Draw_text (Image_new RGB 128 128 BLACK_COLOR) (64, 64)%Q character font
                        WHITE_COLOR mm ja
         else Draw_text (Image_new RGB 128 128 WHITE_COLOR) (64, 64)%Q character font
                        BLACK_COLOR mm ja).
Proof.
  apply (stage_1_polarity scenario_dataset
           (fst (fst (returned_sample (stage_run 1))))
           (snd (returned_sample (stage_run 1)))
           (snd (fst (returned_sample (stage_run 1))))
           (world_of [] []) (snd (stage_run 1))).
  vm_compute. reflexivity.
Defined.

Lemma stage_5_offset_bounded_witness :
  exists d bb_left bb_top width height,
    (fst (fst (returned_sample (stage_run 5))),
     snd (fst (returned_sample (stage_run 5))),
     snd (returned_sample (stage_run 5))) = glyph_sample scenario_dataset d /\
    getbbox (gd_font d) (gd_character d) lt ja = (bb_left, bb_top, width, height) /\
    (0 <= width ->
     (- ((2 # 5) * inject_Z width) <= fst (gd_xy d) - 64 <= (2 # 5) * inject_Z width)%Q) /\
    (0 <= height ->
     (- ((2 # 5) * inject_Z height) <= snd (gd_xy d) - 64
      <= (2 # 5) * inject_Z height)%Q).
Proof.
  apply (stage_5_offset_bounded scenario_dataset
           (fst (fst (returned_sample (stage_run 5))))
           (snd (returned_sample (stage_run 5)))
           (snd (fst (returned_sample (stage_run 5))))
           (world_of [] []) (snd (stage_run 5))).
  vm_compute. reflexivity.
Defined.

Lemma stage_0_returns_witness :
  exists label character font_info rest,
    0 <= label < len (characters scenario_dataset) /\
    nth_error (characters scenario_dataset) (Z.to_nat label) = Some character /\
    fonts_supporting_glyph scenario_dataset character = font_info :: rest /\
    generate_stage_0 scenario_dataset (world_of [1 # 2]%Q []) =
      (Ok (glyph_sample scenario_dataset
             {| gd_label := label; gd_character := character;
                gd_font_info := font_info; gd_font_size := 32;
                gd_background := WHITE_COLOR; gd_fill := BLACK_COLOR;
                gd_xy := (64, 64)%Q |}),
       after_random (world_of [1 # 2]%Q [])).
Proof.
  apply (stage_0_returns scenario_dataset (world_of [1 # 2]%Q [])).
  - discriminate.
  - simpl. intros character [<- | [<- | []]]; discriminate.
Defined.

Lemma sentence_context_is_supported_witness :
  exists character font_info font_size before after canvas,
    nth_error (characters scenario_dataset)
      (Z.to_nat (snd (fst (returned_sample sentence_run)))) = Some character /\
    fst (fst (returned_sample sentence_run)) = present scenario_dataset canvas /\
    In (join before ++ character ++ join after, FontInfo_get font_info font_size)
       (drawn_texts canvas) /\
    (length before <= 10)%nat /\ (length after <= 10)%nat /\
    Forall (fun glyph => In glyph (supported_glyphs font_info)) (before ++ after) /\
    In character (supported_glyphs font_info).
Proof.
  apply (sentence_context_is_supported scenario_dataset
           (generate_stage_8 scenario_dataset)
           (fst (fst (returned_sample sentence_run)))
           (snd (returned_sample sentence_run))
           (snd (fst (returned_sample sentence_run)))
           (world_of [0; 0; 0; 0; 0; 0; 0; 5 # 6]%Q []) (snd sentence_run)).
  - simpl. tauto.
  - vm_compute. reflexivity.
Defined.

Lemma sentence_characters_have_extent_witness :
  exists text font canvas,
    fst (fst (returned_sample (stage_run 6))) = present scenario_dataset canvas /\
    In (text, font) (drawn_texts canvas) /\
    forall code_point, In code_point text ->
      exists bb_left bb_top bb_right bb_bottom,
        getbbox font [code_point] lt ja = (bb_left, bb_top, bb_right, bb_bottom) /\
        bb_right <> 0 /\ bb_bottom <> 0.
Proof.
  apply (sentence_characters_have_extent scenario_dataset
           (generate_stage_6 scenario_dataset)
           (fst (fst (returned_sample (stage_run 6))))
           (snd (returned_sample (stage_run 6)))
           (snd (fst (returned_sample (stage_run 6))))
           (world_of [] []) (snd (stage_run 6))).
  - simpl. tauto.
  - vm_compute. reflexivity.
Defined.

Lemma font_size_by_stage_witness :
  exists xy character font,
    snd (returned_sample (stage_run 3)) =
      present scenario_dataset
        (Draw_text (Image_new L 128 128 [0]) xy character font [255] mm ja) /\
    (size font = 20 \/ size font = 32).
Proof.
  apply (font_size_by_stage scenario_dataset 3 (generate_stage_3 scenario_dataset)
           (fst (fst (returned_sample (stage_run 3))))
           (snd (returned_sample (stage_run 3)))
           (snd (fst (returned_sample (stage_run 3))))
           (world_of [] []) (snd (stage_run 3))).
  - reflexivity.
  - vm_compute. reflexivity.
Defined.

Lemma stages_0_to_6_are_quiet_witness :
  stdout (snd (generate_stage_6 hollow_dataset (world_of [] []))) = stdout (world_of [] []) /\
  forall code,
    fst (generate_stage_6 hollow_dataset (world_of [] [])) <> Raise (SystemExit code).
Proof.
  apply (stages_0_to_6_are_quiet hollow_dataset (generate_stage_6 hollow_dataset)
           (world_of [] []) (snd (generate_stage_6 hollow_dataset (world_of [] [])))
           (fst (generate_stage_6 hollow_dataset (world_of [] [])))).
  - simpl. tauto.
  - vm_compute. reflexivity.
Defined.

Lemma stages_7_and_8_exit_with_diagnostic_witness :
  let run := generate_stage_8 hollow_dataset (world_of [] []) in
  (stdout (snd run) = stdout (world_of [] []) /\
   forall code, fst run <> Raise (SystemExit code)) \/
  (fst run = Raise (SystemExit (-1)) /\
   exists character font_info font_size,
     In font_info (font_infos hollow_dataset) /\
     zero_extent (FontInfo_get font_info font_size) character = true /\
     stdout (snd run) =
       stdout (world_of [] [])
         ++ [character ++ str " is missing from " ++ basename (path font_info)]).
Proof.
  apply (stages_7_and_8_exit_with_diagnostic hollow_dataset
           (generate_stage_8 hollow_dataset) (world_of [] [])
           (snd (generate_stage_8 hollow_dataset (world_of [] [])))
           (fst (generate_stage_8 hollow_dataset (world_of [] [])))).
  - simpl. tauto.
  - vm_compute. reflexivity.
Defined.


Lemma generate_saturates_at_stage_8_witness :
  let self := set_stage 9 scenario_dataset in
  select_stage (stage self) (uniform_draw (world_of [] [])) = 8 /\
  generate self (world_of [] []) =
    (sample <- generate_stage_8 self ;; ret (Some sample)) (after_random (world_of [] [])).
Proof.
  apply (generate_saturates_at_stage_8 (set_stage 9 scenario_dataset) (world_of [] [])).
  discriminate.
Defined.

Lemma generate_returns_None_below_minus_1_witness :
  let self := set_stage (-2) scenario_dataset in
  select_stage (stage self) (uniform_draw (world_of [] [])) < 0 /\
  generate self (world_of [] []) = (Ok None, after_random (world_of [] [])).
Proof.
  apply (generate_returns_None_below_minus_1 (set_stage (-2) scenario_dataset)
           (world_of [] [])).
  reflexivity.
Defined.

Lemma generate_at_integer_stage_witness :
  let w := world_of [] [] in
  select_stage (stage scenario_dataset) (uniform_draw w) =
    (if Qgtb (uniform_draw w) 0 then 0 else Z.min (0 + 1) 8) /\
  exists g,
    nth_error (stage_generators scenario_dataset)
      (Z.to_nat (if Qgtb (uniform_draw w) 0 then 0 else Z.min (0 + 1) 8)) = Some g /\
    generate scenario_dataset w = (sample <- g ;; ret (Some sample)) (after_random w).
Proof.
  apply (generate_at_integer_stage scenario_dataset 0 (world_of [] [])).
  - reflexivity.
  - lia.
Defined.

Lemma init_fails_on_unreadable_file_witness :
  @__init__ unit [scenario_font] [dot_file; broken_file] [str "A"; str "B"] None
            (world_of [] [])
  = (Raise OSError, world_of [] []).
Proof.
  apply (init_fails_on_unreadable_file [scenario_font] [dot_file; broken_file]
           [str "A"; str "B"] None (world_of [] [])).
  right. left. split; reflexivity.
Defined.
